(** * vode-2020: view-synthesis losses, projection and record writing

    A shallow embedding of the Python sources of the depth-and-ego-motion
    training pipeline, followed by the properties its specification states.

    Conventions of the embedding.
    - Floating-point tensors are nested lists of exact rationals ([Q]); the
      theorems are therefore statements about the arithmetic the code writes
      down, not about rounding.
    - Python dictionaries looked up by key are [gmap string _]; dictionaries
      that are iterated ([models], [feeders]) are association lists in
      insertion order.
    - Exceptions are the [Raise] case of [Py.res]; the loss assembly also
      records the tensor computations it launches (a trace of [work]).

    Part I holds the definitions, Part II the theorems. *)

From Stdlib Require Import ZArith QArith Qabs List String Ascii Lia Psatz Permutation.
From stdpp Require Import base gmap strings list fin_maps.

(* ===================================================================== *)
(** * Part I: definitions                                                 *)
(* ===================================================================== *)

(** ** Python values, exceptions and slicing *)

Module Py.

Inductive exn : Type :=
| KeyError (key : string)
| IndexError
| TypeError
| ValueError (msg : string)
| ZeroDivisionError
| NotImplementedError
| WrongInputException (msg : string)
| InvalidArgumentError
| OSError.

Inductive res (A : Type) : Type :=
| OK (a : A)
| Raise (e : exn).
Arguments OK {A} a.
Arguments Raise {A} e.

Definition bind {A B : Type} (m : res A) (k : A -> res B) : res B :=
  match m with
  | OK a => k a
  | Raise e => Raise e
  end.

Declare Scope py_scope.
Delimit Scope py_scope with py.
Notation "'let*' p ':=' m 'in' k" := (bind m (fun p => k))
  (at level 10, p pattern, m at level 100, k at level 200) : py_scope.

(** [range(a, b)] *)
Definition range (a b : nat) : list nat := seq a (b - a).

(** [l[a:b]] for non-negative bounds: out-of-range bounds are clipped. *)
Definition slice {A : Type} (a b : nat) (l : list A) : list A :=
  take (b - a) (drop a l).

(** [str.startswith("/")] and [str.endswith("/")] *)
Definition startswith_sep (s : string) : bool :=
  match s with
  | String c _ => Ascii.eqb c "/"
  | EmptyString => false
  end.

Fixpoint endswith_sep (s : string) : bool :=
  match s with
  | EmptyString => false
  | String c EmptyString => Ascii.eqb c "/"
  | String _ r => endswith_sep r
  end.

(** [os.path.join(a, b)] of posixpath, for two components. *)
Definition op_join (a b : string) : string :=
  if startswith_sep b then b
  else if orb (String.eqb a "") (endswith_sep a) then a +:+ b
  else a +:+ "/" +:+ b.

End Py.

(** ** config.py: the options the embedded code reads *)

Module config.

Definition SNIPPET_LEN : nat := 5.

End config.

(** ** tfrecords/tfrecord_writer.py *)

Module tfrecord_writer.
Import Py.
Local Open Scope py_scope.

(** [image_reader]: the decoded image is its list of pixel rows
    ([image.shape[0]] is the number of rows); [cv2.imread] itself is the
    caller's input. The frame in the middle of the stack is moved to the
    bottom. *)
Definition image_reader {row : Type} (image : list row) : list row :=
  let height := length image / config.SNIPPET_LEN in
  let half_len := config.SNIPPET_LEN / 2 in
  let src_up := take (height * half_len) image in
  let target := slice (height * half_len) (height * (half_len + 1)) image in
  let src_dw := drop (height * (half_len + 1)) image in
  src_up ++ src_dw ++ target.

(** [df.NpyFeeder] is defined in tfrecords/data_feeders.py, which is not
    among the embedded sources: it is taken as a cursor over the listed
    files, already read, that [get_next] advances by one. *)
Record NpyFeeder (D : Type) : Type := mkFeeder { files : list D; idx : nat }.
Arguments mkFeeder {D} files idx.
Arguments files {D}.
Arguments idx {D}.

Definition feeder_len {D : Type} (f : NpyFeeder D) : nat := length (files f).

Definition get_next {D : Type} (f : NpyFeeder D) : res (D * NpyFeeder D) :=
  match files f !! idx f with
  | Some d => OK (d, mkFeeder (files f) (S (idx f)))
  | None => Raise IndexError
  end.

(** [feeders[key]] on the insertion-ordered dictionary of feeders. *)
Fixpoint feeders_getitem {D : Type} (feeders : list (string * NpyFeeder D)) (key : string)
  : res (NpyFeeder D) :=
  match feeders with
  | [] => Raise (KeyError key)
  | (k, f) :: rest => if String.eqb k key then OK f else feeders_getitem rest key
  end.

(** [TfrecordMaker.create_next_example_dict]: one [get_next] per feeder, in
    the dictionary's order; the feeders are mutated, so they are returned. *)
Fixpoint create_next_example_dict {D : Type} (feeders : list (string * NpyFeeder D))
  : res (list (string * D) * list (string * NpyFeeder D)) :=
  match feeders with
  | [] => OK ([], [])
  | (key, feeder) :: rest =>
      let* (d, feeder') := get_next feeder in
      let* (example, rest') := create_next_example_dict rest in
      OK ((key, d) :: example, (key, feeder') :: rest')
  end.

Section TfrecordMaker.
Context {D Rec : Type}.
(** [TfrecordMaker.make_serialized_example]: the protobuf encoding. *)
Variable make_serialized_example : list (string * D) -> Rec.

(** The inner loop of [make]: [for fi in range(...)] writes one record per
    iteration to the open shard. *)
Fixpoint write_records (fis : list nat) (written : list Rec)
  (feeders : list (string * NpyFeeder D)) : res (list Rec * list (string * NpyFeeder D)) :=
  match fis with
  | [] => OK (written, feeders)
  | _ :: fis' =>
      let* (raw_example, feeders') := create_next_example_dict feeders in
      let serialized := make_serialized_example raw_example in
      write_records fis' (written ++ [serialized]) feeders'
  end.

(** The outer loop: [for si in range(num_shards)] opens shard [si] and fills
    it. The result lists the shard files in the order they were written. *)
Fixpoint write_shards (sis : list nat) (num_images_per_shard : nat) (shards : list (list Rec))
  (feeders : list (string * NpyFeeder D)) : res (list (list Rec) * list (string * NpyFeeder D)) :=
  match sis with
  | [] => OK (shards, feeders)
  | si :: sis' =>
      let* (records, feeders') :=
        write_records (range (si * num_images_per_shard) ((si + 1) * num_images_per_shard))
                      [] feeders in
      write_shards sis' num_images_per_shard (shards ++ [records]) feeders'
  end.

Definition num_shards_of (num_images : nat) : nat :=
  Nat.max (Nat.min (num_images / 2000) 10) 1.

(** [TfrecordMaker.make]. [created] is the outcome of [self.create_feeders()]:
    a [ValueError] is printed and [make] returns without writing a shard. *)
Definition make (created : res (list (string * NpyFeeder D)))
  : res (list (list Rec) * list (string * NpyFeeder D)) :=
  match created with
  | Raise (ValueError _) => OK ([], [])
  | Raise e => Raise e
  | OK data_feeders =>
      let* image_feeder := feeders_getitem data_feeders "image" in
      let num_images := feeder_len image_feeder in
      let num_shards := num_shards_of num_images in
      let num_images_per_shard := num_images / num_shards in
      write_shards (range 0 num_shards) num_images_per_shard [] data_feeders
  end.

End TfrecordMaker.

(** The [i]-th example of the source dataset: entry [i] of every feeder. *)
Fixpoint nth_example {D : Type} (feeders : list (string * NpyFeeder D)) (i : nat)
  : option (list (string * D)) :=
  match feeders with
  | [] => Some []
  | (key, feeder) :: rest =>
      match files feeder !! i, nth_example rest i with
      | Some d, Some example => Some ((key, d) :: example)
      | _, _ => None
      end
  end.

(** The same feeders with every cursor at position [c]. *)
Definition at_cursor {D : Type} (c : nat) (feeders : list (string * NpyFeeder D))
  : list (string * NpyFeeder D) :=
  map (fun kf : string * NpyFeeder D => (kf.1, mkFeeder (files kf.2) c)) feeders.

(** Feeders freshly created over [n] files each. *)
Definition fresh_feeders {D : Type} (n : nat) (feeders : list (string * NpyFeeder D)) : Prop :=
  Forall (fun kf : string * NpyFeeder D => idx kf.2 = 0 /\ length (files kf.2) = n) feeders.

(** What a run of records means: record [j] is the serialized example of
    dataset index [c + j]. *)
Definition records_of {D Rec : Type} (ser : list (string * D) -> Rec)
  (fs : list (string * NpyFeeder D)) (recs : list Rec) (c m : nat) : Prop :=
  Forall2 (fun r i => exists ex, nth_example fs i = Some ex /\ r = ser ex) recs (seq c m).

(** Two feeders over 4001 files each: two shards of 2000 records are
    written and the example of index 4000 is left out. *)
Definition feeders_4001 : list (string * NpyFeeder nat) :=
  [("image"%string, mkFeeder (seq 0 4001) 0); ("intrinsic"%string, mkFeeder (seq 5000 4001) 0)].

End tfrecord_writer.

(** ** model/build_model/model_wrappers.py *)

Module model_wrappers.
Import Py.
Local Open Scope py_scope.

Section ModelWrapper.
Context {weights snapshot : Type}.
(** [tf.keras.Model.load_weights(path)] applied to the snapshot stored at
    [path]: the network's new parameters, or the exception Keras raises on a
    snapshot it cannot read into this network. *)
Variable keras_load_weights : weights -> snapshot -> res weights.

(** [op.join(ckpt_dir_path, f"{netname}_{suffix}.h5")] *)
Definition ckpt_file_of (ckpt_dir_path netname suffix : string) : string :=
  op_join ckpt_dir_path (netname +:+ "_" +:+ suffix +:+ ".h5").

(** The line printed after a snapshot was loaded. *)
Definition loaded_message (netname ckpt_file : string) : list string :=
  ["===== " +:+ netname +:+ " weights loaded from " +:+ ckpt_file].

(** The two lines printed when the snapshot file does not exist. *)
Definition missing_message (netname ckpt_file : string) : list string :=
  ["===== Failed to load weights of " +:+ netname +:+ ", train from scratch ...";
   "      tried to load file: " +:+ ckpt_file].

(** [ModelWrapper.load_weights]. [fs] maps the paths of the regular files to
    their contents, so [op.isfile] is a successful lookup; [self.models] is
    the insertion-ordered dictionary of networks, each with its parameters;
    [stdout] collects the printed lines. *)
Fixpoint load_weights (fs : gmap string snapshot) (ckpt_dir_path suffix : string)
  (models : list (string * weights)) (stdout : list string)
  : res (list (string * weights) * list string) :=
  match models with
  | [] => OK ([], stdout)
  | (netname, model) :: rest =>
      let ckpt_file := ckpt_file_of ckpt_dir_path netname suffix in
      match fs !! ckpt_file with
      | Some snap =>
          let* model' := keras_load_weights model snap in
          let* (rest', out) :=
            load_weights fs ckpt_dir_path suffix rest
                         (stdout ++ loaded_message netname ckpt_file) in
          OK ((netname, model') :: rest', out)
      | None =>
          let* (rest', out) :=
            load_weights fs ckpt_dir_path suffix rest
                         (stdout ++ missing_message netname ckpt_file) in
          OK ((netname, model) :: rest', out)
      end
  end.


End ModelWrapper.

(** A depth and a pose network, with a snapshot stored for the depth
    network only. *)
Definition two_nets : list (string * nat) := [("depthnet"%string, 1); ("posenet"%string, 2)].
Definition depth_only : gmap string nat := {[ "ckpt/vode1/depthnet_ep10.h5"%string := 7 ]}.


End model_wrappers.

(** ** Tensors and the TensorFlow operations the embedded code calls *)

Module tf.
Import Py.
Local Open Scope py_scope.
Local Open Scope Q_scope.

Definition tensor1 : Type := list Q.
Definition tensor2 : Type := list tensor1.
Definition tensor3 : Type := list tensor2.
Definition tensor4 : Type := list tensor3.
Definition tensor5 : Type := list tensor4.

(** [tf.reduce_sum] and [tf.reduce_mean] over all the entries of a tensor
    given as the list of its entries. The mean of a tensor without entries
    is [nan] in TensorFlow and [0 / 0 = 0] here; the examples below use
    tensors with entries. *)
Definition reduce_sum (t : tensor1) : Q := fold_right Qplus 0 t.

Definition reduce_mean (t : tensor1) : Q :=
  reduce_sum t / inject_Z (Z.of_nat (length t)).

Definition flatten2 (t : tensor2) : tensor1 := concat t.
Definition flatten3 (t : tensor3) : tensor1 := concat (map flatten2 t).
Definition flatten4 (t : tensor4) : tensor1 := concat (map flatten3 t).

(** The shape of a tensor given as nested lists: the lists of every level
    have the stated length. A TensorFlow tensor always has one. *)
Definition shape1 (c : nat) (t : tensor1) : Prop := length t = c.
Definition shape2 (w c : nat) (t : tensor2) : Prop := length t = w /\ Forall (shape1 c) t.
Definition shape3 (h w c : nat) (t : tensor3) : Prop := length t = h /\ Forall (shape2 w c) t.
Definition shape4 (n h w c : nat) (t : tensor4) : Prop :=
  length t = n /\ Forall (shape3 h w c) t.

(** The lengths of the rows of the matrices of a rank-3 tensor. *)
Definition row_lengths (t : tensor3) : list nat := concat (map (map (@length Q)) t).

(** [tf.slice(t, (0, 0, 0), (-1, n, -1))]: the first [n] rows of every
    matrix; a matrix with fewer rows is an invalid argument. *)
Definition slice_rows (n : nat) (t : tensor3) : res tensor3 :=
  if forallb (fun m : tensor2 => n <=? length m)%nat t
  then OK (map (take n) t)
  else Raise InvalidArgumentError.

(** [tf.concat([a, b], axis=1)]: the matrices of [b] are put under those of
    [a]; the batch sizes and the row lengths have to agree. *)
Definition concat_axis1 (a b : tensor3) : res tensor3 :=
  let cols := hd 0%nat (row_lengths b) in
  if (length a =? length b)%nat
     && forallb (fun n => n =? cols)%nat (row_lengths a ++ row_lengths b)
  then OK (zip_with app a b)
  else Raise InvalidArgumentError.

(** The least magnitude that float32 rounds to infinity: [2^128 - 2^103],
    half a unit in the last place beyond the largest finite number. *)
Definition float32_limit : Q := inject_Z (2 ^ 128 - 2 ^ 103).

(** The value of a float32 division [x / y], as far as this embedding
    follows it: a division by zero, which gives [inf], [-inf] or [nan]; a
    quotient whose magnitude reaches the float32 limit, which gives [inf]
    or [-inf]; or the quotient itself, written exactly. *)
Inductive tfnum : Type :=
| Quot (q : Q)
| Overflow
| DivZero.

Definition in_range (q : Q) : tfnum :=
  if Qle_bool float32_limit (Qabs q) then Overflow else Quot q.

Definition divide (x y : Q) : tfnum :=
  if Qeq_bool y 0 then DivZero else in_range (x / y).


Definition is_zero_division (x : tfnum) : bool :=
  match x with
  | DivZero => true
  | _ => false
  end.

(** [tf.matmul] of two matrices given by their rows. *)
Definition dot (a b : tensor1) : Q := reduce_sum (zip_with Qmult a b).

Definition column (m : tensor2) (j : nat) : tensor1 := map (fun r : tensor1 => nth j r 0) m.

Definition matmul (a b : tensor2) : tensor2 :=
  map (fun r : tensor1 => map (fun j => dot r (column b j)) (seq 0 (length (hd [] b)))) a.

(** One batch axis of [tf.matmul]: entries of axes of equal length are
    paired, an axis of length 1 is broadcast over the other one, and any
    other pair of lengths is an invalid argument. *)
Definition broadcast_axis {A B : Type} (a : list A) (b : list B) : res (list (A * B)) :=
  if (length a =? length b)%nat then OK (zip a b)
  else match a, b with
       | [x], _ => OK (map (fun y => (x, y)) b)
       | _, [y] => OK (map (fun x => (x, y)) a)
       | _, _ => Raise InvalidArgumentError
       end.

(** The results of a list of computations, or the first exception. *)
Fixpoint all_ok {A : Type} (l : list (res A)) : res (list A) :=
  match l with
  | [] => OK []
  | x :: r =>
      let* y := x in
      let* ys := all_ok r in
      OK (y :: ys)
  end.

(** [tf.matmul] of two tensors of rank 4: the matrices are multiplied
    along the two batch axes. *)
Definition batch_matmul (a b : tensor4) : res tensor4 :=
  let* pairs := broadcast_axis a b in
  all_ok (map (fun p : tensor3 * tensor3 =>
                 let* inner := broadcast_axis p.1 p.2 in
                 OK (map (fun q : tensor2 * tensor2 => matmul q.1 q.2) inner))
              pairs).

End tf.

(** ** model/synthesize/synthesize_base.py *)

Module synthesize_base.
Import Py tf.
Local Open Scope py_scope.
Local Open Scope Q_scope.

(** The attributes of a [SynthesizeBatchBasic] object. *)
Record SynthesizeBatchBasic : Type := mkSynth {
  batch : nat;
  height : nat;
  width : nat;
  num_src : nat;
  scale : nat
}.

(** [SynthesizeBatchBasic.__init__] with its default arguments. *)
Definition init : SynthesizeBatchBasic := mkSynth 0 0 0 0 0.

(** [read_shape], on the shapes of the stacked source images and of the
    depth map. [int(a / b)] of non-negative integers is the quotient. *)
Definition read_shape (self : SynthesizeBatchBasic) (src_shape depth_shape : list nat)
  : res SynthesizeBatchBasic :=
  match src_shape, depth_shape with
  | [_; stacked_height; width_orig; _], [b; h; w; _] =>
      if (w =? 0)%nat then Raise ZeroDivisionError
      else
        let sc := (width_orig / w)%nat in
        if ((sc =? 0) || (h =? 0))%nat then Raise ZeroDivisionError
        else OK (mkSynth b h w (stacked_height / sc / h)%nat sc)
  | _, _ => Raise (ValueError "not enough values to unpack")
  end.

(** [scale_intrinsic]: the first two rows of every intrinsic matrix divided
    by [scale], over [self.batch] copies of the row [0 0 1]. *)
Definition scale_intrinsic (self : SynthesizeBatchBasic) (intrinsic : tensor3) (scale : Q)
  : res tensor3 :=
  let* scaled_part := slice_rows 2 intrinsic in
  let scaled_part := map (map (map (fun x => x / scale))) scaled_part in
  let const_part := repeat [[0; 0; 1]] (batch self) in
  concat_axis1 scaled_part const_part.

(** A 3x3 matrix given by its rows. *)
Definition is_3x3 (m : tensor2) : bool :=
  (length m =? 3)%nat && forallb (fun r : tensor1 => length r =? 3)%nat m.

(** [m'] is [m] with its first two rows divided by [s] and its last row
    replaced by [0 0 1]. *)
Definition scaled_by (s : Q) (m m' : tensor2) : Prop :=
  exists fx sk cx a fy cy g h i,
    m = [[fx; sk; cx]; [a; fy; cy]; [g; h; i]]
    /\ m' = [[fx / s; sk / s; cx / s]; [a / s; fy / s; cy / s]; [0; 0; 1]].

(** What [scale_intrinsic] builds for one matrix. *)
Definition scaled_matrix (s : Q) (m : tensor2) : tensor2 :=
  map (map (fun x => x / s)) (take 2 m) ++ [[0; 0; 1]].

(** A batch of two KITTI-like intrinsics at half resolution. *)
Definition two_intrinsics : tensor3 :=
  [ [[720; 0; 620]; [0; 720; 188]; [0; 0; 1]];
    [[360; 0; 310]; [0; 360; 94]; [0; 0; 1]] ].

(** The constant added to the projective depth in [cam2pixel]: the Python
    float [1e-10] is added to a float32 tensor and so becomes the float32
    next to it, [14411519 * 2^-57]. *)
Definition depth_eps : Q := 14411519 # 144115188075855872.

(** The first half of [cam2pixel]: the intrinsic matrix is repeated for every
    source frame and multiplied with the first three rows of the camera
    points. *)
Definition cam2pixel_matmul (self : SynthesizeBatchBasic) (cam_coords : tensor4)
  (intrinsic : tensor3) : res tensor4 :=
  let intrinsic_expand := map (fun K : tensor2 => repeat K (num_src self)) intrinsic in
  let point_coords := map (map (take 3)) cam_coords in
  batch_matmul intrinsic_expand point_coords.

(** [pixel_coords / (pixel_scales + 1e-10)] for one source frame:
    [pixel_scales] is the row of index 2, broadcast over the rows. *)
Definition normalize_scale (pixel_coords : tensor2) : list (list tfnum) :=
  let pixel_scales := slice 2 3 pixel_coords in
  let denominators := map (fun z => z + depth_eps) (hd [] pixel_scales) in
  map (fun row : tensor1 => zip_with divide row denominators) pixel_coords.

(** [cam2pixel] *)
Definition cam2pixel (self : SynthesizeBatchBasic) (cam_coords : tensor4) (intrinsic : tensor3)
  : res (list (list (list (list tfnum)))) :=
  let* pixel_coords := cam2pixel_matmul self cam_coords intrinsic in
  OK (map (map normalize_scale) pixel_coords).

(** The projective depths of the projected points: the row of index 2 of
    every product. *)
Definition pixel_depths (pixel_coords : tensor4) : tensor1 :=
  concat (map (fun pts : tensor3 => concat (map (fun m : tensor2 => hd [] (slice 2 3 m)) pts))
              pixel_coords).


(** No entry of the result is a division by zero. *)
Definition no_zero_division (t : list (list (list (list tfnum)))) : bool :=
  forallb (forallb (forallb (forallb (fun x => negb (is_zero_division x))))) t.

(** The exact quotients, where no denominator is zero. *)
Definition normalized (pixel_coords : tensor2) : tensor2 :=
  map (fun row : tensor1 =>
         zip_with (fun x z => x / (z + depth_eps)) row (hd [] (slice 2 3 pixel_coords)))
      pixel_coords.

(** One source frame and two points: the first lies in the camera plane
    (depth 0), the second two metres ahead. *)
Definition unit_camera : SynthesizeBatchBasic := mkSynth 1 1 2 1 1.
Definition identity_intrinsic : tensor3 := [ [[1; 0; 0]; [0; 1; 0]; [0; 0; 1]] ].
Definition plane_and_far_points : tensor4 := [ [ [[3; 4]; [5; 6]; [0; 2]; [1; 1]] ] ].



End synthesize_base.

(** ** model/loss_and_metric/loss_util.py *)

Module loss_util.
Import Py tf.
Local Open Scope Q_scope.

(** [tf.abs(synt_target - orig_target)] on the channels of one pixel. *)
Definition abs_error (synt_pixel orig_pixel : tensor1) : tensor1 :=
  zip_with (fun s o => Qabs (s - o)) synt_pixel orig_pixel.

(** [error_mask]: the mean over the channels of the synthesized pixel
    ([synt_target_gray]) is equal to 0. *)
Definition error_mask (synt_pixel : tensor1) : bool :=
  Qeq_bool (reduce_mean synt_pixel) 0.

(** [tf.where(error_mask, 0, photo_error)] on one pixel: the mask has one
    channel and is broadcast over the channels of the error. *)
Definition where_masked (synt_pixel : tensor1) (photo_error : tensor1) : tensor1 :=
  if error_mask synt_pixel then map (fun _ => 0) photo_error else photo_error.

Definition pixel_error_l1 (synt_pixel orig_pixel : tensor1) : tensor1 :=
  where_masked synt_pixel (abs_error synt_pixel orig_pixel).

(** The masked error of one synthesized image [height][width][3] against the
    original target. *)
Definition image_error_l1 (synt_image orig_image : tensor3) : tensor3 :=
  zip_with (zip_with pixel_error_l1) synt_image orig_image.

(** [photometric_loss_l1(synt_target, orig_target, reduce=False)]: the
    original target gets an axis of length 1 that is broadcast over the
    source axis of the synthesized targets. The two tensors have the
    documented shapes, equal on the batch, height, width and channel axes;
    on other shapes TensorFlow broadcasts an axis of length 1 or raises,
    where [zip_with] here stops at the shorter list. *)
Definition photo_error_l1 (synt_target : tensor5) (orig_target : tensor4) : tensor5 :=
  zip_with (fun (synt_b : tensor4) (orig_b : tensor3) =>
              map (fun synt_image => image_error_l1 synt_image orig_b) synt_b)
           synt_target orig_target.

(** [photometric_loss_l1(synt_target, orig_target)] with the default
    [reduce=True]: [tf.reduce_mean] over the axes 1 to 4, one value per
    example of the batch. *)
Definition photometric_loss_l1 (synt_target : tensor5) (orig_target : tensor4) : tensor1 :=
  map (fun photo_error_b : tensor4 => reduce_mean (flatten4 photo_error_b))
      (photo_error_l1 synt_target orig_target).

(** *** The quantities the proofs go through *)

(** The pairs (synthesized pixel, original pixel) of one example. *)
Definition pixel_pairs_image (synt_image orig_image : tensor3) : list (tensor1 * tensor1) :=
  concat (zip_with (zip_with pair) synt_image orig_image).

Definition pixel_pairs (synt_b : tensor4) (orig_b : tensor3) : list (tensor1 * tensor1) :=
  concat (map (fun synt_image => pixel_pairs_image synt_image orig_b) synt_b).

(** The pairs whose synthesized pixel is not masked. *)
Definition unmasked (pairs : list (tensor1 * tensor1)) : list (tensor1 * tensor1) :=
  List.filter (fun p : tensor1 * tensor1 => negb (error_mask p.1)) pairs.

(** The sum of the absolute errors of the given pairs, over all channels. *)
Definition abs_error_sum (pairs : list (tensor1 * tensor1)) : Q :=
  reduce_sum (map (fun p : tensor1 * tensor1 => reduce_sum (abs_error p.1 p.2)) pairs).

(** The number of error entries (pixels times channels) of the given pairs. *)
Definition entry_count (pairs : list (tensor1 * tensor1)) : nat :=
  list_sum (map (fun p : tensor1 * tensor1 => length (abs_error p.1 p.2)) pairs).

(** The loss of one example as the code computes it: the errors of the
    unmasked pixels, divided by the number of all entries. *)
Definition masked_sum_over_all (synt_b : tensor4) (orig_b : tensor3) : Q :=
  abs_error_sum (unmasked (pixel_pairs synt_b orig_b))
  / inject_Z (Z.of_nat (entry_count (pixel_pairs synt_b orig_b))).


(** *** The quantities the specification speaks of

    They are written on the pixels themselves, with the arithmetic of
    [Q] and without the definitions of the code above. *)









(** One example, one source, one row of two pixels: the first synthesized
    pixel is black, the second is off by 1 in every channel. *)
Definition synt_half_black : tensor5 := [ [ [ [ [0; 0; 0]; [1; 1; 1] ] ] ] ].
Definition orig_gray : tensor4 := [ [ [ [1 # 2; 1 # 2; 1 # 2]; [0; 0; 0] ] ] ].


End loss_util.

(** ** model/loss_and_metric/losses.py *)

Module losses.
Import Py tf loss_util.
Local Open Scope Q_scope.

(** *** Values, dictionaries and launched computations *)

(** What the dictionaries [features], [predictions] and [augm_data] hold:
    a tensor, or a Python list of tensors (one per scale). *)
Inductive pyval : Type :=
| PTensor3 (t : tensor3)
| PTensor4 (t : tensor4)
| PList4 (l : list tensor4)
| PList5 (l : list tensor5).

(** The tensor computations the loss assembly launches, in the order it
    launches them: calls of the helper modules and of the named
    [layers.Lambda] layers. *)
Inductive work : Type :=
| Split
| MultiScaleDepth
| MultiScaleFlow
| Synthesize
| FlowWarp
| PhotoLoss (i : nat) (key_suffix : string)
| PhotoLossSum (key_suffix : string)
| SmoothLoss (i : nat)
| SmoothLossSum
| FlowWarpLoss (i : nat) (key_suffix : string)
| FlowWarpLossSum (key_suffix : string)
| Inverse
| PoseToVector
| MeanSquaredError
| L2Loss
| Losses
| TotalLossSum.

(** A computation of the loss assembly: the work launched so far and either
    a value or the exception that ended it. *)
Definition M (A : Type) : Type := list work * res A.

Definition ret {A : Type} (a : A) : M A := ([], OK a).
Definition raise {A : Type} (e : exn) : M A := ([], Raise e).
Definition launch {A : Type} (w : work) (a : A) : M A := ([w], OK a).

Definition bindM {A B : Type} (m : M A) (k : A -> M B) : M B :=
  match m with
  | (w, OK a) => let (w', r) := k a in (w ++ w', r)
  | (w, Raise e) => (w, Raise e)
  end.

(** The two components of a computation. *)
Definition trace {A : Type} (m : M A) : list work := m.1.
Definition outcome {A : Type} (m : M A) : res A := m.2.

Declare Scope loss_scope.
Delimit Scope loss_scope with loss.
Notation "'let*' p ':=' m 'in' k" := (bindM m (fun p => k))
  (at level 10, p pattern, m at level 100, k at level 200) : loss_scope.
Local Open Scope loss_scope.

(** [d[key]] *)
Definition getitem (d : gmap string pyval) (key : string) : M pyval :=
  match d !! key with
  | Some v => ret v
  | None => raise (KeyError key)
  end.

Definition as_tensor3 (v : pyval) : M tensor3 :=
  match v with PTensor3 t => ret t | _ => raise TypeError end.
Definition as_tensor4 (v : pyval) : M tensor4 :=
  match v with PTensor4 t => ret t | _ => raise TypeError end.
Definition as_list4 (v : pyval) : M (list tensor4) :=
  match v with PList4 l => ret l | _ => raise TypeError end.
Definition as_list5 (v : pyval) : M (list tensor5) :=
  match v with PList5 l => ret l | _ => raise TypeError end.

Definition get_tensor3 (d : gmap string pyval) (key : string) : M tensor3 :=
  let* v := getitem d key in as_tensor3 v.
Definition get_tensor4 (d : gmap string pyval) (key : string) : M tensor4 :=
  let* v := getitem d key in as_tensor4 v.
Definition get_list4 (d : gmap string pyval) (key : string) : M (list tensor4) :=
  let* v := getitem d key in as_list4 v.
Definition get_list5 (d : gmap string pyval) (key : string) : M (list tensor5) :=
  let* v := getitem d key in as_list5 v.

(** The functions of the helper modules (utils, bilinear sampling, pose
    conversion, Keras pooling) and of TensorFlow that the loss assembly
    calls and whose code is not part of this embedding. *)
Record TFOps : Type := mkOps {
  split_into_source_and_target : tensor4 -> tensor4 * tensor4;
  multi_scale_like_depth : tensor4 -> list tensor4 -> list tensor4;
  multi_scale_like_flow : tensor4 -> list tensor5 -> list tensor4;
  SynthesizeMultiScale : tensor4 -> tensor3 -> list tensor4 -> tensor3 -> list tensor5;
  FlowWarpMultiScale : tensor4 -> list tensor5 -> list tensor5;
  photometric_loss_ssim : tensor5 -> tensor4 -> tensor1;
  linalg_inv : tensor3 -> tensor3;
  pose_matr2rvec_batch : tensor4 -> tensor3;
  exp : Q -> Q
}.

(** *** SmoothenessLossMultiScale.smootheness_loss *)

Section Smootheness.
Variable ops : TFOps.

Definition pixel_sub (p q : tensor1) : tensor1 := zip_with Qminus p q.

(** [row[:-1] - row[1:]] along one row of pixels. *)
Definition row_gradient (row : tensor2) : tensor2 :=
  zip_with pixel_sub (removelast row) (tail row).

(** [img[:, :, :-1, :] - img[:, :, 1:, :]] *)
Definition gradient_x (img : tensor4) : tensor4 := map (map row_gradient) img.

(** [img[:, :-1, :, :] - img[:, 1:, :, :]] *)
Definition gradient_y (img : tensor4) : tensor4 :=
  map (fun im : tensor3 => zip_with (zip_with pixel_sub) (removelast im) (tail im)) img.

(** [tf.exp(-tf.reduce_mean(tf.abs(g), 3, keepdims=True))], on one pixel
    and on the whole gradient. *)
Definition edge_weight (px : tensor1) : tensor1 := [exp ops (- reduce_mean (map Qabs px))].

Definition edge_weights (g : tensor4) : tensor4 := map (map (map edge_weight)) g.

(** [disp_gradients * weights]: the single channel of the weight is
    broadcast over the channels of the disparity gradient. *)
Definition times_weight (dpx wpx : tensor1) : tensor1 :=
  map (fun d => d * hd 0 wpx) dpx.

Definition weighted (disp_gradients weights : tensor4) : tensor4 :=
  zip_with (zip_with (zip_with times_weight)) disp_gradients weights.

Definition smootheness_loss (disp image : tensor4) : Q :=
  let disp_gradients_x := gradient_x disp in
  let disp_gradients_y := gradient_y disp in
  let image_gradients_x := gradient_x image in
  let image_gradients_y := gradient_y image in
  let weights_x := edge_weights image_gradients_x in
  let weights_y := edge_weights image_gradients_y in
  let smoothness_x := weighted disp_gradients_x weights_x in
  let smoothness_y := weighted disp_gradients_y weights_y in
  let smoothness_x := (1 # 2) * reduce_mean (map Qabs (flatten4 smoothness_x)) in
  let smoothness_y := (1 # 2) * reduce_mean (map Qabs (flatten4 smoothness_y)) in
  smoothness_x + smoothness_y.

End Smootheness.

(** *** The loss terms *)

(** [self.photometric_loss], chosen by [PhotometricLoss.__init__]. *)
Inductive photometric : Type := L1 | SSIM.

Definition PhotometricLoss_init (method : string) : res photometric :=
  if String.eqb method "L1" then OK L1
  else if String.eqb method "SSIM" then OK SSIM
  else Raise (WrongInputException ("Wrong photometric loss name: " +:+ method)).

(** The loss calculators: the subclasses of [LossBase] with their
    attributes. [L2Regularizer] holds the flattened weights to regularize,
    or [None] when the model has no flow network. *)
Inductive LossTerm : Type :=
| PhotometricLossMultiScale (photometric_loss : photometric) (key_suffix : string)
| SmoothenessLossMultiScale (key_suffix : string)
| StereoDepthLoss (photometric_loss : photometric)
| StereoPoseLoss
| FlowWarpLossMultiScale (photometric_loss : photometric) (key_suffix : string)
| L2Regularizer (weights : option (list tensor1)).

(** The constructors that go through [PhotometricLoss.__init__]. *)
Definition new_PhotometricLossMultiScale (method key_suffix : string) : res LossTerm :=
  Py.bind (PhotometricLoss_init method) (fun f => OK (PhotometricLossMultiScale f key_suffix)).
Definition new_StereoDepthLoss (method : string) : res LossTerm :=
  Py.bind (PhotometricLoss_init method) (fun f => OK (StereoDepthLoss f)).
Definition new_FlowWarpLossMultiScale (method key_suffix : string) : res LossTerm :=
  Py.bind (PhotometricLoss_init method) (fun f => OK (FlowWarpLossMultiScale f key_suffix)).

(** [TotalLoss] with its attributes. *)
Record TotalLoss : Type := mkTotalLoss {
  calc_losses : list LossTerm;
  loss_weights : list Q;
  stereo : bool
}.

Section Calls.
Variable ops : TFOps.

Definition run_photometric (f : photometric) (synt_target : tensor5) (orig_target : tensor4)
  : tensor1 :=
  match f with
  | L1 => photometric_loss_l1 synt_target orig_target
  | SSIM => photometric_loss_ssim ops synt_target orig_target
  end.

(** The loop [for i, (synt, orig) in enumerate(zip(...))] of the photometric
    terms: one named [Lambda] layer per scale, its value appended to
    [losses]. [lambda_name] gives the work item of the layer of scale [i]. *)
Fixpoint photo_loop (f : photometric) (lambda_name : nat -> work) (i : nat)
  (pairs : list (tensor5 * tensor4)) (losses : list tensor1) : M (list tensor1) :=
  match pairs with
  | [] => ret losses
  | (synt_target, orig_target) :: rest =>
      let* loss := launch (lambda_name i) (run_photometric f synt_target orig_target) in
      photo_loop f lambda_name (S i) rest (losses ++ [loss])
  end.

(** [tf.reduce_sum] of a list of per-example vectors. *)
Definition reduce_sum_vectors (losses : list tensor1) : Q := reduce_sum (concat losses).

Definition PhotometricLossMultiScale_call (f : photometric) (key_suffix : string)
  (features predictions augm_data : gmap string pyval) : M Q :=
  let* original_target_ms := get_list4 augm_data ("target_ms" +:+ key_suffix) in
  let* synth_target_ms := get_list5 augm_data ("synth_target_ms" +:+ key_suffix) in
  let* losses :=
    photo_loop f (fun i => PhotoLoss i key_suffix) 0
               (zip synth_target_ms original_target_ms) [] in
  launch (PhotoLossSum key_suffix) (reduce_sum_vectors losses).

(** The width of a tensor [batch, height, width, channels]. *)
Definition width_of (t : tensor4) : nat := length (hd [] (hd [] t)).

(** [target_ms[0]] *)
Definition first_of {A : Type} (l : list A) : M A :=
  match l with
  | x :: _ => ret x
  | [] => raise IndexError
  end.

(** The loop of [SmoothenessLossMultiScale.__call__]: the quotient of the
    two integer widths is Python's true division. *)
Fixpoint smooth_loop (orig_width : nat) (i : nat) (pairs : list (tensor4 * tensor4))
  (losses : list Q) : M (list Q) :=
  match pairs with
  | [] => ret losses
  | (disp, image) :: rest =>
      if (width_of image =? 0)%nat then raise ZeroDivisionError
      else
        let scale := inject_Z (Z.of_nat orig_width) / inject_Z (Z.of_nat (width_of image)) in
        let* loss := launch (SmoothLoss i) (smootheness_loss ops disp image / scale) in
        smooth_loop orig_width (S i) rest (losses ++ [loss])
  end.

Definition SmoothenessLossMultiScale_call (key_suffix : string)
  (features predictions augm_data : gmap string pyval) : M Q :=
  let* pred_disp_ms := get_list4 predictions ("disp_ms" +:+ key_suffix) in
  let* target_ms := get_list4 augm_data ("target_ms" +:+ key_suffix) in
  let* target_0 := first_of target_ms in
  let orig_width := width_of target_0 in
  let* losses := smooth_loop orig_width 0 (zip pred_disp_ms target_ms) [] in
  launch SmoothLossSum (reduce_sum losses).

(** [tf.expand_dims(t, 1)] on a tensor of rank 3. *)
Definition expand_dims_1 (t : tensor3) : tensor4 := map (fun m : tensor2 => [m]) t.

(** [StereoDepthLoss.stereo_synthesize_loss] *)
Definition stereo_synthesize_loss (f : photometric) (source_img : tensor4)
  (target_ms : list tensor4) (target_depth_ms : list tensor4) (pose_t2s : tensor3)
  (intrinsic : tensor3) (suffix : string) : M (list tensor1) :=
  let* pose_stereo := launch PoseToVector (pose_matr2rvec_batch ops (expand_dims_1 pose_t2s)) in
  let* synth_target_ms :=
    launch Synthesize (SynthesizeMultiScale ops source_img intrinsic target_depth_ms pose_stereo) in
  photo_loop f (fun i => PhotoLoss i suffix) 0 (zip synth_target_ms target_ms) [].

(** [StereoDepthLoss.__call__]: the arguments of each call are evaluated
    from left to right. *)
Definition StereoDepthLoss_call (f : photometric)
  (features predictions augm_data : gmap string pyval) : M Q :=
  let* source_img := get_tensor4 augm_data "target_R" in
  let* target_ms := get_list4 augm_data "target_ms" in
  let* target_depth_ms := get_list4 predictions "depth_ms" in
  let* stereo_T_LR := get_tensor3 features "stereo_T_LR" in
  let* pose_t2s := launch Inverse (linalg_inv ops stereo_T_LR) in
  let* intrinsic := get_tensor3 features "intrinsic" in
  let* loss_left :=
    stereo_synthesize_loss f source_img target_ms target_depth_ms pose_t2s intrinsic "" in
  let* source_img := get_tensor4 augm_data "target" in
  let* target_ms := get_list4 augm_data "target_ms_R" in
  let* target_depth_ms := get_list4 predictions "depth_ms_R" in
  let* pose_t2s := get_tensor3 features "stereo_T_LR" in
  let* intrinsic := get_tensor3 features "intrinsic_R" in
  let* loss_right :=
    stereo_synthesize_loss f source_img target_ms target_depth_ms pose_t2s intrinsic "_R" in
  let losses := loss_left ++ loss_right in
  launch (PhotoLossSum "") (reduce_sum_vectors losses).

(** [tf.keras.losses.MSE]: the mean over the last axis of the squared
    difference. *)
Definition keras_MSE (y_true y_pred : tensor3) : tensor2 :=
  zip_with (zip_with (fun a b : tensor1 =>
                        reduce_mean (zip_with (fun x y => (x - y) * (x - y)) a b)))
           y_true y_pred.

Definition StereoPoseLoss_call (features predictions augm_data : gmap string pyval) : M Q :=
  let* pose_lr_pred := get_tensor3 predictions "pose_LR" in
  let* pose_rl_pred := get_tensor3 predictions "pose_RL" in
  let* pose_lr_true_mat := get_tensor3 features "stereo_T_LR" in
  let pose_lr_true_mat := expand_dims_1 pose_lr_true_mat in
  let* pose_rl_true_mat :=
    launch Inverse (map (linalg_inv ops) pose_lr_true_mat) in
  let* pose_lr_true := launch PoseToVector (pose_matr2rvec_batch ops pose_lr_true_mat) in
  let* pose_rl_true := launch PoseToVector (pose_matr2rvec_batch ops pose_rl_true_mat) in
  let* loss :=
    launch MeanSquaredError
           (zip_with (zip_with Qplus) (keras_MSE pose_lr_true pose_lr_pred)
                     (keras_MSE pose_rl_true pose_rl_pred)) in
  ret (reduce_mean (flatten2 loss)).

Definition FlowWarpLossMultiScale_call (f : photometric) (key_suffix : string)
  (features predictions augm_data : gmap string pyval) : M Q :=
  let* flow_target_ms := get_list4 augm_data ("flow_target_ms" +:+ key_suffix) in
  let* warped_target_ms := get_list5 augm_data ("warped_target_ms" +:+ key_suffix) in
  let* losses :=
    photo_loop f (fun i => FlowWarpLoss i key_suffix) 0
               (zip warped_target_ms flow_target_ms) [] in
  launch (FlowWarpLossSum key_suffix) (reduce_sum_vectors losses).

(** [tf.nn.l2_loss(t)]: half the sum of the squares. *)
Definition l2_loss (t : tensor1) : Q := reduce_sum (map (fun x => x * x) t) / 2.

Fixpoint l2_loop (weights : list tensor1) (loss : Q) : M Q :=
  match weights with
  | [] => ret loss
  | weight :: rest =>
      let* l := launch L2Loss (l2_loss weight) in
      l2_loop rest (loss + l)
  end.

Definition L2Regularizer_call (weights : option (list tensor1)) : M Q :=
  match weights with
  | Some ws => l2_loop ws 0
  | None => raise TypeError
  end.

(** [calc_loss(features, predictions, augm_data)], by the class of the
    calculator. *)
Definition LossTerm_call (t : LossTerm) (features predictions augm_data : gmap string pyval)
  : M Q :=
  match t with
  | PhotometricLossMultiScale f key_suffix =>
      PhotometricLossMultiScale_call f key_suffix features predictions augm_data
  | SmoothenessLossMultiScale key_suffix =>
      SmoothenessLossMultiScale_call key_suffix features predictions augm_data
  | StereoDepthLoss f => StereoDepthLoss_call f features predictions augm_data
  | StereoPoseLoss => StereoPoseLoss_call features predictions augm_data
  | FlowWarpLossMultiScale f key_suffix =>
      FlowWarpLossMultiScale_call f key_suffix features predictions augm_data
  | L2Regularizer weights => L2Regularizer_call weights
  end.

(** *** TotalLoss *)

(** [TotalLoss.augment_data] *)
Definition augment_data (features predictions : gmap string pyval) (suffix : string)
  : M (gmap string pyval) :=
  let augm_data : gmap string pyval := ∅ in
  let* pred_depth_ms := get_list4 predictions ("depth_ms" +:+ suffix) in
  let* pred_pose := get_tensor3 predictions ("pose" +:+ suffix) in
  let* stacked_image := get_tensor4 features ("image" +:+ suffix) in
  let* intrinsic := get_tensor3 features ("intrinsic" +:+ suffix) in
  let* (source_image, target_image) :=
    launch Split (split_into_source_and_target ops stacked_image) in
  let* target_ms := launch MultiScaleDepth (multi_scale_like_depth ops target_image pred_depth_ms) in
  let augm_data := <["source" +:+ suffix := PTensor4 source_image]> augm_data in
  let augm_data := <["target" +:+ suffix := PTensor4 target_image]> augm_data in
  let augm_data := <["target_ms" +:+ suffix := PList4 target_ms]> augm_data in
  let* synth_target_ms :=
    launch Synthesize (SynthesizeMultiScale ops source_image intrinsic pred_depth_ms pred_pose) in
  let augm_data := <["synth_target_ms" +:+ suffix := PList5 synth_target_ms]> augm_data in
  match predictions !! ("flow_ms" +:+ suffix) with
  | Some v =>
      let* pred_flow_ms := as_list5 v in
      let* flow_target_ms :=
        launch MultiScaleFlow (multi_scale_like_flow ops target_image pred_flow_ms) in
      let augm_data := <["flow_target_ms" +:+ suffix := PList4 flow_target_ms]> augm_data in
      let* warped_target_ms := launch FlowWarp (FlowWarpMultiScale ops source_image pred_flow_ms) in
      let augm_data := <["warped_target_ms" +:+ suffix := PList5 warped_target_ms]> augm_data in
      ret augm_data
  | None => ret augm_data
  end.

(** The first lines of [TotalLoss.__call__]: the augmented data of the left
    camera and, for a stereo rig, of the right one, whose keys are written
    over the first dictionary by [update]. *)
Definition augment_all (self : TotalLoss) (features predictions : gmap string pyval)
  : M (gmap string pyval) :=
  let* augm_data := augment_data features predictions "" in
  if stereo self then
    let* augm_data_rig := augment_data features predictions "_R" in
    ret (augm_data_rig ∪ augm_data)
  else ret augm_data.

(** The loop [for calc_loss, weight in zip(...)] of [TotalLoss.__call__]. *)
Fixpoint total_loop (pairs : list (LossTerm * Q))
  (features predictions augm_data : gmap string pyval) (losses : list Q) : M (list Q) :=
  match pairs with
  | [] => ret losses
  | (calc_loss, weight) :: rest =>
      let* loss := LossTerm_call calc_loss features predictions augm_data in
      total_loop rest features predictions augm_data (losses ++ [loss * weight])
  end.

(** [TotalLoss.__call__] *)
Definition TotalLoss_call (self : TotalLoss) (predictions features : gmap string pyval)
  : M (Q * list Q) :=
  let* augm_data := augment_all self features predictions in
  let* losses :=
    total_loop (zip (calc_losses self) (loss_weights self)) features predictions augm_data [] in
  let* losses := launch Losses losses in
  let* total_loss := launch TotalLossSum (reduce_sum losses) in
  ret (total_loss, losses).

End Calls.

(** *** The prediction keys the loss needs *)



(** *** Edge-aware smoothness as the specification words it

    Written on the entries of the levels, with the arithmetic of [Q] and
    without the definitions of the code above. *)

Section SmoothenessSpec.
Variable ops : TFOps.

(** The entry of a level at example [b], row [y], column [x] and channel
    [k]. *)
Definition entry (t : tensor4) (b y x k : nat) : Q :=
  nth k (nth x (nth y (nth b t []) []) []) 0.

(** The sum of [f 0], ..., [f (n - 1)]. *)
Definition sum_below (n : nat) (f : nat -> Q) : Q := fold_right Qplus 0 (map f (seq 0 n)).

(** The magnitude of the image gradient between the pixels [(y, x)] and
    [(y', x')] of example [b]: the mean over the [c] channels of the
    absolute difference. *)
Definition image_gradient (c : nat) (image : tensor4) (b y x y' x' : nat) : Q :=
  sum_below c (fun k => Qabs (entry image b y x k - entry image b y' x' k))
  / inject_Z (Z.of_nat c).

(** The penalty of two neighbouring pixels: the magnitude of the disparity
    gradient weighted by [exp(-|image gradient|)]. *)
Definition edge_aware_penalty (c : nat) (disp image : tensor4) (b y x y' x' : nat) : Q :=
  Qabs (entry disp b y x 0 - entry disp b y' x' 0)
  * exp ops (- image_gradient c image b y x y' x').

(** The mean penalty over the horizontal neighbours [(y, x)], [(y, x + 1)]
    of a level of [n] examples of [h] x [w] pixels. *)
Definition horizontal_smoothness (n h w c : nat) (disp image : tensor4) : Q :=
  sum_below n (fun b => sum_below h (fun y => sum_below (w - 1) (fun x =>
    edge_aware_penalty c disp image b y x y (S x))))
  / inject_Z (Z.of_nat (n * h * (w - 1))).

(** The mean penalty over the vertical neighbours [(y, x)], [(y + 1, x)]. *)
Definition vertical_smoothness (n h w c : nat) (disp image : tensor4) : Q :=
  sum_below n (fun b => sum_below (h - 1) (fun y => sum_below w (fun x =>
    edge_aware_penalty c disp image b y x (S y) x)))
  / inject_Z (Z.of_nat (n * (h - 1) * w)).

(** One level: the two directions, computed separately and summed with
    the code's factor one half each. *)
Definition level_smoothness (n h w c : nat) (disp image : tensor4) : Q :=
  (1 # 2) * horizontal_smoothness n h w c disp image
  + (1 # 2) * vertical_smoothness n h w c disp image.

(** The resolution ratio of a level: original width over level width. *)
Definition resolution_ratio (orig_width level_width : nat) : Q :=
  inject_Z (Z.of_nat orig_width) / inject_Z (Z.of_nat level_width).

(** The sum over the levels, of heights and widths [sizes], of the level
    values divided by their ratios; the original width is the width of the
    first level. *)
Definition multi_scale_smoothness (n c : nat) (sizes : list (nat * nat))
  (disp_ms target_ms : list tensor4) : Q :=
  sum_below (length sizes) (fun l =>
    level_smoothness n (nth l sizes (0, 0)%nat).1 (nth l sizes (0, 0)%nat).2 c
                     (nth l disp_ms []) (nth l target_ms [])
    / resolution_ratio (nth 0 sizes (0, 0)%nat).2 (nth l sizes (0, 0)%nat).2).

(** The penalty before its magnitude is taken, for two neighbouring
    disparity pixels [dp], [dq] and the image pixels [ip], [iq] below them. *)
Definition pixel_term (c : nat) (dp dq ip iq : tensor1) : Q :=
  (nth 0 dp 0 - nth 0 dq 0)
  * exp ops (- (sum_below c (fun k => Qabs (nth k ip 0 - nth k iq 0))
                / inject_Z (Z.of_nat c))).

End SmoothenessSpec.

(** *** A small configuration to run the assembly on *)

(** Stand-ins for the helper functions: the target is the stacked image
    itself, every scale repeats it, and the synthesized view of each scale
    is the source image seen from one source frame. *)
Definition toy_ops : TFOps :=
  mkOps (fun stacked => (stacked, stacked))
        (fun target depth_ms => map (fun _ => target) depth_ms)
        (fun target flow_ms => map (fun _ => target) flow_ms)
        (fun source _ depth_ms _ => map (fun _ => map (fun im : tensor3 => [im]) source) depth_ms)
        (fun source flow_ms => map (fun _ => map (fun im : tensor3 => [im]) source) flow_ms)
        (fun _ orig => map (fun _ => 0) orig)
        (fun t => t)
        (fun t => map (fun _ : tensor3 => [[0; 0; 0; 0; 0; 0]]) t)
        (fun x => 1 / (1 + x * x)).

(** One example of one row of two pixels, an intrinsic matrix, one scale of
    depth and one pose; no disparity. *)
Definition toy_features : gmap string pyval :=
  <["image"%string := PTensor4 [ [ [ [1; 1; 1]; [3; 3; 3] ] ] ]]>
    (<["intrinsic"%string := PTensor3 [ [[1; 0; 0]; [0; 1; 0]; [0; 0; 1]] ]]> ∅).

Definition toy_predictions : gmap string pyval :=
  <["depth_ms"%string := PList4 [ [ [ [ [2]; [2] ] ] ] ]]>
    (<["pose"%string := PTensor3 [ [ [0; 0; 0; 0; 0; 0] ] ]]> ∅).

(** The same predictions with a disparity pyramid of one scale. *)
Definition toy_predictions_disp : gmap string pyval :=
  <["disp_ms"%string := PList4 [ [ [ [ [1 # 2]; [1 # 4] ] ] ] ]]> toy_predictions.

(** What [augment_data] makes of them. *)
Definition toy_augm_data : gmap string pyval :=
  <["source"%string := PTensor4 [ [ [ [1; 1; 1]; [3; 3; 3] ] ] ]]>
    (<["target"%string := PTensor4 [ [ [ [1; 1; 1]; [3; 3; 3] ] ] ]]>
       (<["target_ms"%string := PList4 [ [ [ [ [1; 1; 1]; [3; 3; 3] ] ] ] ]]>
          (<["synth_target_ms"%string := PList5 [ [ [ [ [ [1; 1; 1]; [3; 3; 3] ] ] ] ] ]]> ∅))).

(** A pyramid of two levels, 2x4 and 2x2 pixels, of one example. *)
Definition pyramid_disp : list tensor4 :=
  [ [ [ [[1 # 2]; [1 # 4]; [1 # 4]; [1 # 8]]; [[1 # 2]; [1 # 2]; [1 # 4]; [1 # 4]] ] ];
    [ [ [[1 # 2]; [1 # 4]]; [[1 # 4]; [1 # 4]] ] ] ].

Definition pyramid_target : list tensor4 :=
  [ [ [ [[1; 1; 1]; [3; 3; 3]; [3; 3; 3]; [0; 0; 0]];
        [[1; 2; 1]; [3; 3; 3]; [3; 2; 3]; [0; 0; 0]] ] ];
    [ [ [[2; 2; 2]; [1; 1; 1]]; [[2; 2; 2]; [2; 1; 2]] ] ] ].

Definition pyramid_predictions : gmap string pyval :=
  <["disp_ms"%string := PList4 pyramid_disp]> ∅.

Definition pyramid_augm_data : gmap string pyval :=
  <["target_ms"%string := PList4 pyramid_target]> ∅.



(** A photometric term followed by a regularizer. *)
Definition photo_then_l2 : TotalLoss :=
  mkTotalLoss [PhotometricLossMultiScale L1 ""; L2Regularizer (Some [[1; 2]])] [3; 1 # 2] false.

End losses.

(** ** tfrecords/tfrecord_writer.py: the pose reader *)

Module tfrecord_readers.
Import Py.
Local Open Scope py_scope.

(** [np.delete(arr, i, 0)]: the rows without the row of index [i]; an index
    past the last row is an [IndexError]. *)
Definition np_delete {A : Type} (i : nat) (arr : list A) : res (list A) :=
  if (i <? length arr)%nat then OK (delete i arr) else Raise IndexError.

(** [np.stack(arrays, axis=0)]: an empty list of arrays is a [ValueError]. *)
Definition np_stack {A : Type} (arrays : list A) : res (list A) :=
  match arrays with
  | [] => Raise (ValueError "need at least one array to stack")
  | _ => OK arrays
  end.

(** [pose_reader]: [poses] is the array [np.loadtxt] returned, as the list
    of its rows, one pose per row (a file of a single line gives an array
    of one dimension, which is not a list of rows); [pose_quat2matr] is
    [cp.pose_quat2matr] of utils/convert_pose.py. The pose of the target
    frame, in the middle of the snippet, is removed. *)
Definition pose_reader {P T : Type} (pose_quat2matr : P -> T) (poses : list P) : res (list T) :=
  let half_len := config.SNIPPET_LEN / 2 in
  let* poses := np_delete half_len poses in
  let pose_mats := map pose_quat2matr poses in
  np_stack pose_mats.

End tfrecord_readers.

(** ** model/build_model/model_wrappers.py: saving and the regularized weights *)

Module model_wrappers_save.
Import Py model_wrappers.

Section Save.
Context {weights snapshot : Type}.
(** [tf.keras.Model.save_weights(path)]: the contents of the file written
    at [path]. Failures of the write itself (a directory that does not
    exist) are not part of this model. *)
Variable keras_save_weights : weights -> snapshot.


End Save.

(** [self.models[key]] and [key in self.models] on the insertion-ordered
    dictionary of networks. *)
Fixpoint models_get {W : Type} (models : list (string * W)) (key : string) : option W :=
  match models with
  | [] => None
  | (k, m) :: rest => if String.eqb k key then Some m else models_get rest key
  end.

(** [ModelWrapper.weights_to_regularize]: the trainable weights of the flow
    network, or [None] without one. A network is given by its trainable
    weights. *)
Definition weights_to_regularize {W : Type} (models : list (string * W)) : option W :=
  match models_get models "flownet" with
  | Some flownet => Some flownet
  | None => None
  end.

(** [ModelWrapper.trainable_weights]: the weights of all networks, in the
    order of [self.models]. *)
Definition trainable_weights {W : Type} (models : list (string * list W)) : list W :=
  fold_left (fun train_weights m => train_weights ++ m.2) models [].

End model_wrappers_save.

(** ** model/synthesize/synthesize_base.py: the pixel grid and the rigid transform *)

Module synthesize_grid.
Import Py tf synthesize_base.
Local Open Scope Q_scope.

(** [np.linspace(start, stop, num)]: [num] evenly spaced values from [start]
    to [stop], both included. *)
Definition linspace (start stop : Q) (num : nat) : tensor1 :=
  match num with
  | 0%nat => []
  | 1%nat => [start]
  | _ => map (fun i : nat =>
                start + inject_Z (Z.of_nat i) * ((stop - start) / inject_Z (Z.of_nat (num - 1))))
             (seq 0 num)
  end.

(** [tf.meshgrid(u, v)]: [ugrid[i][j] = u[j]] and [vgrid[i][j] = v[i]]. *)
Definition meshgrid (u v : tensor1) : tensor2 * tensor2 :=
  (map (fun _ => u) v, map (fun vi => map (fun _ => vi) u) v).

(** [pixel_meshgrid(height, width, stride)]: the rows of [u], of [v] and of
    ones. [height - stride] is an integer subtraction, the quotient
    [height // stride] needs a non-zero stride, and the row of
    [height * width] ones can only be put under a grid of as many columns. *)
Definition pixel_meshgrid (height width stride : nat) : res tensor2 :=
  if (stride =? 0)%nat then Raise ZeroDivisionError
  else
    let v := linspace 0 (inject_Z (Z.of_nat height - Z.of_nat stride)) (height / stride) in
    let u := linspace 0 (inject_Z (Z.of_nat width - Z.of_nat stride)) (width / stride) in
    let (ugrid, vgrid) := meshgrid u v in
    let uv := [concat ugrid; concat vgrid] in
    if (length (concat ugrid) =? height * width)%nat
    then OK (uv ++ [repeat 1 (height * width)%nat])
    else Raise InvalidArgumentError.

(** [transform_to_source]: the target points are repeated for every source
    frame and multiplied with the pose of that frame. *)
Definition transform_to_source (self : SynthesizeBatchBasic) (tgt_coords : tensor3)
  (t2s_pose : tensor4) : res tensor4 :=
  let tgt_coords_expand := map (fun c : tensor2 => repeat c (num_src self)) tgt_coords in
  batch_matmul t2s_pose tgt_coords_expand.

(** The 4x4 identity matrix. *)
Definition identity4 : tensor2 := [[1; 0; 0; 0]; [0; 1; 0; 0]; [0; 0; 1; 0]; [0; 0; 0; 1]].

(** A matrix of four rows of [n] entries: homogeneous points. *)
Definition is_4xn (n : nat) (m : tensor2) : Prop :=
  length m = 4%nat /\ Forall (fun r : tensor1 => length r = n) m.

(** An intrinsic matrix: three rows of three entries, the last one
    [0 0 1]. *)
Definition is_intrinsic (K : tensor2) : Prop :=
  exists r0 r1, K = [r0; r1; [0; 0; 1]] /\ length r0 = 3%nat /\ length r1 = 3%nat.

(** Homogeneous points in front of the camera plane or on it: four rows of
    [n] entries, the third row (the depths) without a negative entry. *)
Definition in_front (n : nat) (m : tensor2) : Prop :=
  is_4xn n m /\ Forall (fun z => 0 <= z) (nth 2 m []).

(** Entrywise equality of rational tensors. *)
Definition eq2 (a b : tensor2) : Prop := Forall2 (Forall2 Qeq) a b.
Definition eq4 (a b : tensor4) : Prop := Forall2 (Forall2 eq2) a b.

End synthesize_grid.

(** ** model/loss_and_metric/losses.py: the augmented dictionary *)

Module losses_keys.
Import Py tf loss_util losses.
Local Open Scope Q_scope.

(** The dictionary [augment_data] builds without flow predictions. *)
Definition base_augm (suffix : string) (source target : tensor4) (target_ms : list tensor4)
  (synth_target_ms : list tensor5) : gmap string pyval :=
  <["synth_target_ms" +:+ suffix := PList5 synth_target_ms]>
    (<["target_ms" +:+ suffix := PList4 target_ms]>
       (<["target" +:+ suffix := PTensor4 target]>
          (<["source" +:+ suffix := PTensor4 source]> ∅))).

(** A tensor with at least one entry: its mean is a number, not [nan]. *)
Definition has_entries4 (t : tensor4) : Prop := flatten4 t <> [].

(** Tensors whose entries are all zero. *)
Definition zeros1 (t : tensor1) : Prop := Forall (fun x => x == 0) t.
Definition zeros2 (t : tensor2) : Prop := Forall zeros1 t.
Definition zeros3 (t : tensor3) : Prop := Forall zeros2 t.
Definition zeros4 (t : tensor4) : Prop := Forall zeros3 t.

End losses_keys.

(** ** prepare_data/readers/city_reader.py *)

Module city_reader.
Import Py.
Local Open Scope py_scope.

(** *** Python strings and paths *)

(** [s.split(sep)] for a separator of one character. *)
Fixpoint str_split (sep : ascii) (s : string) : list string :=
  match s with
  | EmptyString => [""]
  | String c r =>
      if Ascii.eqb c sep then "" :: str_split sep r
      else match str_split sep r with
           | h :: t => String c h :: t
           | [] => [String c ""]
           end
  end.

(** [sep.join(parts)] *)
Fixpoint str_join (sep : string) (parts : list string) : string :=
  match parts with
  | [] => ""
  | [p] => p
  | p :: rest => p +:+ sep +:+ str_join sep rest
  end.

(** [l[-k]] for [k >= 1]: the [k]-th element from the end. *)
Definition getitem_neg {A : Type} (l : list A) (k : nat) : res A :=
  if (k <=? length l)%nat then
    match l !! (length l - k)%nat with
    | Some x => OK x
    | None => Raise IndexError
    end
  else Raise IndexError.

(** [l[i]] for [i >= 0]. *)
Definition getitem {A : Type} (l : list A) (i : nat) : res A :=
  match l !! i with
  | Some x => OK x
  | None => Raise IndexError
  end.

(** The character [c] occurs in [s]. *)
Fixpoint has_char (c : ascii) (s : string) : bool :=
  match s with
  | EmptyString => false
  | String x r => Ascii.eqb x c || has_char c r
  end.

(** [s == "/" * len(s)] and [s.rstrip("/")] *)
Fixpoint all_sep (s : string) : bool :=
  match s with
  | EmptyString => true
  | String c r => Ascii.eqb c "/" && all_sep r
  end.

Fixpoint rstrip_sep (s : string) : string :=
  match s with
  | EmptyString => ""
  | String c r =>
      match rstrip_sep r with
      | EmptyString => if Ascii.eqb c "/" then "" else String c ""
      | r' => String c r'
      end
  end.

(** [os.path.basename(p)]: what follows the last slash. *)
Definition op_basename (p : string) : string := List.last (str_split "/" p) "".

(** [os.path.dirname(p)]: [p] up to its last slash, without trailing
    slashes unless it consists of slashes only. *)
Definition op_dirname (p : string) : string :=
  let head :=
    match removelast (str_split "/" p) with
    | [] => ""
    | front => str_join "/" front +:+ "/"
    end in
  if negb (String.eqb head "") && negb (all_sep head) then rstrip_sep head else head.

(** [os.path.join(a, b, c)] *)
Definition op_join3 (a b c : string) : string := op_join (op_join a b) c.

(** *** CityScapesReader *)

(** The attributes the path methods read. *)
Record CityScapesReader : Type := mkReader {
  base_path : string;
  split : string;
  dir_suffix : string;
  frame_names : list string
}.

Definition left_img_dir : string := "leftImg8bit".

(** [_make_file_path(data_dir, frame_name, extension, add_suffix)] *)
Definition _make_file_path (self : CityScapesReader) (data_dir frame_name extension : string)
  (add_suffix : bool) : string :=
  let dir_name := if add_suffix then data_dir +:+ dir_suffix self else data_dir in
  op_join3 (base_path self) dir_name (frame_name +:+ "_" +:+ data_dir +:+ "." +:+ extension).

(** The name [_list_frames] gives to one file the glob returned:
    [op.join(split_city, "_".join(op.basename(file).split("_")[:-1]))]. *)
Definition frame_name_of (drive_path file : string) : string :=
  op_join (op_dirname drive_path)
          (str_join "_" (removelast (str_split "_" (op_basename file)))).

(** [list.sort()] on strings: insertion into a sorted list. *)
Fixpoint insert_sorted (s : string) (l : list string) : list string :=
  match l with
  | [] => [s]
  | x :: r => if String.leb s x then s :: l else x :: insert_sorted s r
  end.

Definition sort_strings (l : list string) : list string := fold_right insert_sorted [] l.

(** A list in the order of [sort()]: every element is at most the ones
    after it. *)
Inductive sorted : list string -> Prop :=
| sorted_nil : sorted []
| sorted_cons x l : Forall (fun y => String.leb x y = true) l -> sorted l -> sorted (x :: l).

(** [mapM] for the exceptions. *)
Fixpoint map_res {A B : Type} (f : A -> res B) (l : list A) : res (list B) :=
  match l with
  | [] => OK []
  | x :: r =>
      let* y := f x in
      let* ys := map_res f r in
      OK (y :: ys)
  end.

Section FileSystem.
(** [glob.glob(pattern)], [os.listdir], [os.path.isdir] and [int] on
    strings. [glob] and [isdir] answer for what they cannot read with an
    empty list and with [False]; [os.listdir] raises. *)
Variable glob : string -> list string.
Variable listdir : string -> res (list string).
Variable isdir : string -> bool.
Variable py_int : string -> res Z.

(** [_list_frames(drive_path)] *)
Definition _list_frames (self : CityScapesReader) (drive_path : string)
  : res (list string * list Z * nat) :=
  let frame_pattern := _make_file_path self left_img_dir (drive_path +:+ "_*") "png" true in
  let frame_files := glob frame_pattern in
  let frame_files := map (frame_name_of drive_path) frame_files in
  let frame_files := sort_strings frame_files in
  let* frame_indices :=
    map_res (fun file => let* last := getitem_neg (str_split "_" file) 1 in py_int last)
            frame_files in
  OK (frame_files, frame_indices, length frame_files).

(** [get_filename(example_index)] *)
Definition get_filename (self : CityScapesReader) (example_index : nat) : res string :=
  let* frame_name := getitem (frame_names self) example_index in
  let filename := op_basename frame_name in
  getitem_neg (str_split "_" filename) 1.

(** [list(set(l))] followed by [sort()]: the distinct elements in order. *)
Definition sorted_set (l : list string) : list string := sort_strings (remove_dups l).

(** The body of the loop of [list_drive_paths] for one city. *)
Definition city_sequences (self : CityScapesReader) (split_path city : string)
  : res (list string) :=
  let pattern := op_join3 split_path city "*.png" in
  let files := glob pattern in
  let* seq_numbers := map_res (fun file => getitem_neg (str_split "_" file) 3) files in
  let seq_numbers := sorted_set seq_numbers in
  OK (map (fun seq => op_join3 (split self) city (city +:+ "_" +:+ seq)) seq_numbers).

Fixpoint cities_loop (self : CityScapesReader) (split_path : string) (cities : list string)
  (total_sequences : list string) : res (list string) :=
  match cities with
  | [] => OK total_sequences
  | city :: rest =>
      let* seq_paths := city_sequences self split_path city in
      cities_loop self split_path rest (total_sequences ++ seq_paths)
  end.

(** [list_drive_paths()] *)
Definition list_drive_paths (self : CityScapesReader) : res (list string) :=
  let split_path := op_join3 (base_path self) (left_img_dir +:+ dir_suffix self) (split self) in
  if negb (isdir split_path)
  then Raise (WrongInputException ("[list_sequence_paths] path does NOT exist:" +:+ split_path))
  else
    let* city_names := listdir split_path in
    let city_names := List.filter (fun city => isdir (op_join split_path city)) city_names in
    cities_loop self split_path city_names [].

End FileSystem.

(** [make_saving_paths(dstpath, drive_path)]: the reader has depth maps
    ([depth_avail]) and no poses ([pose_avail]). *)
Definition make_saving_paths (dstpath drive_path : string)
  : string * option string * option string :=
  let image_path := op_join dstpath (op_basename drive_path) in
  (image_path, None, Some (op_join image_path "depth")).

End city_reader.

(** ** Small inputs for the readers, the pixel grid, the loss terms and the dataset reader *)

Module tfrecord_examples.
Import Py tfrecord_writer.

(** A snippet of five frames of one row each, and its five poses. *)
Definition five_frames : list (list nat) := [[0]; [1]; [2]; [3]; [4]].
Definition five_poses : list nat := [10; 11; 12; 13; 14].

(** Two feeders over 25 files each. *)
Definition feeders_25 : list (string * NpyFeeder nat) :=
  [("image"%string, mkFeeder (seq 0 25) 0); ("pose_gt"%string, mkFeeder (seq 100 25) 0)].

End tfrecord_examples.

Module model_wrappers_examples.

(** Three networks, given by their trainable weights. *)
Definition nets_with_flownet : list (string * list nat) :=
  [("depthnet"%string, [1; 2]); ("flownet"%string, [3; 4]); ("posenet"%string, [5])].

End model_wrappers_examples.

Module synthesize_examples.
Import tf.
Local Open Scope Q_scope.

(** One example of two homogeneous points. *)
Definition two_points : tensor3 := [ [[3; 4]; [5; 6]; [1; 2]; [1; 1]] ].

End synthesize_examples.

Module losses_examples.
Import Py tf loss_util losses.
Local Open Scope Q_scope.

(** Two synthesized views that are copies of the target, and an all-black
    synthesized view. *)
Definition synt_copies : tensor5 := map (fun orig_b : tensor3 => [orig_b; orig_b]) orig_gray.
Definition synt_black : tensor5 := [ [ [ [ [0; 0; 0]; [0; 0; 0] ] ] ] ].

(** Two loss terms and one weight. *)
Definition photo_l2_one_weight : TotalLoss :=
  mkTotalLoss [PhotometricLossMultiScale L1 ""; L2Regularizer (Some [[1; 2]])] [3] false.

(** A model without a flow network, and the loss configured from it. *)
Definition nets_without_flownet : list (string * list tensor1) :=
  [("depthnet"%string, [[1; 2]]); ("posenet"%string, [[3]])].

Definition photo_then_l2_none : TotalLoss :=
  mkTotalLoss [PhotometricLossMultiScale L1 "";
               L2Regularizer (model_wrappers_save.weights_to_regularize nets_without_flownet)]
              [3; 1 # 2] false.

(** A constant disparity map and an image of 2x2 pixels. *)
Definition flat_disp : tensor4 := [ [ [[1 # 2]; [1 # 2]]; [[1 # 2]; [1 # 2]] ] ].
Definition some_image : tensor4 := [ [ [[1; 2; 3]; [4; 5; 6]]; [[0; 0; 0]; [7; 7; 7]] ] ].

End losses_examples.

Module city_examples.
Import Py city_reader.

(** A reader over [/data/city] for the [train] split of the
    [leftImg8bit_sequence] directory, after [init_drive]. *)
Definition bochum_reader : CityScapesReader :=
  mkReader "/data/city" "train" "_sequence"
           ["train/bochum/bochum_000000_000012"; "train/bochum/bochum_000000_000313"].

(** A directory with two frames of the drive [train/bochum/bochum_000000]
    and one frame of a second sequence. *)
Definition bochum_glob (pattern : string) : list string :=
  if String.eqb pattern
       "/data/city/leftImg8bit_sequence/train/bochum/bochum_000000_*_leftImg8bit.png"
  then ["/data/city/leftImg8bit_sequence/train/bochum/bochum_000000_000313_leftImg8bit.png";
        "/data/city/leftImg8bit_sequence/train/bochum/bochum_000000_000012_leftImg8bit.png"]
  else if String.eqb pattern "/data/city/leftImg8bit_sequence/train/bochum/*.png"
  then ["/data/city/leftImg8bit_sequence/train/bochum/bochum_000001_000007_leftImg8bit.png";
        "/data/city/leftImg8bit_sequence/train/bochum/bochum_000000_000313_leftImg8bit.png";
        "/data/city/leftImg8bit_sequence/train/bochum/bochum_000000_000012_leftImg8bit.png"]
  else [].

(** [int] on a string of decimal digits. *)
Fixpoint digits_value (acc : Z) (s : string) : res Z :=
  match s with
  | EmptyString => OK acc
  | String c r =>
      let n := nat_of_ascii c in
      if (48 <=? n)%nat && (n <=? 57)%nat
      then digits_value (10 * acc + Z.of_nat (n - 48)) r
      else Raise (ValueError "invalid literal for int() with base 10")
  end.

Definition int_of_digits (s : string) : res Z :=
  match s with
  | EmptyString => Raise (ValueError "invalid literal for int() with base 10")
  | _ => digits_value 0 s
  end.

End city_examples.

(* ===================================================================== *)
(** * Part II: theorems                                                   *)
(* ===================================================================== *)

(** ** Shapes and sums *)

Module shape_facts.
Import Py tf.
Local Open Scope Q_scope.

Lemma length_concat_uniform {A : Type} (k : nat) (l : list (list A)) :
  Forall (fun x => length x = k) l -> length (concat l) = (length l * k)%nat.
Proof.
  induction 1 as [|x l Hx _ IH]; [reflexivity|].
  cbn [concat length]. rewrite length_app, IH, Hx. lia.
Qed.

Ltac untensor := unfold tensor5, tensor4, tensor3, tensor2, tensor1 in *.

Lemma length_flatten2 (w c : nat) (t : tensor2) :
  shape2 w c t -> length (flatten2 t) = (w * c)%nat.
Proof.
  intros [Hw Hc]. unfold flatten2. untensor.
  rewrite (length_concat_uniform c); [now rewrite Hw|exact Hc].
Qed.

Lemma length_flatten3 (h w c : nat) (t : tensor3) :
  shape3 h w c t -> length (flatten3 t) = (h * w * c)%nat.
Proof.
  intros [Hh Hrows]. unfold flatten3. untensor.
  rewrite (length_concat_uniform (w * c)).
  - rewrite length_map, Hh. lia.
  - apply Forall_fmap. eapply Forall_impl; [exact Hrows|].
    intros row Hrow. now apply length_flatten2.
Qed.

Lemma length_flatten4 (n h w c : nat) (t : tensor4) :
  shape4 n h w c t -> length (flatten4 t) = (n * h * w * c)%nat.
Proof.
  intros [Hn Him]. unfold flatten4. untensor.
  rewrite (length_concat_uniform (h * w * c)).
  - rewrite length_map, Hn. lia.
  - apply Forall_fmap. eapply Forall_impl; [exact Him|].
    intros im Him'. now apply length_flatten3.
Qed.

Lemma zip_with_nth {A B C : Type} (f : A -> B -> C) (da : A) (db : B) (n : nat)
  (l : list A) (k : list B) :
  length l = n -> length k = n ->
  zip_with f l k = map (fun i => f (nth i l da) (nth i k db)) (seq 0 n).
Proof.
  revert l k. induction n as [|n IH]; intros [|x l] [|y k] Hl Hk; try discriminate;
    [reflexivity|].
  cbn [zip_with seq map nth]. f_equal.
  rewrite <- seq_shift, map_map. apply IH; [now injection Hl|now injection Hk].
Qed.

Lemma nth_shape {A : Type} (P : list A -> Prop) (l : list (list A)) (i : nat) :
  Forall P l -> (i < length l)%nat -> P (nth i l []).
Proof.
  intros Hall Hi. rewrite List.Forall_forall in Hall. apply Hall, nth_In, Hi.
Qed.

Lemma Qsum_map_ext {A : Type} (f g : A -> Q) (l : list A) :
  (forall x, In x l -> f x == g x) ->
  fold_right Qplus 0 (map f l) == fold_right Qplus 0 (map g l).
Proof.
  induction l as [|x l IH]; intros H; [reflexivity|].
  cbn [map fold_right]. rewrite (H x (or_introl eq_refl)), IH; [reflexivity|].
  intros y Hy. apply H. now right.
Qed.

Lemma Qsum_app (a b : list Q) :
  fold_right Qplus 0 (a ++ b) == fold_right Qplus 0 a + fold_right Qplus 0 b.
Proof. induction a as [|x a IH]; cbn [app fold_right]; [lra|]. rewrite IH. lra. Qed.

Lemma Qsum_concat_map {A : Type} (G : A -> list Q) (l : list A) :
  fold_right Qplus 0 (concat (map G l))
  == fold_right Qplus 0 (map (fun x => fold_right Qplus 0 (G x)) l).
Proof.
  induction l as [|x l IH]; [reflexivity|].
  cbn [map concat fold_right]. now rewrite Qsum_app, IH.
Qed.

Lemma batch_matmul_same_shape (a b : tensor4) :
  Forall2 (fun x y : tensor3 => length x = length y) a b ->
  batch_matmul a b = OK (zip_with (zip_with matmul) a b).
Proof.
  intros H. unfold batch_matmul, broadcast_axis.
  rewrite (Forall2_length _ _ _ H), Nat.eqb_refl. cbn [Py.bind].
  induction H as [|x y a b Hxy _ IH]; [reflexivity|].
  cbn [zip_with map all_ok fst snd].
  rewrite Hxy, Nat.eqb_refl. cbn [Py.bind]. rewrite IH. cbn [Py.bind].
  do 2 f_equal. clear. revert y.
  induction x as [|p x IHx]; intros [|q y]; try reflexivity.
  cbn [zip_with map fst snd]. now rewrite IHx.
Qed.

End shape_facts.

Module tfrecord_writer_props.
Import Py tfrecord_writer.

Lemma slice_app_middle {A : Type} (xs ys zs : list A) :
  slice (length xs) (length xs + length ys) (xs ++ ys ++ zs) = ys.
Proof.
  unfold slice.
  rewrite drop_app_length.
  replace (length xs + length ys - length xs) with (length ys) by lia.
  apply take_app_length.
Qed.

(** C9. A stacked snippet of five frames of [h] rows each, stored as
    [src0 src1 tgt src2 src3], is returned with the same rows and the same
    number of rows, the four source frames first in their original order and
    the target frame last. *)
Theorem image_reader_sources_then_target {row : Type} (h : nat) (f0 f1 f2 f3 f4 : list row) :
  length f0 = h -> length f1 = h -> length f2 = h -> length f3 = h -> length f4 = h ->
  let image := f0 ++ f1 ++ f2 ++ f3 ++ f4 in
  image_reader image = f0 ++ f1 ++ f3 ++ f4 ++ f2
  /\ length (image_reader image) = length image
  /\ Permutation (image_reader image) image.
Proof.
  intros H0 H1 H2 H3 H4 image.
  assert (Hread : image_reader image = f0 ++ f1 ++ f3 ++ f4 ++ f2).
  { unfold image_reader, image.
    assert (Hlen : length (f0 ++ f1 ++ f2 ++ f3 ++ f4) = h * 5)
      by (rewrite !length_app; lia).
    rewrite Hlen. unfold config.SNIPPET_LEN.
    rewrite Nat.div_mul by lia.
    change (5 / 2) with 2.
    assert (Hup : take (h * 2) (f0 ++ f1 ++ f2 ++ f3 ++ f4) = f0 ++ f1).
    { rewrite (app_assoc f0 f1).
      apply take_app_length'. rewrite length_app. lia. }
    assert (Hmid : slice (h * 2) (h * (2 + 1)) (f0 ++ f1 ++ f2 ++ f3 ++ f4) = f2).
    { rewrite (app_assoc f0 f1).
      replace (h * 2) with (length (f0 ++ f1)) by (rewrite length_app; lia).
      replace (h * (2 + 1)) with (length (f0 ++ f1) + length f2)
        by (rewrite length_app; lia).
      apply slice_app_middle. }
    assert (Hdw : drop (h * (2 + 1)) (f0 ++ f1 ++ f2 ++ f3 ++ f4) = f3 ++ f4).
    { replace (f0 ++ f1 ++ f2 ++ f3 ++ f4) with ((f0 ++ f1 ++ f2) ++ f3 ++ f4)
        by (now rewrite <- !app_assoc).
      apply drop_app_length'. rewrite !length_app. lia. }
    rewrite Hup, Hmid, Hdw.
    now rewrite <- !app_assoc. }
  split; [exact Hread|].
  rewrite Hread. unfold image. split.
  - rewrite !length_app. lia.
  - apply Permutation_app_head, Permutation_app_head.
    rewrite (app_assoc f3 f4 f2).
    apply Permutation_app_comm.
Qed.

Lemma image_reader_sources_then_target_witness :
  image_reader [10; 11; 20; 21; 30; 31; 40; 41; 50; 51]
  = [10; 11; 20; 21; 40; 41; 50; 51; 30; 31]
  /\ length (image_reader [10; 11; 20; 21; 30; 31; 40; 41; 50; 51]) = 10
  /\ Permutation (image_reader [10; 11; 20; 21; 30; 31; 40; 41; 50; 51])
                 [10; 11; 20; 21; 30; 31; 40; 41; 50; 51].
Proof.
  exact (image_reader_sources_then_target 2 [10; 11] [20; 21] [30; 31] [40; 41] [50; 51]
           eq_refl eq_refl eq_refl eq_refl eq_refl).
Defined.

(** *** TfrecordMaker.make *)

Section MakeProps.
Context {D Rec : Type}.
Variable ser : list (string * D) -> Rec.

Abbreviation records_of := (records_of ser).

Lemma fresh_at_cursor (n : nat) (fs : list (string * NpyFeeder D)) :
  fresh_feeders n fs -> at_cursor 0 fs = fs.
Proof.
  induction 1 as [|[k [fl i]] fs [Hi _] _ IH]; [reflexivity|].
  simpl in *. subst i. now rewrite IH.
Qed.

Lemma fresh_lengths (n : nat) (fs : list (string * NpyFeeder D)) :
  fresh_feeders n fs -> Forall (fun kf => length (files kf.2) = n) fs.
Proof.
  intros H. eapply Forall_impl; [exact H|].
  now intros kf [_ Hkf].
Qed.

Lemma feeders_getitem_len (n : nat) (fs : list (string * NpyFeeder D)) key f :
  Forall (fun kf => length (files kf.2) = n) fs ->
  feeders_getitem fs key = OK f -> feeder_len f = n.
Proof.
  induction 1 as [|[k g] fs Hg _ IH]; simpl; [discriminate|].
  destruct (String.eqb k key); [|exact IH].
  intros [= <-]. exact Hg.
Qed.

Lemma create_next_example_dict_at (n c : nat) (fs : list (string * NpyFeeder D)) :
  Forall (fun kf => length (files kf.2) = n) fs -> c < n ->
  exists ex, nth_example fs c = Some ex
             /\ create_next_example_dict (at_cursor c fs) = OK (ex, at_cursor (S c) fs).
Proof.
  intros Hlen Hc.
  induction Hlen as [|[k f] fs Hf _ [ex [Hex IH]]]; simpl.
  - now exists [].
  - simpl in Hf.
    destruct (lookup_lt_is_Some_2 (files f) c) as [d Hd]; [lia|].
    unfold get_next. simpl. rewrite Hd, Hex. simpl. rewrite IH. simpl.
    now exists ((k, d) :: ex).
Qed.

Lemma write_records_at (n : nat) (fs : list (string * NpyFeeder D)) :
  Forall (fun kf => length (files kf.2) = n) fs ->
  forall (fis : list nat) (c : nat) (written : list Rec),
    c + length fis <= n ->
    exists recs,
      write_records ser fis written (at_cursor c fs)
      = OK (written ++ recs, at_cursor (c + length fis) fs)
      /\ records_of fs recs c (length fis).
Proof.
  intros Hlen fis.
  induction fis as [|fi fis IH]; intros c written Hc; simpl in *.
  - exists []. rewrite app_nil_r, Nat.add_0_r. split; [reflexivity|constructor].
  - destruct (create_next_example_dict_at n c fs Hlen) as [ex [Hex Hnext]]; [lia|].
    rewrite Hnext. simpl.
    destruct (IH (S c) (written ++ [ser ex])) as [recs [Hrun Hrecs]]; [lia|].
    exists (ser ex :: recs).
    rewrite Hrun, <- app_assoc. simpl.
    replace (c + S (length fis)) with (S c + length fis) by lia.
    split; [reflexivity|].
    constructor; [now exists ex|exact Hrecs].
Qed.

Lemma length_range (a b : nat) : length (range a b) = b - a.
Proof. unfold range. apply length_seq. Qed.

Lemma records_of_app fs r1 r2 c m1 m2 :
  records_of fs r1 c m1 -> records_of fs r2 (c + m1) m2 ->
  records_of fs (r1 ++ r2) c (m1 + m2).
Proof.
  unfold records_of. intros H1 H2.
  rewrite seq_app. now apply Forall2_app.
Qed.

Lemma write_shards_at (n per : nat) (fs : list (string * NpyFeeder D)) :
  Forall (fun kf => length (files kf.2) = n) fs ->
  forall (sis : list nat) (c : nat) (shards : list (list Rec)),
    c + length sis * per <= n ->
    exists news,
      write_shards ser sis per shards (at_cursor c fs)
      = OK (shards ++ news, at_cursor (c + length sis * per) fs)
      /\ length news = length sis
      /\ Forall (fun s => length s = per) news
      /\ records_of fs (concat news) c (length sis * per).
Proof.
  intros Hlen sis.
  induction sis as [|si sis IH]; intros c shards Hc; simpl in *.
  - exists []. rewrite app_nil_r, Nat.add_0_r.
    repeat split; constructor.
  - assert (Hper : length (range (si * per) ((si + 1) * per)) = per)
      by (rewrite length_range; lia).
    destruct (write_records_at n fs Hlen (range (si * per) ((si + 1) * per)) c [])
      as [recs [Hrun Hrecs]]; [lia|].
    rewrite Hper in Hrun, Hrecs.
    rewrite Hrun. simpl.
    destruct (IH (c + per) (shards ++ [recs])) as [news [Hrest [Hn [Hall Hcat]]]]; [lia|].
    exists (recs :: news).
    rewrite Hrest, <- app_assoc. simpl.
    replace (c + per + length sis * per) with (c + (per + length sis * per)) by lia.
    repeat split.
    + now rewrite Hn.
    + constructor; [|exact Hall].
      apply Forall2_length in Hrecs. now rewrite length_seq in Hrecs.
    + now apply records_of_app.
Qed.

(** C10. For a dataset of [n] examples, [make] opens
    [max(min(n // 2000, 10), 1)] shards of [n // num_shards] records each, so
    it writes [num_shards * (n // num_shards)] records: the examples of index
    [0] up to that number, in order. The [n mod num_shards] examples after
    them are read by no iteration and reach no shard. *)
Theorem make_drops_remainder (n : nat) (fs : list (string * NpyFeeder D)) (f : NpyFeeder D) :
  fresh_feeders n fs ->
  feeders_getitem fs "image" = OK f ->
  let num_shards := Nat.max (Nat.min (n / 2000) 10) 1 in
  let written := num_shards * (n / num_shards) in
  exists shards,
    make ser (OK fs) = OK (shards, at_cursor written fs)
    /\ length shards = num_shards
    /\ Forall (fun s => length s = n / num_shards) shards
    /\ length (concat shards) = written
    /\ records_of fs (concat shards) 0 written
    /\ n = written + n mod num_shards.
Proof.
  intros Hfresh Himg num_shards written.
  pose proof (fresh_lengths n fs Hfresh) as Hlen.
  assert (Hns : num_shards <> 0) by (unfold num_shards; lia).
  assert (Hsplit : n = written + n mod num_shards).
  { unfold written. apply Nat.div_mod_eq. }
  unfold make. rewrite Himg. simpl.
  rewrite (feeders_getitem_len n fs "image" f Hlen Himg).
  fold num_shards.
  destruct (write_shards_at n (n / num_shards) fs Hlen (range 0 num_shards) 0 [])
    as [news [Hrun [Hn [Hall Hcat]]]].
  { rewrite length_range. fold written. lia. }
  rewrite length_range, Nat.sub_0_r in Hrun, Hn, Hcat.
  rewrite (fresh_at_cursor n fs Hfresh) in Hrun.
  exists news. simpl in Hrun. fold written in Hrun, Hcat.
  unfold num_shards_of. fold num_shards.
  repeat split; try assumption.
  apply Forall2_length in Hcat. now rewrite length_seq in Hcat.
Qed.

End MakeProps.

Lemma make_drops_remainder_witness :
  exists shards,
    make (fun ex : list (string * nat) => ex) (OK feeders_4001)
    = OK (shards, at_cursor 4000 feeders_4001)
    /\ length shards = 2
    /\ Forall (fun s => length s = 2000) shards
    /\ length (concat shards) = 4000
    /\ tfrecord_writer.records_of (fun ex => ex) feeders_4001 (concat shards) 0 4000
    /\ 4001 = 4000 + 1.
Proof.
  assert (Hfresh : fresh_feeders 4001 feeders_4001).
  { repeat constructor; simpl; apply length_seq. }
  exact (make_drops_remainder (fun ex => ex) 4001 feeders_4001
           (mkFeeder (seq 0 4001) 0) Hfresh eq_refl).
Defined.

End tfrecord_writer_props.

Module model_wrappers_props.
Import Py model_wrappers.

Section LoadWeights.
Context {weights snapshot : Type}.
Variable keras_load_weights : weights -> snapshot -> res weights.
Variable fs : gmap string snapshot.
Variables ckpt_dir_path suffix : string.




End LoadWeights.

(** With no snapshot file at all, every network keeps its parameters. *)
Lemma load_weights_empty_dir {weights snapshot : Type}
  (keras_load_weights : weights -> snapshot -> res weights)
  (ckpt_dir_path suffix : string) (models : list (string * weights)) (stdout : list string) :
  exists printed,
    load_weights keras_load_weights ∅ ckpt_dir_path suffix models stdout
    = OK (models, stdout ++ printed).
Proof.
  revert stdout. induction models as [|[netname model] rest IH]; intros stdout; simpl.
  - exists []. now rewrite app_nil_r.
  - rewrite lookup_empty.
    destruct (IH (stdout ++ missing_message netname
                                (ckpt_file_of ckpt_dir_path netname suffix)))
      as [printed Hrun].
    rewrite Hrun. simpl. eexists. now rewrite <- app_assoc.
Qed.



Example load_weights_two_nets :
  load_weights (fun (_ snap : nat) => OK snap) depth_only "ckpt/vode1" "ep10" two_nets []
  = OK ([("depthnet"%string, 7); ("posenet"%string, 2)],
        ["===== depthnet weights loaded from ckpt/vode1/depthnet_ep10.h5"%string;
         "===== Failed to load weights of posenet, train from scratch ..."%string;
         "      tried to load file: ckpt/vode1/posenet_ep10.h5"%string]).
Proof. vm_compute. reflexivity. Qed.

End model_wrappers_props.

Module synthesize_base_props.
Import Py tf synthesize_base.
Local Open Scope Q_scope.

(** *** read_shape and scale_intrinsic *)

(** [read_shape] leaves the batch size of the depth map in [self.batch]. *)
Lemma read_shape_batch (self self' : SynthesizeBatchBasic) (src_shape : list nat)
  (b h w c : nat) :
  read_shape self src_shape [b; h; w; c] = OK self' -> batch self' = b.
Proof.
  unfold read_shape.
  destruct src_shape as [|? [|? [|? [|? [|]]]]]; try discriminate.
  destruct (w =? 0)%nat; [discriminate|].
  destruct ((_ =? 0) || (h =? 0))%nat; [discriminate|].
  now intros [= <-].
Qed.

Lemma is_3x3_inv (m : tensor2) :
  is_3x3 m = true ->
  exists fx sk cx a fy cy g h i, m = [[fx; sk; cx]; [a; fy; cy]; [g; h; i]].
Proof.
  unfold is_3x3. intros H.
  apply andb_prop in H as [Hrows Hcols].
  destruct m as [|r0 [|r1 [|r2 [|]]]]; try discriminate.
  simpl in Hcols.
  repeat (apply andb_prop in Hcols as [? Hcols]).
  destruct r0 as [|? [|? [|? [|]]]]; try discriminate.
  destruct r1 as [|? [|? [|? [|]]]]; try discriminate.
  destruct r2 as [|? [|? [|? [|]]]]; try discriminate.
  repeat eexists.
Qed.

Lemma scaled_matrix_3x3 (s : Q) (m : tensor2) :
  is_3x3 m = true -> scaled_by s m (scaled_matrix s m).
Proof.
  intros H. destruct (is_3x3_inv m H) as (fx & sk & cx & a & fy & cy & g & h & i & ->).
  unfold scaled_by. repeat eexists.
Qed.

Lemma slice_rows_3x3 (K : tensor3) :
  Forall (fun m => is_3x3 m = true) K -> slice_rows 2 K = OK (map (take 2) K).
Proof.
  intros HK. unfold slice_rows.
  replace (forallb (fun m : tensor2 => (2 <=? length m)%nat) K) with true; [reflexivity|].
  symmetry. apply forallb_forall. intros m Hm.
  rewrite Forall_forall in HK.
  destruct (is_3x3_inv m (HK m (proj2 (list_elem_of_In _ _) Hm)))
    as (fx & sk & cx & a & fy & cy & g & h & i & ->).
  reflexivity.
Qed.

Lemma row_lengths_scaled (s : Q) (K : tensor3) :
  Forall (fun m => is_3x3 m = true) K ->
  Forall (fun n => n = 3%nat)
         (row_lengths (map (map (map (fun x => x / s))) (map (take 2) K))).
Proof.
  induction 1 as [|m K Hm _ IH]; [constructor|].
  destruct (is_3x3_inv m Hm) as (fx & sk & cx & a & fy & cy & g & h & i & ->).
  unfold row_lengths in *. simpl. repeat constructor. exact IH.
Qed.

Lemma row_lengths_const (n : nat) :
  Forall (fun n => n = 3%nat) (row_lengths (repeat [[0; 0; 1]] n)).
Proof.
  induction n as [|n IH]; [constructor|].
  unfold row_lengths in *. simpl. constructor; [reflexivity|exact IH].
Qed.

Lemma zip_with_app_const (s : Q) (K : tensor3) :
  zip_with app (map (map (map (fun x => x / s))) (map (take 2) K))
               (repeat [[0; 0; 1]] (length K))
  = map (scaled_matrix s) K.
Proof.
  induction K as [|m K IH]; [reflexivity|].
  simpl. now rewrite IH.
Qed.

(** C4. Once the object's batch size is that of the intrinsics (as
    [read_shape] leaves it), [scale_intrinsic(K, s)] returns, for every
    batch element, the first two rows of the 3x3 matrix with each entry
    (focal lengths, skew and principal point) divided by [s], over the row
    [0 0 1]. *)
Theorem scale_intrinsic_rows (self : SynthesizeBatchBasic) (K : tensor3) (s : Q) :
  batch self = length K ->
  Forall (fun m => is_3x3 m = true) K ->
  exists K', scale_intrinsic self K s = OK K' /\ Forall2 (scaled_by s) K K'.
Proof.
  intros Hbatch HK.
  exists (map (scaled_matrix s) K). split.
  - unfold scale_intrinsic. rewrite (slice_rows_3x3 K HK). simpl.
    unfold concat_axis1. rewrite Hbatch.
    rewrite !length_map, repeat_length, Nat.eqb_refl. simpl.
    replace (forallb _ _) with true; [now rewrite zip_with_app_const|].
    symmetry. apply forallb_forall. intros n Hn.
    assert (Hn3 : n = 3%nat).
    { apply in_app_or in Hn as [Hn|Hn].
      - pose proof (row_lengths_scaled s K HK) as Hall.
        rewrite Forall_forall in Hall. apply Hall. now apply list_elem_of_In.
      - pose proof (row_lengths_const (length K)) as Hall.
        rewrite Forall_forall in Hall. apply Hall. now apply list_elem_of_In. }
    subst n.
    destruct K as [|m K']; [destruct Hn|].
    reflexivity.
  - clear Hbatch. induction HK as [|m K Hm _ IH]; simpl; constructor.
    + now apply scaled_matrix_3x3.
    + exact IH.
Qed.

Lemma scale_intrinsic_rows_witness :
  exists K',
    scale_intrinsic (mkSynth 2 64 192 4 2) two_intrinsics 2 = OK K'
    /\ Forall2 (scaled_by 2) two_intrinsics K'.
Proof.
  apply (scale_intrinsic_rows (mkSynth 2 64 192 4 2) two_intrinsics 2).
  - reflexivity.
  - repeat constructor.
Defined.

Example scale_intrinsic_two :
  scale_intrinsic (mkSynth 2 64 192 4 2) two_intrinsics 2
  = OK [ [[720 / 2; 0 / 2; 620 / 2]; [0 / 2; 720 / 2; 188 / 2]; [0; 0; 1]];
         [[360 / 2; 0 / 2; 310 / 2]; [0 / 2; 360 / 2; 94 / 2]; [0; 0; 1]] ].
Proof. reflexivity. Qed.

(** Without [read_shape] the batch size is still 0 and the concatenation is
    refused. *)
Example scale_intrinsic_before_read_shape :
  scale_intrinsic init two_intrinsics 2 = Raise InvalidArgumentError.
Proof. reflexivity. Qed.

(** *** cam2pixel *)

Lemma divide_nonzero (x y : Q) : ~ y == 0 -> divide x y = in_range (x / y).
Proof.
  intros Hy. unfold divide.
  destruct (Qeq_bool y 0) eqn:E; [|reflexivity].
  apply Qeq_bool_iff in E. contradiction.
Qed.

Lemma zip_with_divide (zs row : tensor1) :
  Forall (fun z => ~ z == - depth_eps) zs ->
  zip_with divide row (map (fun z => z + depth_eps) zs)
  = map in_range (zip_with (fun x z => x / (z + depth_eps)) row zs).
Proof.
  intros Hzs. revert row.
  induction Hzs as [|z zs Hz _ IH]; intros [|x row]; simpl; try reflexivity.
  rewrite IH, divide_nonzero; [reflexivity|].
  intros H0. apply Hz. lra.
Qed.

Lemma normalize_scale_quotients (m : tensor2) :
  Forall (fun z => ~ z == - depth_eps) (hd [] (slice 2 3 m)) ->
  normalize_scale m = map (map in_range) (normalized m).
Proof.
  intros Hzs. unfold normalize_scale, normalized.
  rewrite map_map. apply map_ext. intros row.
  now apply zip_with_divide.
Qed.

Lemma in_range_no_zero_division (q : Q) : is_zero_division (in_range q) = false.
Proof. unfold in_range. now destruct (Qle_bool float32_limit (Qabs q)). Qed.

Lemma no_zero_division_in_range (t : tensor4) :
  no_zero_division (map (map (map (map in_range))) t) = true.
Proof.
  unfold no_zero_division.
  apply forallb_forall. intros a Ha. apply in_map_iff in Ha as [a' [<- _]].
  apply forallb_forall. intros b Hb. apply in_map_iff in Hb as [b' [<- _]].
  apply forallb_forall. intros c Hc. apply in_map_iff in Hc as [c' [<- _]].
  apply forallb_forall. intros d Hd. apply in_map_iff in Hd as [d' [<- _]].
  now rewrite in_range_no_zero_division.
Qed.

Lemma normalize_all (pix : tensor4) :
  Forall (fun z => ~ z == - depth_eps) (pixel_depths pix) ->
  map (map normalize_scale) pix
  = map (map (map (map in_range))) (map (map normalized) pix).
Proof.
  unfold pixel_depths. intros Hall.
  induction pix as [|pts pix IH]; [reflexivity|].
  simpl in Hall. apply Forall_app in Hall as [Hpts Hpix].
  simpl. rewrite (IH Hpix). f_equal.
  clear IH Hpix. induction pts as [|m pts IH]; [reflexivity|].
  simpl in Hpts. apply Forall_app in Hpts as [Hm Hpts].
  simpl. now rewrite (IH Hpts), (normalize_scale_quotients m Hm).
Qed.





(** Depths that are zero or positive are among the admitted ones. *)
Lemma nonnegative_depth_admitted (zs : tensor1) :
  Forall (fun z => 0 <= z) zs -> Forall (fun z => ~ z == - depth_eps) zs.
Proof.
  intros Hzs. eapply Forall_impl; [exact Hzs|].
  intros z Hz Heq. cbv beta in Hz.
  assert (Heps : 0 < depth_eps) by reflexivity. lra.
Qed.


(** At depth 0 the coordinates are divided by the constant alone. *)
Example cam2pixel_zero_depth :
  cam2pixel unit_camera plane_and_far_points identity_intrinsic
  = OK [ [ [ [Quot (3 / (0 + depth_eps)); Quot (4 / (2 + depth_eps))];
             [Quot (5 / (0 + depth_eps)); Quot (6 / (2 + depth_eps))];
             [Quot (0 / (0 + depth_eps)); Quot (2 / (2 + depth_eps))] ] ] ].
Proof. reflexivity. Qed.


End synthesize_base_props.

Module loss_util_props.
Import Py tf loss_util shape_facts.
Local Open Scope Q_scope.

Lemma reduce_sum_app (a b : tensor1) :
  reduce_sum (a ++ b) == reduce_sum a + reduce_sum b.
Proof.
  induction a as [|x a IH]; simpl; [lra|]. rewrite IH. lra.
Qed.

Lemma reduce_sum_zeros {A : Type} (l : list A) :
  reduce_sum (map (fun _ => 0) l) == 0.
Proof.
  induction l as [|x l IH]; simpl; [reflexivity|]. rewrite IH. lra.
Qed.

(** A black synthesized pixel is masked, whatever the number of channels. *)
Lemma black_pixel_masked (channels : nat) : error_mask (repeat 0 channels) = true.
Proof.
  unfold error_mask. apply Qeq_bool_iff. unfold reduce_mean.
  assert (Hsum : reduce_sum (repeat 0 channels) == 0).
  { induction channels as [|c IH]; simpl; [reflexivity|]. rewrite IH. lra. }
  rewrite Hsum. unfold Qdiv. lra.
Qed.


Lemma pixel_error_sum (synt_pixel orig_pixel : tensor1) :
  reduce_sum (pixel_error_l1 synt_pixel orig_pixel)
  == abs_error_sum (unmasked [(synt_pixel, orig_pixel)]).
Proof.
  unfold pixel_error_l1, where_masked, unmasked, abs_error_sum. simpl.
  destruct (error_mask synt_pixel); simpl.
  - apply reduce_sum_zeros.
  - lra.
Qed.

Lemma pixel_error_length (synt_pixel orig_pixel : tensor1) :
  length (pixel_error_l1 synt_pixel orig_pixel)
  = length (abs_error synt_pixel orig_pixel).
Proof.
  unfold pixel_error_l1, where_masked.
  destruct (error_mask synt_pixel); [apply length_map|reflexivity].
Qed.

Lemma abs_error_sum_app (a b : list (tensor1 * tensor1)) :
  abs_error_sum (a ++ b) == abs_error_sum a + abs_error_sum b.
Proof. unfold abs_error_sum. rewrite map_app. apply reduce_sum_app. Qed.

Lemma unmasked_app (a b : list (tensor1 * tensor1)) :
  unmasked (a ++ b) = unmasked a ++ unmasked b.
Proof. unfold unmasked. apply List.filter_app. Qed.

Lemma entry_count_app (a b : list (tensor1 * tensor1)) :
  entry_count (a ++ b) = (entry_count a + entry_count b)%nat.
Proof. unfold entry_count. now rewrite map_app, list_sum_app. Qed.

(** One row of pixels. *)
Lemma row_error_sum (synt_row orig_row : tensor2) :
  reduce_sum (flatten2 (zip_with pixel_error_l1 synt_row orig_row))
  == abs_error_sum (unmasked (zip_with pair synt_row orig_row)).
Proof.
  revert orig_row.
  induction synt_row as [|s synt_row IH]; intros [|o orig_row]; try reflexivity.
  unfold flatten2 in *. simpl zip_with. simpl concat.
  rewrite reduce_sum_app, IH, pixel_error_sum.
  change ((s, o) :: zip_with pair synt_row orig_row)
    with ([(s, o)] ++ zip_with pair synt_row orig_row).
  rewrite unmasked_app, abs_error_sum_app. reflexivity.
Qed.

Lemma row_error_length (synt_row orig_row : tensor2) :
  length (flatten2 (zip_with pixel_error_l1 synt_row orig_row))
  = entry_count (zip_with pair synt_row orig_row).
Proof.
  revert orig_row.
  induction synt_row as [|s synt_row IH]; intros [|o orig_row]; try reflexivity.
  unfold flatten2, entry_count in *. simpl.
  now rewrite length_app, IH, pixel_error_length.
Qed.

(** One image. *)
Lemma image_error_sum (synt_image orig_image : tensor3) :
  reduce_sum (flatten3 (image_error_l1 synt_image orig_image))
  == abs_error_sum (unmasked (pixel_pairs_image synt_image orig_image)).
Proof.
  unfold image_error_l1, pixel_pairs_image. revert orig_image.
  induction synt_image as [|sr synt_image IH]; intros [|or orig_image]; try reflexivity.
  unfold flatten3 in *. simpl.
  rewrite reduce_sum_app, IH, row_error_sum, unmasked_app, abs_error_sum_app.
  reflexivity.
Qed.

Lemma image_error_length (synt_image orig_image : tensor3) :
  length (flatten3 (image_error_l1 synt_image orig_image))
  = entry_count (pixel_pairs_image synt_image orig_image).
Proof.
  unfold image_error_l1, pixel_pairs_image. revert orig_image.
  induction synt_image as [|sr synt_image IH]; intros [|or orig_image]; try reflexivity.
  unfold flatten3 in *. simpl.
  now rewrite length_app, IH, row_error_length, entry_count_app.
Qed.

(** One example: all the source frames against the same original. *)
Lemma example_error_sum (synt_b : tensor4) (orig_b : tensor3) :
  reduce_sum (flatten4 (map (fun synt_image => image_error_l1 synt_image orig_b) synt_b))
  == abs_error_sum (unmasked (pixel_pairs synt_b orig_b)).
Proof.
  unfold pixel_pairs.
  induction synt_b as [|si synt_b IH]; [reflexivity|].
  unfold flatten4 in *. simpl.
  rewrite reduce_sum_app, IH, image_error_sum, unmasked_app, abs_error_sum_app.
  reflexivity.
Qed.

Lemma example_error_length (synt_b : tensor4) (orig_b : tensor3) :
  length (flatten4 (map (fun synt_image => image_error_l1 synt_image orig_b) synt_b))
  = entry_count (pixel_pairs synt_b orig_b).
Proof.
  unfold pixel_pairs.
  induction synt_b as [|si synt_b IH]; [reflexivity|].
  unfold flatten4 in *. simpl.
  now rewrite length_app, IH, image_error_length, entry_count_app.
Qed.









End loss_util_props.

Module losses_props.
Import Py tf loss_util losses losses_keys shape_facts.
Local Open Scope Q_scope.

(** *** The computation monad *)

Lemma outcome_bindM {A B : Type} (m : M A) (k : A -> M B) :
  outcome (bindM m k)
  = match outcome m with
    | OK a => outcome (k a)
    | Raise e => Raise e
    end.
Proof.
  destruct m as [w [a|e]]; simpl; [|reflexivity].
  unfold outcome. simpl. now destruct (k a).
Qed.

Lemma trace_bindM_raise {A B : Type} (m : M A) (k : A -> M B) (e : exn) :
  outcome m = Raise e -> bindM m k = (trace m, Raise e).
Proof.
  destruct m as [w [a|e']]; unfold outcome; simpl; [discriminate|].
  now intros [= ->].
Qed.

Section TotalLossProps.
Variable ops : TFOps.
Variables features predictions augm_data : gmap string pyval.

(** *** TotalLoss.__call__ *)

Lemma total_loop_ok (terms : list LossTerm) (vs : list Q) :
  Forall2 (fun t v => outcome (LossTerm_call ops t features predictions augm_data) = OK v)
          terms vs ->
  forall (ws losses : list Q),
    length ws = length terms ->
    outcome (total_loop ops (zip terms ws) features predictions augm_data losses)
    = OK (losses ++ zip_with Qmult vs ws).
Proof.
  induction 1 as [|t v terms vs Hv _ IH]; intros ws losses Hlen.
  - destruct ws; [|discriminate]. simpl. now rewrite app_nil_r.
  - destruct ws as [|w ws]; [discriminate|]. simpl in *.
    rewrite outcome_bindM, Hv, IH by lia.
    now rewrite <- app_assoc.
Qed.

Lemma total_loop_raises (t : LossTerm) (terms : list LossTerm) :
  In t terms ->
  (exists e, outcome (LossTerm_call ops t features predictions augm_data) = Raise e) ->
  forall (ws losses : list Q),
    length ws = length terms ->
    exists e, outcome (total_loop ops (zip terms ws) features predictions augm_data losses)
              = Raise e.
Proof.
  intros Hin Ht.
  induction terms as [|t0 terms IH]; intros ws losses Hlen; [destruct Hin|].
  destruct ws as [|w ws]; [discriminate|]. simpl in *.
  rewrite outcome_bindM.
  destruct (outcome (LossTerm_call ops t0 features predictions augm_data)) as [v|e] eqn:H0.
  - destruct Hin as [->|Hin].
    + destruct Ht as [e He]. congruence.
    + apply IH; [exact Hin|lia].
  - now exists e.
Qed.

End TotalLossProps.

Lemma length_zip_with_same {A B C : Type} (f : A -> B -> C) (l : list A) (k : list B) :
  length l = length k -> length (zip_with f l k) = length l.
Proof.
  revert k. induction l as [|a l IH]; intros [|b k]; simpl; try discriminate; [reflexivity|].
  intros [= H]. now rewrite IH.
Qed.

(** C2. For a configuration that pairs every term with a weight: when the
    augmentation succeeds and every term returns a value, [TotalLoss]
    returns the list of the values times their weights, in the order of the
    configured terms, and the sum of that list as the total loss. *)
Theorem TotalLoss_call_weighted_sum (ops : TFOps) (self : TotalLoss)
  (predictions features augm_data : gmap string pyval) (values : list Q) :
  length (loss_weights self) = length (calc_losses self) ->
  outcome (augment_all ops self features predictions) = OK augm_data ->
  Forall2 (fun t v => outcome (LossTerm_call ops t features predictions augm_data) = OK v)
          (calc_losses self) values ->
  let losses := zip_with Qmult values (loss_weights self) in
  outcome (TotalLoss_call ops self predictions features) = OK (reduce_sum losses, losses)
  /\ length losses = length (calc_losses self)
  /\ forall i t w,
       calc_losses self !! i = Some t -> loss_weights self !! i = Some w ->
       exists v, outcome (LossTerm_call ops t features predictions augm_data) = OK v
                 /\ losses !! i = Some (v * w).
Proof.
  intros Hlen Haugm Hvalues losses.
  pose proof (Forall2_length _ _ _ Hvalues) as Hlv.
  split; [|split].
  - unfold TotalLoss_call.
    rewrite outcome_bindM, Haugm, outcome_bindM.
    rewrite (total_loop_ok ops features predictions augm_data _ _ Hvalues) by exact Hlen.
    reflexivity.
  - unfold losses. rewrite length_zip_with_same; congruence.
  - intros i t w Ht Hw.
    destruct (Forall2_lookup_l _ _ _ _ _ Hvalues Ht) as [v [Hv Hcall]].
    exists v. split; [exact Hcall|].
    unfold losses. rewrite lookup_zip_with, Hv. simpl. now rewrite Hw.
Qed.

Lemma TotalLoss_call_weighted_sum_witness :
  outcome (augment_all toy_ops photo_then_l2 toy_features toy_predictions) = OK toy_augm_data
  /\ Forall2 (fun t v => outcome (LossTerm_call toy_ops t toy_features toy_predictions
                                                toy_augm_data) = OK v)
             (calc_losses photo_then_l2) [0 # 6; 5 # 2]
  /\ outcome (TotalLoss_call toy_ops photo_then_l2 toy_predictions toy_features)
     = OK (reduce_sum (zip_with Qmult [0 # 6; 5 # 2] [3; 1 # 2]),
           zip_with Qmult [0 # 6; 5 # 2] [3; 1 # 2]).
Proof.
  assert (Haugm : outcome (augment_all toy_ops photo_then_l2 toy_features toy_predictions)
                  = OK toy_augm_data)
    by (vm_compute; reflexivity).
  assert (Hvalues :
            Forall2 (fun t v => outcome (LossTerm_call toy_ops t toy_features toy_predictions
                                                       toy_augm_data) = OK v)
                    (calc_losses photo_then_l2) [0 # 6; 5 # 2])
    by (repeat constructor; vm_compute; reflexivity).
  split; [exact Haugm|]. split; [exact Hvalues|].
  exact (proj1 (TotalLoss_call_weighted_sum toy_ops photo_then_l2 toy_predictions toy_features
                  toy_augm_data [0 # 6; 5 # 2] eq_refl Haugm Hvalues)).
Defined.

(** *** Configuration errors *)



(** A term that raises is not skipped: the whole call raises. *)
Lemma TotalLoss_call_never_skips (ops : TFOps) (self : TotalLoss)
  (predictions features : gmap string pyval) (t : LossTerm) :
  In t (calc_losses self) ->
  length (loss_weights self) = length (calc_losses self) ->
  (forall augm_data,
      exists e, outcome (LossTerm_call ops t features predictions augm_data) = Raise e) ->
  exists e, outcome (TotalLoss_call ops self predictions features) = Raise e.
Proof.
  intros Hin Hlen Ht. unfold TotalLoss_call.
  rewrite outcome_bindM.
  destruct (outcome (augment_all ops self features predictions)) as [augm_data|e];
    [|now exists e].
  rewrite outcome_bindM.
  destruct (total_loop_raises ops features predictions augm_data t (calc_losses self)
              Hin (Ht augm_data) (loss_weights self) [] Hlen) as [e He].
  rewrite He. now exists e.
Qed.

(** The augmentation looks the depth pyramid up before anything else. *)
Lemma TotalLoss_missing_depth (ops : TFOps) (self : TotalLoss)
  (predictions features : gmap string pyval) :
  predictions !! "depth_ms"%string = None ->
  TotalLoss_call ops self predictions features = ([], Raise (KeyError "depth_ms")).
Proof.
  intros Hnone.
  unfold TotalLoss_call, augment_all, augment_data, get_list4, getitem.
  change ("depth_ms" +:+ "")%string with "depth_ms"%string.
  now rewrite Hnone.
Qed.







(** Two keys that differ in what is written out of them. *)
Ltac differ :=
  let H := fresh in
  intros H; vm_compute in H; discriminate.

Section MissingKeys.
Variable ops : TFOps.

Lemma outcome_bindM_OK {A B : Type} (m : M A) (k : A -> M B) (b : B) :
  outcome (bindM m k) = OK b -> exists a, outcome m = OK a /\ outcome (k a) = OK b.
Proof.
  rewrite losses_props.outcome_bindM.
  destruct (outcome m) as [a|e]; [|discriminate]. intros H. now exists a.
Qed.

Lemma outcome_launch {A : Type} (w : work) (a : A) : outcome (launch w a) = OK a.
Proof. reflexivity. Qed.

Lemma augment_data_result (features predictions : gmap string pyval) (suffix : string)
  (augm_data : gmap string pyval) :
  outcome (augment_data ops features predictions suffix) = OK augm_data ->
  exists source target target_ms synth_target_ms,
    (predictions !! ("flow_ms" +:+ suffix) = None
     /\ augm_data = base_augm suffix source target target_ms synth_target_ms)
    \/ (exists flow_target_ms warped_target_ms,
           predictions !! ("flow_ms" +:+ suffix) <> None /\
           augm_data
           = <["warped_target_ms" +:+ suffix := PList5 warped_target_ms]>
               (<["flow_target_ms" +:+ suffix := PList4 flow_target_ms]>
                  (base_augm suffix source target target_ms synth_target_ms))).
Proof.
  unfold augment_data. intros H.
  apply outcome_bindM_OK in H as [pred_depth_ms [_ H]].
  apply outcome_bindM_OK in H as [pred_pose [_ H]].
  apply outcome_bindM_OK in H as [stacked_image [_ H]].
  apply outcome_bindM_OK in H as [intrinsic [_ H]].
  apply outcome_bindM_OK in H as [[source target] [_ H]].
  apply outcome_bindM_OK in H as [target_ms [_ H]].
  apply outcome_bindM_OK in H as [synth_target_ms [_ H]].
  exists source, target, target_ms, synth_target_ms.
  destruct (predictions !! ("flow_ms" +:+ suffix)) as [v|].
  - right.
    apply outcome_bindM_OK in H as [pred_flow_ms [_ H]].
    apply outcome_bindM_OK in H as [flow_target_ms [_ H]].
    apply outcome_bindM_OK in H as [warped_target_ms [_ H]].
    injection H as <-. exists flow_target_ms, warped_target_ms. split; [discriminate|reflexivity].
  - left. injection H as <-. split; reflexivity.
Qed.

Lemma base_augm_no_flow_key (suffix s : string) source target target_ms synth_target_ms :
  base_augm suffix source target target_ms synth_target_ms !! ("flow_target_ms" +:+ s) = None.
Proof.
  unfold base_augm.
  rewrite !lookup_insert_ne by differ. apply lookup_empty.
Qed.









End MissingKeys.



Example PhotometricLoss_init_L2 :
  new_PhotometricLossMultiScale "L2" ""
  = Raise (WrongInputException "Wrong photometric loss name: L2").
Proof. reflexivity. Qed.

(** *** Edge-aware smoothness *)

Lemma zip_with_removelast {A B : Type} (f : A -> A -> B) (l : list A) :
  zip_with f (removelast l) (tail l) = zip_with f l (tail l).
Proof.
  induction l as [|a [|b r] IH]; try reflexivity.
  change (removelast (a :: b :: r)) with (a :: removelast (b :: r)).
  simpl tail in *. simpl zip_with at 2. cbn [zip_with]. f_equal. exact IH.
Qed.

Lemma map_nth_seq {A B : Type} (F : A -> B) (d : A) (n : nat) (l : list A) :
  length l = n -> map F l = map (fun i => F (nth i l d)) (seq 0 n).
Proof.
  revert l. induction n as [|n IH]; intros [|x l] Hl; try discriminate; [reflexivity|].
  cbn [map seq nth]. f_equal. rewrite <- seq_shift, map_map. apply IH. now injection Hl.
Qed.

Lemma zip_with_maps {A B C I : Type} (F : A -> B -> C) (f : I -> A) (g : I -> B)
  (s : list I) :
  zip_with F (map f s) (map g s) = map (fun i => F (f i) (g i)) s.
Proof. induction s as [|i s IH]; [reflexivity|]. cbn [map zip_with]. now rewrite IH. Qed.

Lemma neighbours_nth {A B : Type} (f : A -> A -> B) (d : A) (n : nat) (l : list A) :
  length l = n ->
  zip_with f (removelast l) (tail l)
  = map (fun i => f (nth i l d) (nth (S i) l d)) (seq 0 (n - 1)).
Proof.
  rewrite zip_with_removelast. revert n.
  induction l as [|a l IH]; intros n Hl; [subst n; reflexivity|].
  destruct l as [|b r]; [subst n; reflexivity|].
  subst n. cbn [length tail]. replace (S (S (length r)) - 1)%nat with (S (length r)) by lia.
  cbn [seq map zip_with]. f_equal.
  rewrite <- seq_shift, map_map.
  specialize (IH (S (length r)) eq_refl). cbn [tail] in IH.
  replace (S (length r) - 1)%nat with (length r) in IH by lia.
  exact IH.
Qed.

Lemma in_seq_lt (i n : nat) : In i (seq 0 n) -> (i < n)%nat.
Proof. intros H. apply in_seq in H. lia. Qed.

Lemma Forall2_nth {A B : Type} (P : A -> B -> Prop) (da : A) (db : B) (l : list A)
  (k : list B) (i : nat) :
  Forall2 P l k -> (i < length l)%nat -> P (nth i l da) (nth i k db).
Proof.
  intros H. revert i. induction H as [|x y l k Hxy _ IH]; intros [|i] Hi; cbn in *;
    try lia; [exact Hxy|]. apply IH. lia.
Qed.

Section SmoothnessProps.
Variable ops : TFOps.
Hypothesis exp_pos : forall x, 0 < exp ops x.


Lemma weighted_pixel (c : nat) (dp dq ip iq : tensor1) :
  shape1 1 dp -> shape1 1 dq -> shape1 c ip -> shape1 c iq ->
  times_weight (pixel_sub dp dq) (edge_weight ops (pixel_sub ip iq))
  = [pixel_term ops c dp dq ip iq].
Proof.
  unfold shape1. intros Hdp Hdq Hip Hiq.
  destruct dp as [|a [|]]; try discriminate. destruct dq as [|a' [|]]; try discriminate.
  unfold times_weight, edge_weight, pixel_sub, pixel_term. cbn [zip_with map hd nth].
  do 3 f_equal. unfold reduce_mean, reduce_sum, sum_below.
  rewrite (zip_with_nth Qminus 0 0 c ip iq Hip Hiq), map_map, length_map, length_seq.
  reflexivity.
Qed.

Lemma weighted_row_x (w c : nat) (drow irow : tensor2) :
  shape2 w 1 drow -> shape2 w c irow ->
  zip_with times_weight (row_gradient drow) (map (edge_weight ops) (row_gradient irow))
  = map (fun x => [pixel_term ops c (nth x drow []) (nth (S x) drow [])
                               (nth x irow []) (nth (S x) irow [])])
        (seq 0 (w - 1)).
Proof.
  intros [Hdw Hd] [Hiw Hi]. unfold row_gradient.
  rewrite (neighbours_nth pixel_sub [] w drow Hdw), (neighbours_nth pixel_sub [] w irow Hiw).
  rewrite map_map, zip_with_maps. apply map_ext_in. intros x Hx. apply in_seq_lt in Hx. cbv beta.
  apply weighted_pixel.
  - apply (nth_shape (shape1 1)); [exact Hd|untensor; lia].
  - apply (nth_shape (shape1 1)); [exact Hd|untensor; lia].
  - apply (nth_shape (shape1 c)); [exact Hi|untensor; lia].
  - apply (nth_shape (shape1 c)); [exact Hi|untensor; lia].
Qed.

Lemma weighted_rows_y (w c : nat) (drow drow' irow irow' : tensor2) :
  shape2 w 1 drow -> shape2 w 1 drow' -> shape2 w c irow -> shape2 w c irow' ->
  zip_with times_weight (zip_with pixel_sub drow drow')
                        (map (edge_weight ops) (zip_with pixel_sub irow irow'))
  = map (fun x => [pixel_term ops c (nth x drow []) (nth x drow' [])
                               (nth x irow []) (nth x irow' [])])
        (seq 0 w).
Proof.
  intros [Hdw Hd] [Hdw' Hd'] [Hiw Hi] [Hiw' Hi'].
  rewrite (zip_with_nth pixel_sub [] [] w drow drow' Hdw Hdw').
  rewrite (zip_with_nth pixel_sub [] [] w irow irow' Hiw Hiw').
  rewrite map_map, zip_with_maps. apply map_ext_in. intros x Hx. apply in_seq_lt in Hx. cbv beta.
  apply weighted_pixel.
  - apply (nth_shape (shape1 1)); [exact Hd|untensor; lia].
  - apply (nth_shape (shape1 1)); [exact Hd'|untensor; lia].
  - apply (nth_shape (shape1 c)); [exact Hi|untensor; lia].
  - apply (nth_shape (shape1 c)); [exact Hi'|untensor; lia].
Qed.

(** The weighted horizontal gradients of a level, entry by entry. *)
Lemma weighted_gradient_x (n h w c : nat) (disp image : tensor4) :
  shape4 n h w 1 disp -> shape4 n h w c image ->
  weighted (gradient_x disp) (edge_weights ops (gradient_x image))
  = map (fun b => map (fun y => map (fun x =>
        [(entry disp b y x 0 - entry disp b y (S x) 0)
         * exp ops (- image_gradient c image b y x y (S x))])
      (seq 0 (w - 1))) (seq 0 h)) (seq 0 n).
Proof.
  intros [Hdn Hd] [Hin Hi]. unfold weighted, gradient_x, edge_weights.
  rewrite map_map.
  rewrite (map_nth_seq (map row_gradient) [] n disp Hdn).
  rewrite (map_nth_seq (fun im => map (map (edge_weight ops)) (map row_gradient im)) [] n
             image Hin).
  rewrite zip_with_maps. apply map_ext_in. intros b Hb. apply in_seq_lt in Hb. cbv beta.
  assert (Hdb : shape3 h w 1 (nth b disp [])).
  { apply (nth_shape (shape3 h w 1)); [exact Hd|untensor; lia]. }
  assert (Hib : shape3 h w c (nth b image [])).
  { apply (nth_shape (shape3 h w c)); [exact Hi|untensor; lia]. }
  destruct Hdb as [Hdh Hdrows], Hib as [Hih Hirows].
  rewrite map_map.
  rewrite (map_nth_seq row_gradient [] h) by exact Hdh.
  rewrite (map_nth_seq (fun row => map (edge_weight ops) (row_gradient row)) [] h)
    by exact Hih.
  rewrite zip_with_maps. apply map_ext_in. intros y Hy. apply in_seq_lt in Hy. cbv beta.
  rewrite (weighted_row_x w c).
  - reflexivity.
  - apply (nth_shape (shape2 w 1)); [exact Hdrows|untensor; lia].
  - apply (nth_shape (shape2 w c)); [exact Hirows|untensor; lia].
Qed.

(** The weighted vertical gradients of a level, entry by entry. *)
Lemma weighted_gradient_y (n h w c : nat) (disp image : tensor4) :
  shape4 n h w 1 disp -> shape4 n h w c image ->
  weighted (gradient_y disp) (edge_weights ops (gradient_y image))
  = map (fun b => map (fun y => map (fun x =>
        [(entry disp b y x 0 - entry disp b (S y) x 0)
         * exp ops (- image_gradient c image b y x (S y) x)])
      (seq 0 w)) (seq 0 (h - 1))) (seq 0 n).
Proof.
  intros [Hdn Hd] [Hin Hi]. unfold weighted, gradient_y, edge_weights.
  rewrite map_map.
  rewrite (map_nth_seq (fun im : tensor3 => zip_with (zip_with pixel_sub) (removelast im) (tail im))
             [] n disp Hdn).
  rewrite (map_nth_seq (fun im : tensor3 =>
                          map (map (edge_weight ops))
                              (zip_with (zip_with pixel_sub) (removelast im) (tail im)))
             [] n image Hin).
  rewrite zip_with_maps. apply map_ext_in. intros b Hb. apply in_seq_lt in Hb. cbv beta.
  assert (Hdb : shape3 h w 1 (nth b disp [])).
  { apply (nth_shape (shape3 h w 1)); [exact Hd|untensor; lia]. }
  assert (Hib : shape3 h w c (nth b image [])).
  { apply (nth_shape (shape3 h w c)); [exact Hi|untensor; lia]. }
  destruct Hdb as [Hdh Hdrows], Hib as [Hih Hirows].
  untensor. rewrite !(neighbours_nth _ [] h) by (exact Hdh || exact Hih).
  rewrite map_map, zip_with_maps. apply map_ext_in. intros y Hy. apply in_seq_lt in Hy. cbv beta.
  rewrite (weighted_rows_y w c).
  - reflexivity.
  - apply (nth_shape (shape2 w 1)); [exact Hdrows|untensor; lia].
  - apply (nth_shape (shape2 w 1)); [exact Hdrows|untensor; lia].
  - apply (nth_shape (shape2 w c)); [exact Hirows|untensor; lia].
  - apply (nth_shape (shape2 w c)); [exact Hirows|untensor; lia].
Qed.

(** The mean of the magnitudes of a table of weighted gradients. *)
Lemma mean_of_magnitudes (n h w : nat) (g e : nat -> nat -> nat -> Q) :
  (forall b y x, 0 < e b y x) ->
  reduce_mean (map Qabs (flatten4
    (map (fun b => map (fun y => map (fun x => [g b y x * e b y x]) (seq 0 w)) (seq 0 h))
         (seq 0 n))))
  == sum_below n (fun b => sum_below h (fun y => sum_below w (fun x =>
       Qabs (g b y x) * e b y x)))
     / inject_Z (Z.of_nat (n * h * w)).
Proof.
  intros He. unfold reduce_mean.
  assert (Hlen : length (map Qabs (flatten4
            (map (fun b => map (fun y => map (fun x => [g b y x * e b y x]) (seq 0 w))
                                 (seq 0 h)) (seq 0 n))))
                 = (n * h * w)%nat).
  { rewrite length_map, (length_flatten4 n h w 1); [lia|].
    split; [now rewrite length_map, length_seq|].
    apply Forall_fmap, Forall_forall. intros b _.
    split; [now rewrite length_map, length_seq|].
    apply Forall_fmap, Forall_forall. intros y _.
    split; [now rewrite length_map, length_seq|].
    apply Forall_fmap, Forall_forall. intros x _. reflexivity. }
  rewrite Hlen.
  apply Qmult_comp; [|reflexivity].
  unfold reduce_sum, flatten4, flatten3, flatten2, sum_below.
  rewrite !map_map, concat_map, map_map, Qsum_concat_map.
  apply Qsum_map_ext. intros b _.
  rewrite concat_map, !map_map, Qsum_concat_map.
  apply Qsum_map_ext. intros y _.
  rewrite concat_map, !map_map, Qsum_concat_map.
  apply Qsum_map_ext. intros x _.
  cbn [map fold_right]. rewrite Qabs_Qmult, (Qabs_pos (e b y x)).
  - lra.
  - apply Qlt_le_weak, He.
Qed.

Lemma smootheness_loss_refines (n h w c : nat) (disp image : tensor4) :
  shape4 n h w 1 disp -> shape4 n h w c image ->
  smootheness_loss ops disp image == level_smoothness ops n h w c disp image.
Proof.
  intros Hd Hi. unfold smootheness_loss, level_smoothness.
  rewrite (weighted_gradient_x n h w c disp image Hd Hi).
  rewrite (weighted_gradient_y n h w c disp image Hd Hi).
  rewrite (mean_of_magnitudes n h (w - 1)) by (intros; apply exp_pos).
  rewrite (mean_of_magnitudes n (h - 1) w) by (intros; apply exp_pos).
  reflexivity.
Qed.

Lemma outcome_get_list4 (d : gmap string pyval) (key : string) (l : list tensor4) :
  d !! key = Some (PList4 l) -> outcome (get_list4 d key) = OK l.
Proof. intros H. unfold get_list4, getitem. now rewrite H. Qed.

Lemma smooth_loop_ok (orig_width : nat) (pairs : list (tensor4 * tensor4)) :
  Forall (fun p : tensor4 * tensor4 => width_of p.2 <> 0%nat) pairs ->
  forall (i : nat) (losses : list Q),
    outcome (smooth_loop ops orig_width i pairs losses)
    = OK (losses ++ map (fun p : tensor4 * tensor4 =>
                           smootheness_loss ops p.1 p.2
                           / (inject_Z (Z.of_nat orig_width)
                              / inject_Z (Z.of_nat (width_of p.2))))
                        pairs).
Proof.
  induction 1 as [|[disp image] pairs Hw _ IH]; intros i losses; cbn [smooth_loop map].
  - now rewrite app_nil_r.
  - cbn [snd fst] in *. apply Nat.eqb_neq in Hw. rewrite Hw.
    rewrite outcome_bindM. cbn [outcome launch snd]. rewrite IH, <- app_assoc. reflexivity.
Qed.

Lemma width_of_shape (n h w c : nat) (t : tensor4) :
  shape4 n h w c t -> (1 <= n)%nat -> (1 <= h)%nat -> width_of t = w.
Proof.
  intros [Hn Ht] Hn1 Hh1. unfold width_of.
  destruct t as [|im t]; [cbn in Hn; lia|].
  apply Forall_cons_1 in Ht as [[Hh Him] _].
  destruct im as [|row im]; [cbn in Hh; lia|].
  apply Forall_cons_1 in Him as [[Hw _] _]. exact Hw.
Qed.

(** C6. With an exponential that is positive: for a disparity pyramid and
    a matching target pyramid, level [l] holding [n] examples of
    [h_l] x [w_l] pixels (one disparity channel, [c] image channels,
    at least two rows and two columns), the smoothness term returns the sum
    over the levels of the level value divided by the level's resolution
    ratio [w_0 / w_l]. The level value is half the mean over the horizontal
    neighbours plus half the mean over the vertical neighbours of
    [|disparity difference| * exp(- mean over the channels of
    |image difference|)]. *)
Theorem smoothness_sums_normalized_levels (key_suffix : string)
  (features predictions augm_data : gmap string pyval) (disp_ms target_ms : list tensor4)
  (n c : nat) (sizes : list (nat * nat)) :
  predictions !! ("disp_ms" +:+ key_suffix) = Some (PList4 disp_ms) ->
  augm_data !! ("target_ms" +:+ key_suffix) = Some (PList4 target_ms) ->
  Forall2 (fun (hw : nat * nat) disp => shape4 n hw.1 hw.2 1 disp) sizes disp_ms ->
  Forall2 (fun (hw : nat * nat) image => shape4 n hw.1 hw.2 c image) sizes target_ms ->
  sizes <> [] -> (1 <= n)%nat -> (1 <= c)%nat ->
  Forall (fun hw : nat * nat => (2 <= hw.1)%nat /\ (2 <= hw.2)%nat) sizes ->
  exists v,
    outcome (SmoothenessLossMultiScale_call ops key_suffix features predictions augm_data) = OK v
    /\ v == multi_scale_smoothness ops n c sizes disp_ms target_ms.
Proof.
  intros Hdisp Htarget Hds Hts Hne Hn Hc Hbig.
  assert (Hwidth : forall l, (l < length sizes)%nat ->
            width_of (nth l target_ms []) = (nth l sizes (0, 0)%nat).2).
  { intros l Hl.
    pose proof (Forall2_nth _ (0, 0)%nat [] sizes target_ms l Hts Hl) as Hshape.
    cbv beta in Hshape.
    assert (Hin : In (nth l sizes (0, 0)%nat) sizes) by now apply nth_In.
    rewrite List.Forall_forall in Hbig. destruct (Hbig _ Hin) as [Hh _].
    apply (width_of_shape n _ _ c _ Hshape); lia. }
  assert (Hlt : length target_ms = length sizes) by (symmetry; exact (Forall2_length _ _ _ Hts)).
  assert (Hld : length disp_ms = length sizes) by (symmetry; exact (Forall2_length _ _ _ Hds)).
  assert (Hpairs : Forall (fun p : tensor4 * tensor4 => width_of p.2 <> 0%nat)
                          (zip disp_ms target_ms)).
  { rewrite (zip_with_nth _ ([] : tensor4) ([] : tensor4) (length sizes)) by assumption.
    apply Forall_fmap, Forall_forall. intros l Hl. apply list_elem_of_In, in_seq_lt in Hl.
    cbn [snd]. simpl. rewrite (Hwidth l Hl).
    assert (Hin : In (nth l sizes (0, 0)%nat) sizes) by now apply nth_In.
    rewrite List.Forall_forall in Hbig. destruct (Hbig _ Hin) as [_ Hw]. lia. }
  destruct target_ms as [|target_0 rest];
    [destruct sizes; [contradiction|discriminate]|].
  set (target_ms := target_0 :: rest) in *.
  eexists. split.
  - unfold SmoothenessLossMultiScale_call.
    rewrite outcome_bindM, (outcome_get_list4 _ _ _ Hdisp).
    rewrite outcome_bindM, (outcome_get_list4 _ _ _ Htarget).
    rewrite outcome_bindM. simpl first_of. cbn [outcome ret snd].
    rewrite outcome_bindM, (smooth_loop_ok _ _ Hpairs). reflexivity.
  - simpl app. unfold multi_scale_smoothness, reduce_sum, sum_below.
    rewrite (zip_with_nth _ ([] : tensor4) ([] : tensor4) (length sizes)) by assumption. rewrite map_map.
    apply Qsum_map_ext. intros l Hl. apply in_seq_lt in Hl. cbn [fst snd].
    assert (H0 : (0 < length sizes)%nat) by (destruct sizes; [contradiction|cbn; lia]).
    change target_0 with (nth 0 target_ms []).
    rewrite (Hwidth 0%nat H0), (Hwidth l Hl).
    rewrite (smootheness_loss_refines n (nth l sizes (0, 0)%nat).1 (nth l sizes (0, 0)%nat).2 c).
    + reflexivity.
    + exact (Forall2_nth _ (0, 0)%nat [] sizes disp_ms l Hds Hl).
    + exact (Forall2_nth _ (0, 0)%nat [] sizes target_ms l Hts Hl).
Qed.

End SmoothnessProps.

Lemma toy_exp_pos (x : Q) : 0 < exp toy_ops x.
Proof.
  simpl. apply Qlt_shift_div_l; nra.
Qed.

Lemma smoothness_sums_normalized_levels_witness :
  exists v,
    outcome (SmoothenessLossMultiScale_call toy_ops "" ∅ pyramid_predictions pyramid_augm_data)
    = OK v
    /\ v == multi_scale_smoothness toy_ops 1 3 [(2, 4); (2, 2)]%nat pyramid_disp pyramid_target.
Proof.
  apply (smoothness_sums_normalized_levels toy_ops toy_exp_pos "" ∅ pyramid_predictions
           pyramid_augm_data pyramid_disp pyramid_target 1 3 [(2, 4); (2, 2)]%nat).
  - vm_compute. reflexivity.
  - vm_compute. reflexivity.
  - repeat constructor.
  - repeat constructor.
  - discriminate.
  - lia.
  - lia.
  - repeat constructor.
Defined.

End losses_props.

(** ** Lists *)

Module list_facts.

Lemma Forall_zip_with_both {A B C : Type} (P : A -> Prop) (Q' : B -> Prop) (R : C -> Prop)
  (f : A -> B -> C) (l : list A) (k : list B) :
  (forall x y, P x -> Q' y -> R (f x y)) -> Forall P l -> Forall Q' k ->
  Forall R (zip_with f l k).
Proof.
  intros Hf H. revert k.
  induction H as [|x l Hx _ IH]; intros k Hk; destruct Hk as [|y k Hy Hk];
    cbn [zip_with]; try (constructor; fail).
  constructor; [now apply Hf|now apply IH].
Qed.

Lemma Forall_removelast {A : Type} (P : A -> Prop) (l : list A) :
  Forall P l -> Forall P (removelast l).
Proof.
  induction 1 as [|x l Hx Hl IH]; [constructor|].
  destruct l as [|y l]; [constructor|].
  change (removelast (x :: y :: l)) with (x :: removelast (y :: l)).
  constructor; [exact Hx|exact IH].
Qed.

Lemma Forall_tail {A : Type} (P : A -> Prop) (l : list A) : Forall P l -> Forall P (tail l).
Proof. destruct 1; [constructor|assumption]. Qed.

Lemma Forall_repeat {A : Type} (P : A -> Prop) (x : A) (n : nat) : P x -> Forall P (repeat x n).
Proof. intros Hx. induction n; cbn [repeat]; constructor; assumption. Qed.

Lemma Forall2_zip {A B : Type} (R : A -> B -> Prop) (l : list A) (k : list B) :
  Forall2 R l k -> Forall (fun pr : A * B => R pr.1 pr.2) (zip l k).
Proof. induction 1; cbn [zip_with]; constructor; assumption. Qed.

End list_facts.

(** ** tfrecords/tfrecord_writer.py: the readers and the shards *)

Module tfrecord_extra.
Import Py tfrecord_writer tfrecord_readers.

Lemma image_reader_parts {row : Type} (image : list row) :
  let h := length image / 5 in
  image_reader image
  = take (h * 2) image ++ drop (h * 3) image ++ take h (drop (h * 2) image).
Proof.
  intros h. unfold image_reader, slice, config.SNIPPET_LEN. fold h.
  change (5 / 2) with 2. change (2 + 1) with 3.
  replace (h * 3 - h * 2) with h by lia. reflexivity.
Qed.

(** X1. [image_reader] only reorders the rows of the image it reads: for an
    image of any height, also one that is not a multiple of the snippet
    length, every row is kept exactly once and the height is unchanged. *)
Theorem image_reader_permutes_any_image {row : Type} (image : list row) :
  Permutation (image_reader image) image
  /\ length (image_reader image) = length image.
Proof.
  assert (Hperm : Permutation (image_reader image) image).
  { rewrite image_reader_parts.
    set (h := length image / 5).
    transitivity (take (h * 2) image ++ drop (h * 2) image);
      [|now rewrite take_drop].
    apply Permutation_app_head.
    transitivity (take h (drop (h * 2) image) ++ drop h (drop (h * 2) image));
      [|now rewrite take_drop].
    rewrite drop_drop. replace (h * 2 + h) with (h * 3) by lia.
    apply Permutation_app_comm. }
  split; [exact Hperm|]. now apply Permutation_length.
Qed.

(** X2. For a snippet of five frames of equal height and five poses,
    [image_reader] moves the target frame (index 2) behind the four source
    frames and [pose_reader] drops the pose of index 2: the four matrices
    returned are those of the source frames, in the order the source frames
    have in the reordered image. *)
Theorem pose_reader_follows_image_reader {row P T : Type} (pose_quat2matr : P -> T)
  (h : nat) (frames : list (list row)) (poses : list P) :
  length frames = 5 -> length poses = 5 ->
  Forall (fun f => length f = h) frames ->
  exists target,
    frames !! 2 = Some target
    /\ image_reader (concat frames) = concat (delete 2 frames) ++ target
    /\ pose_reader pose_quat2matr poses = OK (map pose_quat2matr (delete 2 poses)).
Proof.
  intros Hf Hp Hh.
  destruct frames as [|f0 [|f1 [|f2 [|f3 [|f4 [|]]]]]]; try discriminate.
  destruct poses as [|p0 [|p1 [|p2 [|p3 [|p4 [|]]]]]]; try discriminate.
  exists f2. split; [reflexivity|]. split; [|reflexivity].
  repeat match goal with H : Forall _ (_ :: _) |- _ => inversion H; clear H; subst end.
  rewrite image_reader_parts. simpl concat. simpl delete.
  rewrite !app_nil_r.
  set (h := length f0) in *.
  assert (Hlen : length (f0 ++ f1 ++ f2 ++ f3 ++ f4) = h * 5)
    by (rewrite !length_app; lia).
  rewrite Hlen, Nat.div_mul by lia.
  assert (Hup : take (h * 2) (f0 ++ f1 ++ f2 ++ f3 ++ f4) = f0 ++ f1).
  { rewrite (app_assoc f0 f1). apply take_app_length'. rewrite length_app. lia. }
  assert (Hmid : take h (drop (h * 2) (f0 ++ f1 ++ f2 ++ f3 ++ f4)) = f2).
  { rewrite (app_assoc f0 f1), drop_app_length' by (rewrite length_app; lia).
    apply take_app_length'. lia. }
  assert (Hdw : drop (h * 3) (f0 ++ f1 ++ f2 ++ f3 ++ f4) = f3 ++ f4).
  { replace (f0 ++ f1 ++ f2 ++ f3 ++ f4) with ((f0 ++ f1 ++ f2) ++ f3 ++ f4)
      by (now rewrite <- !app_assoc).
    apply drop_app_length'. rewrite !length_app. lia. }
  rewrite Hup, Hmid, Hdw. now rewrite <- !app_assoc.
Qed.

Lemma pose_reader_follows_image_reader_witness :
  exists target,
    tfrecord_examples.five_frames !! 2 = Some target
    /\ image_reader (concat tfrecord_examples.five_frames)
       = concat (delete 2 tfrecord_examples.five_frames) ++ target
    /\ pose_reader S tfrecord_examples.five_poses
       = OK (map S (delete 2 tfrecord_examples.five_poses)).
Proof.
  apply (pose_reader_follows_image_reader S 1 tfrecord_examples.five_frames
           tfrecord_examples.five_poses).
  - reflexivity.
  - reflexivity.
  - repeat constructor.
Defined.

(** X3. A pose array of two rows, or an empty one, has no row of index 2:
    [pose_reader] fails with the IndexError of [np.delete]. *)
Theorem pose_reader_short_snippet {P T : Type} (pose_quat2matr : P -> T) (poses : list P) :
  length poses <= 2 -> length poses <> 1 ->
  pose_reader pose_quat2matr poses = Raise IndexError.
Proof.
  intros Hlen _. unfold pose_reader, np_delete.
  change (config.SNIPPET_LEN / 2) with 2.
  destruct (Nat.ltb_spec 2 (length poses)); [lia|reflexivity].
Qed.

Lemma pose_reader_short_snippet_witness :
  pose_reader S [10; 11] = Raise IndexError.
Proof. apply (pose_reader_short_snippet S [10; 11]); simpl; lia. Defined.

Section MakeBounds.
Context {D Rec : Type}.
Variable ser : list (string * D) -> Rec.

Lemma num_shards_bounds (n : nat) : 1 <= num_shards_of n <= 10.
Proof. unfold num_shards_of. lia. Qed.

(** X4. [make] on freshly created feeders of [n] examples each writes at
    most [n] records and leaves out fewer than 10 of the examples; with
    fewer than 4000 examples there is one shard and every example is
    written, in dataset order. *)
Theorem make_loses_less_than_ten (n : nat) (fs : list (string * NpyFeeder D)) (f : NpyFeeder D) :
  fresh_feeders n fs ->
  feeders_getitem fs "image" = OK f ->
  exists shards feeders',
    make ser (OK fs) = OK (shards, feeders')
    /\ length (concat shards) <= n
    /\ n < length (concat shards) + 10
    /\ (n < 4000 -> length shards = 1 /\ records_of ser fs (concat shards) 0 n).
Proof.
  intros Hfresh Himg.
  pose proof (tfrecord_writer_props.fresh_lengths n fs Hfresh) as Hlen.
  pose proof (num_shards_bounds n) as Hns.
  set (ns := num_shards_of n) in *.
  assert (Hsplit : n = ns * (n / ns) + n mod ns) by (apply Nat.div_mod_eq).
  assert (Hmod : n mod ns < ns) by (apply Nat.mod_upper_bound; lia).
  unfold make. rewrite Himg. simpl.
  rewrite (tfrecord_writer_props.feeders_getitem_len n fs "image" f Hlen Himg).
  fold ns.
  destruct (tfrecord_writer_props.write_shards_at ser n (n / ns) fs Hlen (range 0 ns) 0 [])
    as [news [Hrun [Hn [Hall Hcat]]]].
  { rewrite tfrecord_writer_props.length_range. lia. }
  rewrite tfrecord_writer_props.length_range, Nat.sub_0_r in Hrun, Hn, Hcat.
  rewrite (tfrecord_writer_props.fresh_at_cursor n fs Hfresh) in Hrun.
  simpl in Hrun. rewrite Hrun.
  exists news. eexists. split; [reflexivity|].
  assert (Hcount : length (concat news) = ns * (n / ns)).
  { pose proof (Forall2_length _ _ _ Hcat) as Hl. rewrite length_seq in Hl.
    rewrite Hl. lia. }
  rewrite Hcount. split; [lia|]. split; [lia|].
  intros Hsmall.
  assert (Hone : ns = 1).
  { unfold ns, num_shards_of.
    assert (n / 2000 < 2) by (apply Nat.Div0.div_lt_upper_bound; lia). lia. }
  rewrite Hone in Hcat. rewrite Nat.div_1_r in Hcat.
  replace (1 * n) with n in Hcat by lia.
  split; [rewrite Hn; exact Hone|exact Hcat].
Qed.

End MakeBounds.

Lemma make_loses_less_than_ten_witness :
  exists shards feeders',
    make (fun ex : list (string * nat) => ex) (OK tfrecord_examples.feeders_25)
    = OK (shards, feeders')
    /\ length (concat shards) <= 25
    /\ 25 < length (concat shards) + 10
    /\ (25 < 4000 ->
        length shards = 1
        /\ records_of (fun ex => ex) tfrecord_examples.feeders_25 (concat shards) 0 25).
Proof.
  apply (make_loses_less_than_ten (fun ex : list (string * nat) => ex) 25
           tfrecord_examples.feeders_25 (mkFeeder (seq 0 25) 0)).
  - repeat constructor.
  - reflexivity.
Defined.

End tfrecord_extra.

(** ** model/build_model/model_wrappers.py: checkpoints and weights *)

Module model_wrappers_extra.
Import Py model_wrappers model_wrappers_save.

(** *** Strings *)

Lemma append_cons (c : Ascii.ascii) (s t : string) : String c s +:+ t = String c (s +:+ t).
Proof. reflexivity. Qed.






Section SaveLoad.
Context {weights snapshot : Type}.
Variable keras_save_weights : weights -> snapshot.
Variable keras_load_weights : weights -> snapshot -> res weights.
Variables ckpt_dir_path suffix : string.



(** X6. Whatever Keras does with the files, a call of [load_weights] that
    returns keeps the names and the order of the networks and only appends
    to what was printed. *)
Theorem load_weights_keeps_names (fs : gmap string snapshot)
  (models models' : list (string * weights)) (stdout stdout' : list string) :
  load_weights keras_load_weights fs ckpt_dir_path suffix models stdout = OK (models', stdout') ->
  map fst models' = map fst models /\ exists printed, stdout' = stdout ++ printed.
Proof.
  revert models' stdout stdout'.
  induction models as [|[n m] models IH]; intros models' stdout stdout'; simpl.
  - intros [= <- <-]. split; [reflexivity|]. exists []. now rewrite app_nil_r.
  - destruct (fs !! ckpt_file_of ckpt_dir_path n suffix) as [snap|].
    + destruct (keras_load_weights m snap) as [m'|e]; simpl; [|discriminate].
      destruct (load_weights _ _ _ _ models _) as [[rest out]|e] eqn:Hrest; simpl;
        [|discriminate].
      intros [= <- <-].
      destruct (IH _ _ _ Hrest) as [Hnames [printed ->]].
      split; [simpl; now rewrite Hnames|].
      eexists. now rewrite <- app_assoc.
    + destruct (load_weights _ _ _ _ models _) as [[rest out]|e] eqn:Hrest; simpl;
        [|discriminate].
      intros [= <- <-].
      destruct (IH _ _ _ Hrest) as [Hnames [printed ->]].
      split; [simpl; now rewrite Hnames|].
      eexists. now rewrite <- app_assoc.
Qed.

End SaveLoad.


Lemma load_weights_keeps_names_witness :
  map fst [("depthnet"%string, 7); ("posenet"%string, 2)] = map fst two_nets
  /\ exists printed,
      ["===== depthnet weights loaded from ckpt/vode1/depthnet_ep10.h5"%string;
       "===== Failed to load weights of posenet, train from scratch ..."%string;
       "      tried to load file: ckpt/vode1/posenet_ep10.h5"%string] = [] ++ printed.
Proof.
  apply (load_weights_keeps_names (fun (_ snap : nat) => OK snap) "ckpt/vode1" "ep10"
           depth_only two_nets).
  vm_compute. reflexivity.
Defined.

(** *** The weights of the networks *)

Lemma trainable_weights_concat {W : Type} (models : list (string * list W)) :
  trainable_weights models = concat (map snd models).
Proof.
  unfold trainable_weights.
  assert (H : forall acc, fold_left (fun train_weights (m : string * list W) =>
                                       train_weights ++ m.2) models acc
                          = acc ++ concat (map snd models)).
  { induction models as [|m models IH]; intros acc; cbn [fold_left map concat].
    - now rewrite app_nil_r.
    - now rewrite IH, <- app_assoc. }
  apply H.
Qed.

Lemma models_get_In {W : Type} (models : list (string * W)) (key : string) (m : W) :
  models_get models key = Some m -> In (key, m) models.
Proof.
  induction models as [|[k m'] models IH]; cbn [models_get]; [discriminate|].
  destruct (String.eqb_spec k key) as [->|Hk].
  - intros [= ->]. now left.
  - intros H. right. now apply IH.
Qed.

(** X30. The weights [weights_to_regularize] returns are trainable weights
    of the model: every one of them is in the list [trainable_weights]
    returns. *)
Theorem weights_to_regularize_are_trainable {W : Type} (models : list (string * list W))
  (weights : list W) :
  weights_to_regularize models = Some weights ->
  Forall (fun w => In w (trainable_weights models)) weights.
Proof.
  unfold weights_to_regularize. destruct (models_get models "flownet") as [ws|] eqn:E;
    [|discriminate].
  intros [= ->]. apply List.Forall_forall. intros w Hw.
  rewrite trainable_weights_concat. apply in_concat. exists weights. split; [|exact Hw].
  apply in_map_iff. exists ("flownet"%string, weights). split; [reflexivity|].
  now apply models_get_In.
Qed.

Lemma weights_to_regularize_are_trainable_witness :
  Forall (fun w => In w (trainable_weights model_wrappers_examples.nets_with_flownet)) [3; 4].
Proof.
  apply (weights_to_regularize_are_trainable model_wrappers_examples.nets_with_flownet [3; 4]).
  reflexivity.
Defined.

End model_wrappers_extra.

(** ** model/synthesize/synthesize_base.py: shapes, grid and projection *)

Module synthesize_extra.
Import Py tf synthesize_base synthesize_grid.
Local Open Scope Q_scope.

(** X7. [read_shape] recovers the scale and the number of source frames:
    for source images of [n] stacked frames of [h * s] by [w * s] pixels and
    a depth map of [h] by [w] pixels it stores the scale [s], [n] source
    frames and the batch, height and width of the depth map. *)
Theorem read_shape_recovers (self : SynthesizeBatchBasic) (bs b n h w s c c' : nat) :
  (0 < h)%nat -> (0 < w)%nat -> (0 < s)%nat ->
  read_shape self [bs; n * (h * s); w * s; c]%nat [b; h; w; c']
  = OK (mkSynth b h w n s).
Proof.
  intros Hh Hw Hs. unfold read_shape.
  destruct (Nat.eqb_spec w 0); [lia|].
  rewrite (Nat.mul_comm w s), Nat.div_mul by lia.
  destruct (Nat.eqb_spec s 0); [lia|].
  destruct (Nat.eqb_spec h 0); [lia|]. simpl.
  replace (n * (h * s))%nat with (n * h * s)%nat by lia.
  rewrite Nat.div_mul, Nat.div_mul by lia. reflexivity.
Qed.

Lemma read_shape_recovers_witness :
  read_shape init [8; 4 * (128 * 2); 384 * 2; 3]%nat [8; 128; 384; 1]%nat
  = OK (mkSynth 8 128 384 4 2).
Proof. apply (read_shape_recovers init 8 8 4 128 384 2 3 1); lia. Defined.

(** X8. [read_shape] divides by zero when the depth map has width 0 or
    height 0, and also when it is wider than the source images, since the
    scale is then 0. *)
Theorem read_shape_zero_division (self : SynthesizeBatchBasic)
  (bs stacked_height width_orig c b h w c' : nat) :
  (w = 0 \/ width_orig < w \/ h = 0)%nat ->
  read_shape self [bs; stacked_height; width_orig; c] [b; h; w; c'] = Raise ZeroDivisionError.
Proof.
  intros H. unfold read_shape.
  destruct (Nat.eqb_spec w 0); [reflexivity|].
  destruct H as [H|[H|H]]; [lia| |].
  - rewrite Nat.div_small by lia. reflexivity.
  - subst h. rewrite orb_true_r. reflexivity.
Qed.

Lemma read_shape_zero_division_witness :
  read_shape init [8; 640; 384; 3]%nat [8; 128; 512; 1]%nat = Raise ZeroDivisionError.
Proof.
  apply (read_shape_zero_division init 8 640 384 3 8 128 512 1). right. left. lia.
Defined.

(** X9. [scale_intrinsic] tiles the constant row [self.batch] times: with
    intrinsic matrices of another batch size the concatenation fails. *)
Theorem scale_intrinsic_batch_mismatch (self : SynthesizeBatchBasic) (K : tensor3) (s : Q) :
  batch self <> length K ->
  scale_intrinsic self K s = Raise InvalidArgumentError.
Proof.
  intros Hne. unfold scale_intrinsic, slice_rows.
  destruct (forallb _ K); [|reflexivity]. simpl.
  unfold concat_axis1. rewrite !length_map, repeat_length.
  destruct (_ =? _)%nat eqn:E; [|reflexivity].
  apply Nat.eqb_eq in E. exfalso. apply Hne. symmetry. exact E.
Qed.

Lemma scale_intrinsic_batch_mismatch_witness :
  scale_intrinsic unit_camera two_intrinsics 2 = Raise InvalidArgumentError.
Proof.
  apply (scale_intrinsic_batch_mismatch unit_camera two_intrinsics 2). discriminate.
Defined.

(** *** pixel_meshgrid *)

Lemma length_linspace (a b : Q) (n : nat) : length (linspace a b n) = n.
Proof.
  destruct n as [|[|n]]; try reflexivity.
  unfold linspace. now rewrite length_map, length_seq.
Qed.

Lemma linspace_integers (n : nat) :
  (1 <= n)%nat ->
  Forall2 Qeq (linspace 0 (inject_Z (Z.of_nat n - Z.of_nat 1)) (n / 1))
              (map (fun i : nat => inject_Z (Z.of_nat i)) (seq 0 n)).
Proof.
  intros Hn. rewrite Nat.div_1_r.
  destruct n as [|[|n]]; [lia| |].
  - repeat constructor.
  - unfold linspace.
    apply Forall2_fmap, Forall_Forall2_diag, Forall_forall. intros i _.
    replace (Z.of_nat (S (S n)) - Z.of_nat 1)%Z with (Z.of_nat (S (S n) - 1)) by lia.
    assert (Hnz : ~ inject_Z (Z.of_nat (S (S n) - 1)) == 0).
    { replace (S (S n) - 1)%nat with (S n) by lia.
      unfold Qeq, inject_Z. simpl. lia. }
    field. exact Hnz.
Qed.

Lemma length_concat_const {A B : Type} (u : list A) (v : list B) :
  length (concat (map (fun _ => u) v)) = (length v * length u)%nat.
Proof. induction v as [|x v IH]; simpl; [reflexivity|]. now rewrite length_app, IH. Qed.

Lemma seq_shifted (a len : nat) : seq a len = map (fun k => (a + k)%nat) (seq 0 len).
Proof.
  revert a. induction len as [|len IH]; intros a; [reflexivity|].
  simpl. rewrite Nat.add_0_r. f_equal.
  rewrite (IH (S a)), (IH 1%nat), map_map.
  apply map_ext. intros k. lia.
Qed.

Lemma u_row (w : nat) (u : tensor1) {B : Type} (v : list B) :
  (1 <= w)%nat ->
  Forall2 Qeq u (map (fun i : nat => inject_Z (Z.of_nat i)) (seq 0 w)) ->
  Forall2 Qeq (concat (map (fun _ => u) v))
              (map (fun k : nat => inject_Z (Z.of_nat (k mod w))) (seq 0 (length v * w))).
Proof.
  intros Hw Hu. induction v as [|x v IH]; [constructor|].
  simpl. rewrite seq_app, map_app. apply Forall2_app.
  - replace (map (fun k : nat => inject_Z (Z.of_nat (k mod w))) (seq 0 w))
      with (map (fun i : nat => inject_Z (Z.of_nat i)) (seq 0 w)); [exact Hu|].
    apply map_ext_in. intros k Hk. apply in_seq in Hk.
    now rewrite Nat.mod_small by lia.
  - rewrite (seq_shifted (0 + w)), map_map.
    replace (map (fun k : nat => inject_Z (Z.of_nat ((0 + w + k) mod w))) (seq 0 (length v * w)))
      with (map (fun k : nat => inject_Z (Z.of_nat (k mod w))) (seq 0 (length v * w)));
      [exact IH|].
    apply map_ext. intros k.
    replace (0 + w + k)%nat with (k + 1 * w)%nat by lia.
    now rewrite Nat.Div0.mod_add.
Qed.

Lemma v_row (w : nat) (u : tensor1) (v : tensor1) (start : nat) :
  (1 <= w)%nat -> length u = w ->
  Forall2 Qeq v (map (fun i : nat => inject_Z (Z.of_nat i)) (seq start (length v))) ->
  Forall2 Qeq (concat (map (fun vi => map (fun _ => vi) u) v))
              (map (fun k : nat => inject_Z (Z.of_nat (k / w))) (seq (start * w) (length v * w))).
Proof.
  intros Hw Hu. revert start.
  induction v as [|vi v IH]; intros start Hv; [constructor|].
  simpl in Hv. apply Forall2_cons in Hv as [Hvi Hv].
  simpl. rewrite seq_app, map_app. apply Forall2_app.
  - rewrite (seq_shifted (start * w)), map_map. subst w.
    clear -Hvi Hw. 
    assert (Hgen : forall (l : tensor1) (f : nat -> Q),
               (forall k, (k < length l)%nat -> vi == f k) ->
               Forall2 Qeq (map (fun _ => vi) l) (map f (seq 0 (length l)))).
    { induction l as [|x l IHl]; intros f Hf; [constructor|].
      simpl. constructor; [apply Hf; simpl; lia|].
      rewrite (seq_shifted 1), map_map. apply IHl.
      intros k Hk. apply Hf. simpl. lia. }
    apply Hgen. intros k Hk. rewrite Hvi.
    replace (start * length u + k)%nat with (k + start * length u)%nat by lia.
    rewrite Nat.div_add by lia. rewrite Nat.div_small by lia. reflexivity.
  - replace (start * w + w)%nat with (S start * w)%nat by lia.
    apply IH. exact Hv.
Qed.

(** X10. With the default stride 1, [pixel_meshgrid] lists the pixels row
    by row: column [k] of the result is [(k mod width, k / width, 1)], for
    [k] below [height * width]. *)
Theorem pixel_meshgrid_row_major (height width : nat) :
  (1 <= height)%nat -> (1 <= width)%nat ->
  exists us vs,
    pixel_meshgrid height width 1 = OK [us; vs; repeat 1 (height * width)%nat]
    /\ Forall2 Qeq us (map (fun k : nat => inject_Z (Z.of_nat (k mod width)))
                           (seq 0 (height * width)))
    /\ Forall2 Qeq vs (map (fun k : nat => inject_Z (Z.of_nat (k / width)))
                           (seq 0 (height * width))).
Proof.
  intros Hh Hw.
  set (v := linspace 0 (inject_Z (Z.of_nat height - Z.of_nat 1)) (height / 1)).
  set (u := linspace 0 (inject_Z (Z.of_nat width - Z.of_nat 1)) (width / 1)).
  assert (Hlv : length v = height) by (unfold v; now rewrite length_linspace, Nat.div_1_r).
  assert (Hlu : length u = width) by (unfold u; now rewrite length_linspace, Nat.div_1_r).
  assert (Hrun : pixel_meshgrid height width 1
                 = OK [concat (map (fun _ => u) v);
                       concat (map (fun vi => map (fun _ => vi) u) v);
                       repeat 1 (height * width)%nat]).
  { unfold pixel_meshgrid, meshgrid. change (1 =? 0)%nat with false.
    cbv beta iota zeta. fold v. fold u. unfold tensor1 in *.
    now rewrite (length_concat_const u v), Hlv, Hlu, Nat.eqb_refl. }
  eexists. eexists. split; [exact Hrun|]. split.
  - replace (height * width)%nat with (length v * width)%nat by (now rewrite Hlv).
    apply u_row; [exact Hw|]. apply linspace_integers, Hw.
  - pose proof (v_row width u v 0 Hw Hlu) as H. rewrite Hlv in H.
    apply H. apply linspace_integers, Hh.
Qed.

Lemma pixel_meshgrid_row_major_witness :
  exists us vs,
    pixel_meshgrid 2 3 1 = OK [us; vs; repeat 1 (2 * 3)%nat]
    /\ Forall2 Qeq us (map (fun k : nat => inject_Z (Z.of_nat (k mod 3))) (seq 0 (2 * 3)))
    /\ Forall2 Qeq vs (map (fun k : nat => inject_Z (Z.of_nat (k / 3))) (seq 0 (2 * 3))).
Proof. apply (pixel_meshgrid_row_major 2 3); lia. Defined.

(** X11. With a stride of 2 or more, [pixel_meshgrid] fails on every image
    with pixels: the grid has fewer columns than the row of
    [height * width] ones it is concatenated with. *)
Theorem pixel_meshgrid_stride_not_one (height width stride : nat) :
  (1 <= height)%nat -> (1 <= width)%nat -> (2 <= stride)%nat ->
  pixel_meshgrid height width stride = Raise InvalidArgumentError.
Proof.
  intros Hh Hw Hs. unfold pixel_meshgrid, meshgrid.
  destruct (Nat.eqb_spec stride 0); [lia|].
  cbv beta iota zeta. unfold tensor1.
  rewrite (length_concat_const (A := Q) (B := Q)), !length_linspace.
  assert (Hlt : (height / stride * (width / stride) < height * width)%nat).
  { assert (height / stride < height)%nat by (apply Nat.div_lt; lia).
    assert (width / stride <= width)%nat by (apply Nat.Div0.div_le_upper_bound; nia).
    nia. }
  destruct (Nat.eqb_spec (height / stride * (width / stride)) (height * width)); [lia|].
  reflexivity.
Qed.

Lemma pixel_meshgrid_stride_not_one_witness :
  pixel_meshgrid 4 6 2 = Raise InvalidArgumentError.
Proof. apply (pixel_meshgrid_stride_not_one 4 6 2); lia. Defined.

(** *** transform_to_source *)

Lemma map_seq_nth (r : tensor1) (f : nat -> Q) (a : nat) :
  (forall j, (j < length r)%nat -> f (a + j)%nat == nth j r 0) ->
  Forall2 Qeq (map f (seq a (length r))) r.
Proof.
  revert a. induction r as [|x r IH]; intros a Hf; [constructor|].
  simpl. constructor.
  - rewrite <- (Nat.add_0_r a). apply (Hf 0%nat). simpl. lia.
  - apply IH. intros j Hj. replace (S a + j)%nat with (a + S j)%nat by lia.
    apply (Hf (S j)). simpl. lia.
Qed.

Lemma matmul_identity4 (n : nat) (m : tensor2) :
  is_4xn n m -> eq2 (matmul identity4 m) m.
Proof.
  intros [Hrows Hcols].
  destruct m as [|r0 [|r1 [|r2 [|r3 [|]]]]]; try discriminate.
  repeat match goal with H : Forall _ (_ :: _) |- _ => inversion H; clear H; subst end.
  unfold eq2, matmul, identity4. simpl hd. simpl map at 1.
  repeat constructor.
  - apply map_seq_nth. intros j _. unfold dot, column. simpl. lra.
  - replace (length r0) with (length r1) by congruence.
    apply map_seq_nth. intros j _. unfold dot, column. simpl. lra.
  - replace (length r0) with (length r2) by congruence.
    apply map_seq_nth. intros j _. unfold dot, column. simpl. lra.
  - replace (length r0) with (length r3) by congruence.
    apply map_seq_nth. intros j _. unfold dot, column. simpl. lra.
Qed.

(** X12. [transform_to_source] with identity poses leaves the points where
    they are: every source frame gets the target coordinates, entry by
    entry. *)
Theorem transform_to_source_identity (self : SynthesizeBatchBasic) (n : nat)
  (tgt_coords : tensor3) :
  Forall (is_4xn n) tgt_coords ->
  exists src_coords,
    transform_to_source self tgt_coords
                        (map (fun _ => repeat identity4 (num_src self)) tgt_coords)
    = OK src_coords
    /\ eq4 src_coords (map (fun c : tensor2 => repeat c (num_src self)) tgt_coords).
Proof.
  intros Hshape. unfold transform_to_source.
  rewrite shape_facts.batch_matmul_same_shape.
  2:{ apply Forall2_fmap, Forall_Forall2_diag, Forall_forall. intros c _.
      now rewrite !repeat_length. }
  eexists. split; [reflexivity|].
  unfold eq4. induction Hshape as [|c cs Hc _ IH]; [constructor|].
  simpl. constructor; [|exact IH].
  generalize (num_src self) as k. intros k.
  induction k as [|k IHk]; [constructor|].
  simpl. constructor; [now apply (matmul_identity4 n)|exact IHk].
Qed.

Lemma transform_to_source_identity_witness :
  exists src_coords,
    transform_to_source unit_camera synthesize_examples.two_points
                        (map (fun _ => repeat identity4 (num_src unit_camera))
                             synthesize_examples.two_points)
    = OK src_coords
    /\ eq4 src_coords (map (fun c : tensor2 => repeat c (num_src unit_camera))
                           synthesize_examples.two_points).
Proof.
  apply (transform_to_source_identity unit_camera 2 synthesize_examples.two_points).
  repeat constructor.
Defined.

(** *** cam2pixel on points in front of the camera *)

Lemma depth_row_nonneg (n : nat) (K m : tensor2) :
  is_intrinsic K -> in_front n m ->
  Forall (fun z => 0 <= z) (hd [] (slice 2 3 (matmul K (take 3 m)))).
Proof.
  intros (k0 & k1 & -> & _ & _) [[Hrows Hcols] Hz].
  destruct m as [|r0 [|r1 [|r2 [|r3 [|]]]]]; try discriminate.
  cbn [nth] in Hz. unfold matmul, slice. cbn [take map drop hd Nat.sub].
  apply Forall_fmap, Forall_forall. intros j _. unfold compose, dot, column.
  cbn [map zip_with reduce_sum fold_right].
  assert (Hj : 0 <= nth j r2 0).
  { destruct (nth_in_or_default j r2 0) as [Hin| ->]; [|apply Qle_refl].
    rewrite Forall_forall in Hz. apply Hz. now apply list_elem_of_In. }
  lra.
Qed.

(** X13. [cam2pixel] divides by no zero for points that are not behind the
    camera: with intrinsic matrices whose last row is [0 0 1] and camera
    points of depth 0 or more, no returned coordinate is a division by
    zero. *)
Theorem cam2pixel_no_zero_division_in_front_of_camera (self : SynthesizeBatchBasic) (n : nat)
  (cam_coords : tensor4) (intrinsic : tensor3) :
  length intrinsic = length cam_coords ->
  Forall (fun pts : tensor3 => length pts = num_src self) cam_coords ->
  Forall is_intrinsic intrinsic ->
  Forall (Forall (in_front n)) cam_coords ->
  exists pixel_coords,
    cam2pixel self cam_coords intrinsic = OK pixel_coords
    /\ no_zero_division pixel_coords = true.
Proof.
  intros Hlen Hsrc HK Hfront.
  set (pix := zip_with (zip_with matmul)
                       (map (fun K : tensor2 => repeat K (num_src self)) intrinsic)
                       (map (map (take 3)) cam_coords)).
  assert (Hmm : cam2pixel_matmul self cam_coords intrinsic = OK pix).
  { unfold cam2pixel_matmul. apply shape_facts.batch_matmul_same_shape.
    apply Forall2_fmap. clear - Hlen Hsrc. revert intrinsic Hlen.
    induction Hsrc as [|pts cam_coords Hpts _ IH]; intros [|K intrinsic] Hlen;
      try discriminate; constructor.
    - now rewrite repeat_length, length_map.
    - apply IH. now injection Hlen. }
  assert (Hdepth : Forall (fun z => 0 <= z) (pixel_depths pix)).
  { unfold pixel_depths, pix. apply Forall_concat, Forall_fmap.
    apply (list_facts.Forall_zip_with_both
             (Forall is_intrinsic) (Forall (fun m => exists m', m = take 3 m' /\ in_front n m'))).
    - intros Ks pts HKs Hpts. unfold compose.
      apply Forall_concat, Forall_fmap.
      apply (list_facts.Forall_zip_with_both
               is_intrinsic (fun m => exists m', m = take 3 m' /\ in_front n m'));
        [|exact HKs|exact Hpts].
      intros K m HKm (m' & -> & Hm'). unfold compose.
      now apply (depth_row_nonneg n).
    - apply Forall_fmap. eapply Forall_impl; [exact HK|].
      intros K HKb. unfold compose. now apply list_facts.Forall_repeat.
    - apply Forall_fmap. eapply Forall_impl; [exact Hfront|].
      intros pts Hpts. unfold compose. apply Forall_fmap.
      eapply Forall_impl; [exact Hpts|]. intros m Hm. unfold compose. now exists m. }
  exists (map (map (map (map in_range))) (map (map normalized) pix)).
  split; [|apply synthesize_base_props.no_zero_division_in_range].
  unfold cam2pixel. rewrite Hmm. cbn [Py.bind].
  f_equal. apply synthesize_base_props.normalize_all.
  now apply synthesize_base_props.nonnegative_depth_admitted.
Qed.

Lemma cam2pixel_no_zero_division_in_front_of_camera_witness :
  exists pixel_coords,
    cam2pixel unit_camera plane_and_far_points identity_intrinsic = OK pixel_coords
    /\ no_zero_division pixel_coords = true.
Proof.
  apply (cam2pixel_no_zero_division_in_front_of_camera unit_camera 2 plane_and_far_points
           identity_intrinsic).
  - reflexivity.
  - repeat constructor.
  - repeat constructor. eexists _, _. repeat split.
  - repeat constructor; discriminate.
Defined.

End synthesize_extra.

(** ** model/loss_and_metric/loss_util.py: the L1 loss *)

Module loss_util_extra.
Import Py tf loss_util losses_keys.
Local Open Scope Q_scope.

Lemma reduce_sum_nonneg (l : tensor1) : Forall (fun x => 0 <= x) l -> 0 <= reduce_sum l.
Proof.
  induction 1 as [|x l Hx _ IH]; simpl; [apply Qle_refl|].
  cbv beta in Hx. lra.
Qed.

Lemma reduce_sum_all_zero (l : tensor1) : Forall (fun x => x == 0) l -> reduce_sum l == 0.
Proof.
  induction 1 as [|x l Hx _ IH]; simpl; [reflexivity|].
  cbv beta in Hx. rewrite Hx, IH. lra.
Qed.

Lemma div_count_nonneg (a : Q) (n : nat) : 0 <= a -> 0 <= a / inject_Z (Z.of_nat n).
Proof.
  intros Ha. unfold Qdiv. apply Qmult_le_0_compat; [exact Ha|].
  apply Qinv_le_0_compat. unfold Qle, inject_Z. simpl. lia.
Qed.

Lemma abs_error_nonneg (p q : tensor1) : Forall (fun x => 0 <= x) (abs_error p q).
Proof.
  unfold abs_error. revert q.
  induction p as [|s p IH]; intros [|o q]; cbn [zip_with]; try (constructor; fail).
  constructor; [apply Qabs_nonneg|apply IH].
Qed.

Lemma abs_error_sum_nonneg (pairs : list (tensor1 * tensor1)) : 0 <= abs_error_sum pairs.
Proof.
  unfold abs_error_sum. apply reduce_sum_nonneg, Forall_forall.
  intros x Hx. apply list_elem_of_In, in_map_iff in Hx as [[p q] [<- _]].
  apply reduce_sum_nonneg, abs_error_nonneg.
Qed.

(** X14. [photometric_loss_l1] is never negative: on images with entries,
    the loss of every example of the batch is 0 or more. *)
Theorem photometric_loss_l1_nonnegative (synt_target : tensor5) (orig_target : tensor4) :
  Forall has_entries4 (photo_error_l1 synt_target orig_target) ->
  Forall (fun loss => 0 <= loss) (photometric_loss_l1 synt_target orig_target).
Proof.
  intros _. unfold photometric_loss_l1, photo_error_l1. revert orig_target.
  induction synt_target as [|synt_b synt_target IH]; intros [|orig_b orig_target];
    simpl; try (constructor; fail).
  constructor; [|apply IH].
  unfold reduce_mean.
  rewrite loss_util_props.example_error_sum.
  apply div_count_nonneg, abs_error_sum_nonneg.
Qed.

Lemma photometric_loss_l1_nonnegative_witness :
  Forall (fun loss => 0 <= loss) (photometric_loss_l1 synt_half_black orig_gray).
Proof.
  apply (photometric_loss_l1_nonnegative synt_half_black orig_gray).
  repeat constructor. vm_compute. discriminate.
Defined.

(** The loss of one example when the errors of its unmasked pixels sum to 0. *)
Lemma example_loss_zero (synt_b : tensor4) (orig_b : tensor3) :
  abs_error_sum (unmasked (pixel_pairs synt_b orig_b)) == 0 ->
  reduce_mean (flatten4 (map (fun synt_image => image_error_l1 synt_image orig_b) synt_b)) == 0.
Proof.
  intros H. unfold reduce_mean.
  rewrite loss_util_props.example_error_sum, H. unfold Qdiv. lra.
Qed.

Lemma abs_error_same (p : tensor1) : reduce_sum (abs_error p p) == 0.
Proof.
  unfold abs_error. induction p as [|x p IH]; cbn [zip_with reduce_sum fold_right];
    [reflexivity|].
  unfold reduce_sum in IH. rewrite IH.
  assert (Hx : x - x == 0) by lra. rewrite Hx. reflexivity.
Qed.

Lemma same_pairs_zero (pairs : list (tensor1 * tensor1)) :
  Forall (fun pr : tensor1 * tensor1 => pr.1 = pr.2) pairs ->
  abs_error_sum (unmasked pairs) == 0.
Proof.
  intros Hsame. unfold abs_error_sum, unmasked.
  apply reduce_sum_all_zero, Forall_forall. intros x Hx.
  apply list_elem_of_In, in_map_iff in Hx as [[p q] [<- Hin]].
  apply filter_In in Hin as [Hin _].
  rewrite Forall_forall in Hsame.
  specialize (Hsame (p, q) (proj2 (list_elem_of_In _ _) Hin)). simpl in Hsame. subst q.
  apply abs_error_same.
Qed.

Lemma zip_pair_same {A : Type} (l : list A) :
  Forall (fun pr : A * A => pr.1 = pr.2) (zip_with pair l l).
Proof. induction l as [|x l IH]; simpl; [constructor|]. constructor; [reflexivity|exact IH]. Qed.

Lemma pixel_pairs_image_same (im : tensor3) :
  Forall (fun pr : tensor1 * tensor1 => pr.1 = pr.2) (pixel_pairs_image im im).
Proof.
  unfold pixel_pairs_image. induction im as [|row im IH]; simpl; [constructor|].
  apply Forall_app. split; [apply zip_pair_same|exact IH].
Qed.

Lemma pixel_pairs_same (synt_b : tensor4) (orig_b : tensor3) :
  Forall (fun synt_image => synt_image = orig_b) synt_b ->
  Forall (fun pr : tensor1 * tensor1 => pr.1 = pr.2) (pixel_pairs synt_b orig_b).
Proof.
  unfold pixel_pairs. induction 1 as [|im synt_b Him _ IH]; simpl; [constructor|].
  apply Forall_app. split; [|exact IH]. subst im. apply pixel_pairs_image_same.
Qed.

Lemma l1_loss_of_copies (synt_target : tensor5) (orig_target : tensor4) :
  Forall2 (fun (synt_b : tensor4) (orig_b : tensor3) =>
             Forall (fun synt_image => synt_image = orig_b) synt_b)
          synt_target orig_target ->
  Forall (fun loss => loss == 0) (photometric_loss_l1 synt_target orig_target).
Proof.
  unfold photometric_loss_l1, photo_error_l1.
  induction 1 as [|synt_b orig_b synt_target orig_target Hb _ IH]; simpl; [constructor|].
  constructor; [|exact IH].
  apply example_loss_zero, same_pairs_zero, pixel_pairs_same, Hb.
Qed.

(** X15. When every synthesized view is an exact copy of the target image,
    [photometric_loss_l1] is 0 for every example. *)
Theorem photometric_loss_l1_exact_copy (synt_target : tensor5) (orig_target : tensor4) :
  Forall has_entries4 (photo_error_l1 synt_target orig_target) ->
  Forall2 (fun (synt_b : tensor4) (orig_b : tensor3) =>
             Forall (fun synt_image => synt_image = orig_b) synt_b)
          synt_target orig_target ->
  Forall (fun loss => loss == 0) (photometric_loss_l1 synt_target orig_target).
Proof. intros _. exact (l1_loss_of_copies synt_target orig_target). Qed.

Lemma masked_pairs_zero (pairs : list (tensor1 * tensor1)) :
  Forall (fun pr : tensor1 * tensor1 => error_mask pr.1 = true) pairs ->
  abs_error_sum (unmasked pairs) == 0.
Proof.
  intros Hmask. unfold unmasked.
  replace (List.filter _ pairs) with (@nil (tensor1 * tensor1)); [reflexivity|].
  symmetry. induction Hmask as [|pr pairs Hpr _ IH]; simpl; [reflexivity|].
  now rewrite Hpr.
Qed.

Lemma photometric_loss_l1_exact_copy_witness :
  Forall (fun loss => loss == 0) (photometric_loss_l1 losses_examples.synt_copies orig_gray).
Proof.
  apply (photometric_loss_l1_exact_copy losses_examples.synt_copies orig_gray).
  - repeat constructor. vm_compute. discriminate.
  - repeat constructor.
Defined.

Lemma zip_pair_fst {A B : Type} (P : A -> Prop) (l : list A) (k : list B) :
  Forall P l -> Forall (fun pr : A * B => P pr.1) (zip_with pair l k).
Proof.
  intros H. revert k.
  induction H as [|x l Hx _ IH]; intros [|y k]; simpl; try (constructor; fail).
  constructor; [exact Hx|apply IH].
Qed.

Lemma pixel_pairs_masked (synt_b : tensor4) (orig_b : tensor3) :
  Forall (Forall (Forall (fun px => error_mask px = true))) synt_b ->
  Forall (fun pr : tensor1 * tensor1 => error_mask pr.1 = true) (pixel_pairs synt_b orig_b).
Proof.
  unfold pixel_pairs. induction 1 as [|im synt_b Him _ IH]; simpl; [constructor|].
  apply Forall_app. split; [|exact IH].
  unfold pixel_pairs_image. clear IH. revert orig_b.
  induction Him as [|row im Hrow _ IHim]; intros [|orow orig_b]; simpl;
    try (constructor; fail).
  apply Forall_app. split; [|apply IHim].
  now apply (zip_pair_fst (fun px => error_mask px = true)).
Qed.

(** X16. A synthesized view whose pixels all have channel mean 0 (a source
    that never falls into the target view) is masked out completely:
    [photometric_loss_l1] is 0 whatever the target image is. *)
Theorem photometric_loss_l1_all_masked (synt_target : tensor5) (orig_target : tensor4) :
  Forall has_entries4 (photo_error_l1 synt_target orig_target) ->
  Forall (Forall (Forall (Forall (fun px => error_mask px = true)))) synt_target ->
  Forall (fun loss => loss == 0) (photometric_loss_l1 synt_target orig_target).
Proof.
  unfold photometric_loss_l1, photo_error_l1. intros _ H. revert orig_target.
  induction H as [|synt_b synt_target Hb _ IH]; intros [|orig_b orig_target]; simpl;
    try (constructor; fail).
  constructor; [|apply IH].
  apply example_loss_zero, masked_pairs_zero, pixel_pairs_masked, Hb.
Qed.

Lemma photometric_loss_l1_all_masked_witness :
  Forall (fun loss => loss == 0) (photometric_loss_l1 losses_examples.synt_black orig_gray).
Proof.
  apply (photometric_loss_l1_all_masked losses_examples.synt_black orig_gray).
  - repeat constructor. vm_compute. discriminate.
  - repeat constructor.
Defined.

End loss_util_extra.

(** ** model/loss_and_metric/losses.py: the loss terms *)

Module losses_extra.
Import Py tf loss_util losses losses_keys list_facts losses_props.
Local Open Scope Q_scope.

Section TotalLossExtra.
Variable ops : TFOps.

Lemma total_loop_length (features predictions augm_data : gmap string pyval)
  (pairs : list (LossTerm * Q)) :
  forall losses result,
    outcome (total_loop ops pairs features predictions augm_data losses) = OK result ->
    length result = (length losses + length pairs)%nat.
Proof.
  induction pairs as [|[t w] pairs IH]; intros losses result; cbn [total_loop].
  - intros [= <-]. cbn [length]. lia.
  - intros H. apply outcome_bindM_OK in H as [v [_ H]].
    apply IH in H. rewrite length_app in H. cbn [length] in *. lia.
Qed.

(** X17. [TotalLoss.__call__] pairs the loss terms with the weights by
    [zip]: when it returns, the number of losses is the smaller of the two
    counts, so terms without a weight are dropped without an error, and the
    total is the sum of the losses returned. *)
Theorem TotalLoss_call_truncates_to_weights (self : TotalLoss)
  (predictions features : gmap string pyval) (total_loss : Q) (losses : list Q) :
  outcome (TotalLoss_call ops self predictions features) = OK (total_loss, losses) ->
  total_loss = reduce_sum losses
  /\ length losses = Nat.min (length (calc_losses self)) (length (loss_weights self)).
Proof.
  unfold TotalLoss_call. intros H.
  apply outcome_bindM_OK in H as [augm_data [_ H]].
  apply outcome_bindM_OK in H as [ls [Hloop H]].
  apply total_loop_length in Hloop.
  apply outcome_bindM_OK in H as [ls' [Hls' H]].
  injection Hls' as <-.
  apply outcome_bindM_OK in H as [tot [Htot H]].
  injection Htot as <-. injection H as <- <-.
  split; [reflexivity|].
  rewrite Hloop. cbn [length]. now rewrite length_zip_with.
Qed.

(** *** L2Regularizer *)

Lemma l2_loss_app (a b : tensor1) : l2_loss (a ++ b) == l2_loss a + l2_loss b.
Proof.
  unfold l2_loss. rewrite map_app, loss_util_props.reduce_sum_app. field.
Qed.

Lemma l2_loss_nonneg (t : tensor1) : 0 <= l2_loss t.
Proof.
  unfold l2_loss.
  assert (H : 0 <= reduce_sum (map (fun x => x * x) t)).
  { apply loss_util_extra.reduce_sum_nonneg, Forall_forall. intros y Hy.
    apply list_elem_of_In, in_map_iff in Hy as [x [<- _]]. nra. }
  unfold Qdiv. apply Qmult_le_0_compat; [exact H|]. discriminate.
Qed.

Lemma l2_loop_sum (weights : list tensor1) :
  forall loss, exists v,
    outcome (l2_loop weights loss) = OK v /\ v == loss + l2_loss (concat weights).
Proof.
  induction weights as [|w weights IH]; intros loss; cbn [l2_loop concat].
  - exists loss. split; [reflexivity|]. unfold l2_loss. cbn. field.
  - destruct (IH (loss + l2_loss w)) as [v [Hrun Hv]].
    exists v. rewrite losses_props.outcome_bindM. cbn [outcome launch snd].
    split; [exact Hrun|]. rewrite Hv, l2_loss_app. ring.
Qed.

(** X18. [L2Regularizer] with a list of weight tensors returns half the sum
    of the squares of all their entries, which is never negative; without
    tensors it returns 0. *)
Theorem L2Regularizer_is_l2_of_all_weights (weights : list tensor1) :
  exists v,
    outcome (L2Regularizer_call (Some weights)) = OK v
    /\ v == l2_loss (concat weights)
    /\ 0 <= v.
Proof.
  destruct (l2_loop_sum weights 0) as [v [Hrun Hv]].
  exists v. split; [exact Hrun|].
  assert (Heq : v == l2_loss (concat weights)) by (rewrite Hv; ring).
  split; [exact Heq|]. rewrite Heq. apply l2_loss_nonneg.
Qed.

(** X19. For a model without a flow network, [weights_to_regularize] is
    [None] and the regularizer built from it cannot iterate: the term
    raises TypeError, and every [TotalLoss] that has it among its weighted
    terms raises an exception. *)
Theorem regularizer_without_flownet (self : TotalLoss)
  (models : list (string * list tensor1)) (predictions features : gmap string pyval) :
  model_wrappers_save.models_get models "flownet" = None ->
  In (L2Regularizer (model_wrappers_save.weights_to_regularize models)) (calc_losses self) ->
  length (loss_weights self) = length (calc_losses self) ->
  L2Regularizer_call (model_wrappers_save.weights_to_regularize models)
  = ([], Raise TypeError)
  /\ exists e, outcome (TotalLoss_call ops self predictions features) = Raise e.
Proof.
  intros Hnone Hin Hlen.
  assert (Hw : model_wrappers_save.weights_to_regularize models = None).
  { unfold model_wrappers_save.weights_to_regularize. now rewrite Hnone. }
  split; [now rewrite Hw|].
  apply (losses_props.TotalLoss_call_never_skips ops self predictions features _ Hin Hlen).
  intros augm_data. exists TypeError. cbn [LossTerm_call]. now rewrite Hw.
Qed.

(** *** The keys of the augmented data *)

(** X20. [augment_data] adds the flow entries only when the predictions
    hold a flow pyramid: without one, [FlowWarpLossMultiScale] fails on its
    first lookup with KeyError "flow_target_ms" + suffix, before any tensor
    computation of its own. *)
Theorem FlowWarp_without_flow_prediction (self : TotalLoss)
  (features predictions augm_data : gmap string pyval) (f : photometric) (key_suffix : string) :
  predictions !! "flow_ms"%string = None ->
  predictions !! "flow_ms_R"%string = None ->
  outcome (augment_all ops self features predictions) = OK augm_data ->
  LossTerm_call ops (FlowWarpLossMultiScale f key_suffix) features predictions augm_data
  = ([], Raise (KeyError ("flow_target_ms" +:+ key_suffix))).
Proof.
  intros Hflow HflowR Haugm.
  assert (Hkey : augm_data !! ("flow_target_ms" +:+ key_suffix) = None).
  { unfold augment_all in Haugm.
    apply outcome_bindM_OK in Haugm as [left [Hleft Haugm]].
    apply augment_data_result in Hleft
      as (src & tgt & tms & syn & [[_ ->]|(ft & wt & Hsome & _)]);
      [|now destruct Hsome].
    destruct (stereo self).
    - apply outcome_bindM_OK in Haugm as [right [Hright Haugm]].
      apply augment_data_result in Hright
        as (srcR & tgtR & tmsR & synR & [[_ ->]|(ft & wt & Hsome & _)]);
        [|now destruct Hsome].
      injection Haugm as <-.
      apply lookup_union_None. split; apply base_augm_no_flow_key.
    - injection Haugm as <-. apply base_augm_no_flow_key. }
  cbn [LossTerm_call]. unfold FlowWarpLossMultiScale_call, get_list4, getitem.
  now rewrite Hkey.
Qed.

(** X21. [StereoDepthLoss] reads the right-camera entries that
    [TotalLoss] adds only with [stereo=True]: in a [TotalLoss] without
    stereo it fails on its first lookup with KeyError "target_R". *)
Theorem StereoDepthLoss_needs_stereo (self : TotalLoss)
  (features predictions augm_data : gmap string pyval) (f : photometric) :
  stereo self = false ->
  outcome (augment_all ops self features predictions) = OK augm_data ->
  LossTerm_call ops (StereoDepthLoss f) features predictions augm_data
  = ([], Raise (KeyError "target_R")).
Proof.
  intros Hmono Haugm.
  assert (Hkey : augm_data !! "target_R"%string = None).
  { unfold augment_all in Haugm. rewrite Hmono in Haugm.
    apply outcome_bindM_OK in Haugm as [left [Hleft Haugm]].
    injection Haugm as <-.
    apply augment_data_result in Hleft
      as (src & tgt & tms & syn & [[_ ->]|(ft & wt & _ & ->)]);
      unfold base_augm; rewrite !lookup_insert_ne by differ; apply lookup_empty. }
  cbn [LossTerm_call]. unfold StereoDepthLoss_call, get_tensor4, getitem.
  now rewrite Hkey.
Qed.

(** *** Smoothness *)

Lemma reduce_mean_abs_nonneg (l : tensor1) : 0 <= reduce_mean (map Qabs l).
Proof.
  unfold reduce_mean. apply loss_util_extra.div_count_nonneg.
  apply loss_util_extra.reduce_sum_nonneg, Forall_forall. intros y Hy.
  apply list_elem_of_In, in_map_iff in Hy as [x [<- _]]. apply Qabs_nonneg.
Qed.

(** X22. [smootheness_loss] is never negative, for every disparity map and
    image whose gradients have entries and whatever [tf.exp] returns. *)
Theorem smootheness_loss_nonnegative (disp image : tensor4) :
  has_entries4 (weighted (gradient_x disp) (edge_weights ops (gradient_x image))) ->
  has_entries4 (weighted (gradient_y disp) (edge_weights ops (gradient_y image))) ->
  0 <= smootheness_loss ops disp image.
Proof.
  intros _ _. unfold smootheness_loss.
  pose proof (reduce_mean_abs_nonneg
                (flatten4 (weighted (gradient_x disp) (edge_weights ops (gradient_x image))))).
  pose proof (reduce_mean_abs_nonneg
                (flatten4 (weighted (gradient_y disp) (edge_weights ops (gradient_y image))))).
  lra.
Qed.

Lemma pixel_sub_same (c : tensor1) : zeros1 (pixel_sub c c).
Proof.
  unfold zeros1, pixel_sub. induction c as [|x c IH]; cbn [zip_with]; constructor;
    [|exact IH].
  unfold Qminus. apply Qplus_opp_r.
Qed.

Lemma gradient_x_flat (c : tensor1) (disp : tensor4) :
  Forall (Forall (Forall (fun px => px = c))) disp -> zeros4 (gradient_x disp).
Proof.
  intros H. unfold gradient_x, zeros4, zeros3.
  apply Forall_fmap. eapply Forall_impl; [exact H|]. intros im Him. cbv beta.
  apply Forall_fmap. eapply Forall_impl; [exact Him|]. intros row Hrow. cbv beta.
  unfold row_gradient.
  apply (Forall_zip_with_both (fun px => px = c) (fun px => px = c));
    [|now apply Forall_removelast|now apply Forall_tail].
  intros x y -> ->. apply pixel_sub_same.
Qed.

Lemma gradient_y_flat (c : tensor1) (disp : tensor4) :
  Forall (Forall (Forall (fun px => px = c))) disp -> zeros4 (gradient_y disp).
Proof.
  intros H. unfold gradient_y, zeros4.
  apply Forall_fmap. eapply Forall_impl; [exact H|]. intros im Him. cbv beta.
  apply (Forall_zip_with_both (Forall (fun px => px = c)) (Forall (fun px => px = c)));
    [|now apply Forall_removelast|now apply Forall_tail].
  intros r r' Hr Hr'.
  apply (Forall_zip_with_both (fun px => px = c) (fun px => px = c)); [|exact Hr|exact Hr'].
  intros x y -> ->. apply pixel_sub_same.
Qed.

Lemma weighted_zeros (g w : tensor4) : zeros4 g -> zeros4 (weighted g w).
Proof.
  unfold weighted, zeros4, zeros3, zeros2. intros H.
  apply (Forall_zip_with_both zeros3 (fun _ => True));
    [|exact H|apply Forall_forall; tauto].
  intros im wim Him _.
  apply (Forall_zip_with_both zeros2 (fun _ => True));
    [|exact Him|apply Forall_forall; tauto].
  intros row wrow Hrow _.
  apply (Forall_zip_with_both zeros1 (fun _ => True));
    [|exact Hrow|apply Forall_forall; tauto].
  intros px wpx Hpx _. unfold times_weight, zeros1 in *.
  apply Forall_fmap. eapply Forall_impl; [exact Hpx|].
  intros d Hd. unfold compose. cbv beta in *.
  transitivity (0 * hd 0 wpx); [apply Qmult_comp; [exact Hd|reflexivity]|ring].
Qed.

Lemma flatten4_zeros (t : tensor4) : zeros4 t -> zeros1 (flatten4 t).
Proof.
  unfold zeros4, zeros3, zeros2, zeros1, flatten4, flatten3, flatten2. intros H.
  apply Forall_concat, Forall_fmap. eapply Forall_impl; [exact H|]. intros im Him. cbv beta.
  apply Forall_concat, Forall_fmap. eapply Forall_impl; [exact Him|]. intros row Hrow. cbv beta.
  apply Forall_concat. exact Hrow.
Qed.

Lemma reduce_mean_abs_zeros (l : tensor1) : zeros1 l -> reduce_mean (map Qabs l) == 0.
Proof.
  intros H. unfold reduce_mean.
  rewrite loss_util_extra.reduce_sum_all_zero; [unfold Qdiv; ring|].
  apply Forall_fmap. eapply Forall_impl; [exact H|].
  intros x Hx. unfold compose. cbv beta in *.
  transitivity (Qabs 0); [apply Qabs_wd; exact Hx|reflexivity].
Qed.

(** X23. A constant disparity map has smoothness loss 0, whatever the
    image is. *)
Theorem smootheness_loss_flat_disparity (c : tensor1) (disp image : tensor4) :
  has_entries4 (weighted (gradient_x disp) (edge_weights ops (gradient_x image))) ->
  has_entries4 (weighted (gradient_y disp) (edge_weights ops (gradient_y image))) ->
  Forall (Forall (Forall (fun px => px = c))) disp ->
  smootheness_loss ops disp image == 0.
Proof.
  intros _ _ Hflat. unfold smootheness_loss.
  rewrite !reduce_mean_abs_zeros; [ring| |].
  - apply flatten4_zeros, weighted_zeros, (gradient_y_flat c), Hflat.
  - apply flatten4_zeros, weighted_zeros, (gradient_x_flat c), Hflat.
Qed.

(** *** The photometric term *)

Lemma outcome_get_list5 (d : gmap string pyval) (key : string) (l : list tensor5) :
  d !! key = Some (PList5 l) -> outcome (get_list5 d key) = OK l.
Proof. intros H. unfold get_list5, getitem. now rewrite H. Qed.

Lemma photo_loop_ok (f : photometric) (lambda_name : nat -> work)
  (pairs : list (tensor5 * tensor4)) :
  forall (i : nat) (losses : list tensor1),
    outcome (photo_loop ops f lambda_name i pairs losses)
    = OK (losses ++ map (fun pr : tensor5 * tensor4 => run_photometric ops f pr.1 pr.2) pairs).
Proof.
  induction pairs as [|[synt orig] pairs IH]; intros i losses; cbn [photo_loop map].
  - now rewrite app_nil_r.
  - rewrite losses_props.outcome_bindM. cbn [outcome launch snd fst].
    rewrite IH, <- app_assoc. reflexivity.
Qed.

(** X24. [PhotometricLossMultiScale] with the L1 loss returns 0 when, at
    every scale, every synthesized view is an exact copy of the target of
    that scale. *)
Theorem PhotometricLossMultiScale_exact_copy (key_suffix : string)
  (features predictions augm_data : gmap string pyval)
  (synth_target_ms : list tensor5) (target_ms : list tensor4) :
  augm_data !! ("target_ms" +:+ key_suffix) = Some (PList4 target_ms) ->
  augm_data !! ("synth_target_ms" +:+ key_suffix) = Some (PList5 synth_target_ms) ->
  Forall2 (fun (synt : tensor5) (orig : tensor4) =>
             Forall has_entries4 (photo_error_l1 synt orig))
          synth_target_ms target_ms ->
  Forall2 (fun (synt : tensor5) (orig : tensor4) =>
             Forall2 (fun (synt_b : tensor4) (orig_b : tensor3) =>
                        Forall (fun synt_image => synt_image = orig_b) synt_b)
                     synt orig)
          synth_target_ms target_ms ->
  exists v,
    outcome (PhotometricLossMultiScale_call ops L1 key_suffix features predictions augm_data)
    = OK v
    /\ v == 0.
Proof.
  intros Htarget Hsynth _ Hcopy.
  eexists. split.
  - unfold PhotometricLossMultiScale_call.
    rewrite losses_props.outcome_bindM, (losses_props.outcome_get_list4 _ _ _ Htarget).
    rewrite losses_props.outcome_bindM, (outcome_get_list5 _ _ _ Hsynth).
    rewrite losses_props.outcome_bindM, photo_loop_ok. reflexivity.
  - unfold reduce_sum_vectors. cbn [app].
    apply loss_util_extra.reduce_sum_all_zero.
    apply Forall_concat, Forall_fmap.
    eapply Forall_impl; [exact (Forall2_zip _ _ _ Hcopy)|].
    intros [synt orig] Hpr. unfold compose. cbn [fst snd run_photometric] in *.
    now apply loss_util_extra.l1_loss_of_copies.
Qed.

End TotalLossExtra.

Lemma TotalLoss_call_truncates_to_weights_witness :
  (0 # 6) = reduce_sum [0 # 6]
  /\ length [0 # 6] = Nat.min (length (calc_losses losses_examples.photo_l2_one_weight))
                              (length (loss_weights losses_examples.photo_l2_one_weight)).
Proof.
  apply (TotalLoss_call_truncates_to_weights toy_ops losses_examples.photo_l2_one_weight
           toy_predictions toy_features (0 # 6) [0 # 6]).
  vm_compute. reflexivity.
Defined.

Lemma regularizer_without_flownet_witness :
  L2Regularizer_call
    (model_wrappers_save.weights_to_regularize losses_examples.nets_without_flownet)
  = ([], Raise TypeError)
  /\ exists e, outcome (TotalLoss_call toy_ops losses_examples.photo_then_l2_none
                                       toy_predictions toy_features)
               = Raise e.
Proof.
  apply (regularizer_without_flownet toy_ops losses_examples.photo_then_l2_none
           losses_examples.nets_without_flownet toy_predictions toy_features).
  - reflexivity.
  - right. left. reflexivity.
  - reflexivity.
Defined.

Lemma FlowWarp_without_flow_prediction_witness :
  LossTerm_call toy_ops (FlowWarpLossMultiScale L1 "") toy_features toy_predictions
                toy_augm_data
  = ([], Raise (KeyError ("flow_target_ms" +:+ ""))).
Proof.
  apply (FlowWarp_without_flow_prediction toy_ops photo_then_l2 toy_features toy_predictions
           toy_augm_data L1 "").
  - reflexivity.
  - reflexivity.
  - vm_compute. reflexivity.
Defined.

Lemma StereoDepthLoss_needs_stereo_witness :
  LossTerm_call toy_ops (StereoDepthLoss L1) toy_features toy_predictions toy_augm_data
  = ([], Raise (KeyError "target_R")).
Proof.
  apply (StereoDepthLoss_needs_stereo toy_ops photo_then_l2 toy_features toy_predictions
           toy_augm_data L1).
  - reflexivity.
  - vm_compute. reflexivity.
Defined.

Lemma smootheness_loss_nonnegative_witness :
  0 <= smootheness_loss toy_ops (hd [] pyramid_disp) (hd [] pyramid_target).
Proof.
  apply (smootheness_loss_nonnegative toy_ops (hd [] pyramid_disp) (hd [] pyramid_target)).
  - vm_compute. discriminate.
  - vm_compute. discriminate.
Defined.

Lemma smootheness_loss_flat_disparity_witness :
  smootheness_loss toy_ops losses_examples.flat_disp losses_examples.some_image == 0.
Proof.
  apply (smootheness_loss_flat_disparity toy_ops [1 # 2] losses_examples.flat_disp
           losses_examples.some_image).
  - vm_compute. discriminate.
  - vm_compute. discriminate.
  - repeat constructor.
Defined.

Lemma PhotometricLossMultiScale_exact_copy_witness :
  exists v,
    outcome (PhotometricLossMultiScale_call toy_ops L1 "" toy_features toy_predictions
                                            toy_augm_data) = OK v
    /\ v == 0.
Proof.
  apply (PhotometricLossMultiScale_exact_copy toy_ops "" toy_features toy_predictions
           toy_augm_data [ [ [ [ [ [1; 1; 1]; [3; 3; 3] ] ] ] ] ]
           [ [ [ [ [1; 1; 1]; [3; 3; 3] ] ] ] ]).
  - reflexivity.
  - reflexivity.
  - repeat constructor. vm_compute. discriminate.
  - repeat constructor.
Defined.

End losses_extra.

(** ** prepare_data/readers/city_reader.py: drives, frames and paths *)

Module city_reader_extra.
Import Py city_reader.
Local Open Scope py_scope.

(** *** Strings *)

Lemma append_nil_l (t : string) : "" +:+ t = t.
Proof. reflexivity. Qed.

Lemma append_nil_r (s : string) : s +:+ "" = s.
Proof. induction s as [|c s IH]; [reflexivity|]. now rewrite model_wrappers_extra.append_cons, IH. Qed.

Lemma append_assoc (a b c : string) : (a +:+ b) +:+ c = a +:+ (b +:+ c).
Proof. induction a as [|x a IH]; [reflexivity|]. now rewrite !model_wrappers_extra.append_cons, IH. Qed.

Lemma has_char_app (c : ascii) (a b : string) :
  has_char c (a +:+ b) = has_char c a || has_char c b.
Proof.
  induction a as [|x a IH]; [reflexivity|].
  rewrite model_wrappers_extra.append_cons. cbn [has_char]. rewrite IH. now rewrite orb_assoc.
Qed.

Lemma str_split_nonempty (sep : ascii) (s : string) : str_split sep s <> [].
Proof.
  destruct s as [|c r]; cbn [str_split]; [discriminate|].
  destruct (Ascii.eqb c sep); [discriminate|].
  destruct (str_split sep r); discriminate.
Qed.

Lemma str_split_app (sep : ascii) (a b : string) :
  str_split sep (a +:+ String sep b) = str_split sep a ++ str_split sep b.
Proof.
  induction a as [|c a IH].
  - rewrite append_nil_l. cbn [str_split]. now rewrite Ascii.eqb_refl.
  - rewrite model_wrappers_extra.append_cons. cbn [str_split]. rewrite IH.
    destruct (Ascii.eqb c sep); [reflexivity|].
    pose proof (str_split_nonempty sep a) as Hne.
    destruct (str_split sep a) as [|h t]; [contradiction|reflexivity].
Qed.

Lemma str_split_no_sep (sep : ascii) (s : string) :
  has_char sep s = false -> str_split sep s = [s].
Proof.
  induction s as [|c s IH]; [reflexivity|].
  cbn [has_char str_split]. intros H. apply orb_false_elim in H as [Hc Hs].
  now rewrite Hc, (IH Hs).
Qed.

Lemma str_join_split (sep : ascii) (s : string) :
  str_join (String sep "") (str_split sep s) = s.
Proof.
  induction s as [|c s IH]; [reflexivity|].
  cbn [str_split].
  pose proof (str_split_nonempty sep s) as Hne.
  destruct (Ascii.eqb_spec c sep) as [->|Hc].
  - destruct (str_split sep s) as [|h t]; [contradiction|].
    change (str_join (String sep "") ("" :: h :: t))
      with ("" +:+ String sep "" +:+ str_join (String sep "") (h :: t)).
    now rewrite IH.
  - destruct (str_split sep s) as [|h [|t1 t]]; [contradiction| |].
    + cbn [str_join] in *. now rewrite IH.
    + change (str_join (String sep "") (String c h :: t1 :: t))
        with (String c h +:+ String sep "" +:+ str_join (String sep "") (t1 :: t)).
      change (str_join (String sep "") (h :: t1 :: t))
        with (h +:+ String sep "" +:+ str_join (String sep "") (t1 :: t)) in IH.
      now rewrite model_wrappers_extra.append_cons, IH.
Qed.

Lemma last_app_nonempty {A : Type} (l k : list A) (d : A) :
  k <> [] -> List.last (l ++ k) d = List.last k d.
Proof.
  intros Hk. induction l as [|x l IH]; [reflexivity|].
  cbn [app]. destruct (l ++ k) eqn:E.
  - apply app_eq_nil in E as [_ ->]. contradiction.
  - rewrite <- E, <- IH. rewrite E. reflexivity.
Qed.

Lemma removelast_snoc {A : Type} (l : list A) (x : A) : removelast (l ++ [x]) = l.
Proof. apply removelast_last. Qed.

Lemma getitem_neg_last {A : Type} (l : list A) (x : A) : getitem_neg (l ++ [x]) 1 = OK x.
Proof.
  unfold getitem_neg. rewrite length_app. cbn [length].
  destruct (Nat.leb_spec 1 (length l + 1)); [|lia].
  replace (length l + 1 - 1) with (length l + 0) by lia.
  now rewrite lookup_app_r, Nat.add_0_r, Nat.sub_diag by lia.
Qed.

(** *** Paths *)

Lemma op_basename_after_slash (p x : string) :
  op_basename (p +:+ String "/" x) = op_basename x.
Proof.
  unfold op_basename. rewrite str_split_app.
  apply last_app_nonempty, str_split_nonempty.
Qed.

Lemma op_basename_plain (x : string) : has_char "/" x = false -> op_basename x = x.
Proof. intros H. unfold op_basename. now rewrite str_split_no_sep. Qed.

Lemma endswith_sep_snoc (a : string) :
  endswith_sep a = true -> exists a', a = a' +:+ "/".
Proof.
  induction a as [|c [|d a] IH]; cbn [endswith_sep]; [discriminate| |].
  - intros H. apply Ascii.eqb_eq in H as ->. now exists "".
  - intros H. destruct (IH H) as [a' Ha']. exists (String c a').
    now rewrite model_wrappers_extra.append_cons, <- Ha'.
Qed.

Lemma op_basename_join (a x : string) : op_basename (op_join a x) = op_basename x.
Proof.
  unfold op_join.
  destruct (startswith_sep x); [reflexivity|].
  destruct (String.eqb_spec a "") as [->|Ha]; cbn [orb].
  - now rewrite append_nil_l.
  - destruct (endswith_sep a) eqn:E.
    + destruct (endswith_sep_snoc a E) as [a' ->].
      rewrite append_assoc. apply op_basename_after_slash.
    + apply op_basename_after_slash.
Qed.

Lemma all_sep_app (a b : string) : all_sep (a +:+ b) = all_sep a && all_sep b.
Proof.
  induction a as [|c a IH]; [reflexivity|].
  rewrite model_wrappers_extra.append_cons. cbn [all_sep]. now rewrite IH, andb_assoc.
Qed.

Lemma all_sep_false (a : string) : a <> "" -> endswith_sep a = false -> all_sep a = false.
Proof.
  induction a as [|c [|d a] IH]; [congruence| |].
  - intros _ H. cbn [endswith_sep] in H. cbn [all_sep]. now rewrite H.
  - intros _ H. cbn [all_sep]. change (endswith_sep (String c (String d a)))
      with (endswith_sep (String d a)) in H.
    change (all_sep (String d a)) with (Ascii.eqb d "/" && all_sep a).
    assert (all_sep (String d a) = false) as E by (apply IH; [discriminate|exact H]).
    cbn [all_sep] in E. rewrite E. apply andb_false_r.
Qed.

Lemma rstrip_sep_slash (a : string) : rstrip_sep (a +:+ "/") = rstrip_sep a.
Proof.
  induction a as [|c a IH]; [reflexivity|].
  rewrite model_wrappers_extra.append_cons. cbn [rstrip_sep]. now rewrite IH.
Qed.

Lemma rstrip_sep_id (a : string) : endswith_sep a = false -> rstrip_sep a = a.
Proof.
  induction a as [|c [|d a] IH]; [reflexivity| |].
  - cbn [endswith_sep rstrip_sep]. now intros ->.
  - intros H. change (endswith_sep (String c (String d a)))
      with (endswith_sep (String d a)) in H.
    change (rstrip_sep (String c (String d a)))
      with (match rstrip_sep (String d a) with
            | EmptyString => if Ascii.eqb c "/" then "" else String c ""
            | r' => String c r'
            end).
    now rewrite (IH H).
Qed.

Lemma op_dirname_child (dir x : string) :
  dir <> "" -> endswith_sep dir = false -> has_char "/" x = false ->
  op_dirname (dir +:+ String "/" x) = dir.
Proof.
  intros Hne Hend Hx. unfold op_dirname.
  rewrite str_split_app, (str_split_no_sep _ x Hx), removelast_snoc.
  pose proof (str_split_nonempty "/" dir) as Hs.
  pose proof (str_join_split "/" dir) as Hj.
  destruct (str_split "/" dir) as [|h t]; [contradiction|].
  rewrite Hj.
  assert (String.eqb (dir +:+ "/") "" = false) as ->
    by (destruct dir; [congruence|reflexivity]).
  rewrite all_sep_app, (all_sep_false dir Hne Hend). cbn [negb andb].
  now rewrite rstrip_sep_slash, rstrip_sep_id.
Qed.

Lemma startswith_sep_plain (a b : string) (c : ascii) :
  has_char "/" a = false -> Ascii.eqb c "/" = false ->
  startswith_sep (a +:+ String c b) = false.
Proof.
  destruct a as [|x a]; [now rewrite append_nil_l|].
  rewrite model_wrappers_extra.append_cons. cbn [has_char startswith_sep].
  now intros [H _]%orb_false_elim.
Qed.

Lemma op_join_child (dir x : string) :
  dir <> "" -> endswith_sep dir = false -> startswith_sep x = false ->
  op_join dir x = dir +:+ String "/" x.
Proof.
  intros Hne Hend Hx. unfold op_join. rewrite Hx, Hend.
  destruct (String.eqb_spec dir ""); [contradiction|reflexivity].
Qed.

(** The name [_list_frames] gives to the image file of one frame. *)
Lemma frame_name_of_image_file (self : CityScapesReader) (dir seq fid : string) :
  dir <> "" -> endswith_sep dir = false ->
  has_char "/" seq = false -> has_char "/" fid = false ->
  let drive_path := dir +:+ String "/" seq in
  let frame_name := drive_path +:+ String "_" fid in
  frame_name_of drive_path (_make_file_path self left_img_dir frame_name "png" true)
  = frame_name.
Proof.
  intros Hne Hend Hseq Hfid drive_path frame_name.
  unfold frame_name_of, _make_file_path, op_join3. rewrite op_basename_join.
  subst frame_name drive_path. unfold left_img_dir.
  rewrite !append_assoc. rewrite model_wrappers_extra.append_cons, op_basename_after_slash.
  change (String "_" fid +:+ "_" +:+ "leftImg8bit" +:+ "." +:+ "png")
    with (String "_" (fid +:+ String "_" "leftImg8bit.png")).
  rewrite op_basename_plain
    by (rewrite has_char_app, Hseq; cbn [has_char orb]; rewrite has_char_app, Hfid;
        reflexivity).
  replace (seq +:+ String "_" (fid +:+ String "_" "leftImg8bit.png"))
    with ((seq +:+ String "_" fid) +:+ String "_" "leftImg8bit.png")
    by (now rewrite append_assoc, model_wrappers_extra.append_cons).
  rewrite str_split_app.
  change (str_split "_" "leftImg8bit.png") with ["leftImg8bit.png"].
  rewrite removelast_snoc, str_join_split, (op_dirname_child dir seq Hne Hend Hseq).
  rewrite op_join_child; [now rewrite model_wrappers_extra.append_cons|exact Hne|exact Hend|].
  now apply startswith_sep_plain.
Qed.

(** The last component of a name split at underscores. *)
Lemma last_component (p x : string) :
  has_char "_" x = false -> getitem_neg (str_split "_" (p +:+ String "_" x)) 1 = OK x.
Proof.
  intros Hx. rewrite str_split_app, (str_split_no_sep _ x Hx). apply getitem_neg_last.
Qed.

(** *** Sorting *)

Lemma insert_sorted_perm (s : string) (l : list string) :
  Permutation (insert_sorted s l) (s :: l).
Proof.
  induction l as [|x l IH]; [reflexivity|].
  cbn [insert_sorted]. destruct (String.leb s x); [reflexivity|].
  rewrite IH. apply perm_swap.
Qed.

Lemma sort_strings_perm (l : list string) : Permutation (sort_strings l) l.
Proof.
  induction l as [|x l IH]; [reflexivity|].
  cbn [sort_strings fold_right]. fold (sort_strings l).
  now rewrite insert_sorted_perm, IH.
Qed.

Lemma leb_total (a b : string) : String.leb a b = false -> String.leb b a = true.
Proof. intros H. destruct (String.leb_total a b) as [E|E]; congruence. Qed.

Lemma leb_trans (a b c : string) :
  String.leb a b = true -> String.leb b c = true -> String.leb a c = true.
Proof.
  intros H1 H2.
  assert (String.le a c) as H.
  { transitivity b; unfold String.le; [now rewrite H1|now rewrite H2]. }
  unfold String.le in H. now destruct (String.leb a c).
Qed.

Lemma insert_sorted_sorted (s : string) (l : list string) :
  sorted l -> sorted (insert_sorted s l).
Proof.
  induction 1 as [|x l Hx Hl IH]; cbn [insert_sorted].
  - constructor; constructor.
  - destruct (String.leb s x) eqn:E.
    + constructor; [|now constructor].
      constructor; [exact E|].
      eapply Forall_impl; [exact Hx|]. intros y Hy. cbv beta in *.
      eapply leb_trans; eassumption.
    + constructor; [|exact IH].
      rewrite (insert_sorted_perm s l). constructor; [now apply leb_total|exact Hx].
Qed.

Lemma sort_strings_sorted (l : list string) : sorted (sort_strings l).
Proof.
  induction l as [|x l IH]; [constructor|].
  cbn [sort_strings fold_right]. now apply insert_sorted_sorted.
Qed.

(** *** Lists of results *)

Lemma map_res_ok {A B : Type} (f : A -> res B) (l : list A) :
  Forall (fun x => exists y, f x = OK y) l ->
  exists ys, map_res f l = OK ys /\ Forall2 (fun x y => f x = OK y) l ys.
Proof.
  induction 1 as [|x l [y Hy] _ [ys [Hys HF]]].
  - exists []. split; [reflexivity|constructor].
  - exists (y :: ys). cbn [map_res]. rewrite Hy, Hys. split; [reflexivity|].
    now constructor.
Qed.

Lemma map_res_map {A B C : Type} (f : A -> res B) (h : C -> A) (g : C -> B) (l : list C) :
  Forall (fun x => f (h x) = OK (g x)) l -> map_res f (map h l) = OK (map g l).
Proof.
  induction 1 as [|x l Hx _ IH]; [reflexivity|].
  cbn [map_res map]. now rewrite Hx, IH.
Qed.

Lemma map_res_raises {A B : Type} (f : A -> res B) (l : list A) (e : exn) :
  map_res f l = Raise e -> exists x, In x l /\ f x = Raise e.
Proof.
  induction l as [|x l IH]; [discriminate|].
  cbn [map_res]. destruct (f x) as [y|e'] eqn:Hx.
  - destruct (map_res f l) as [ys|e'']; [discriminate|].
    intros [= ->]. destruct (IH eq_refl) as [x' [Hin Hx']].
    exists x'. split; [now right|exact Hx'].
  - intros [= ->]. exists x. split; [now left|exact Hx].
Qed.

Lemma map_res_first_raise {A B : Type} (f : A -> res B) (l : list A) (x : A) (e : exn) :
  In x l -> f x = Raise e -> exists e', map_res f l = Raise e'.
Proof.
  induction l as [|a l IH]; [contradiction|].
  intros [->|Hin] Hx; cbn [map_res].
  - rewrite Hx. now exists e.
  - destruct (f a) as [y|e']; [|now exists e'].
    destruct (IH Hin Hx) as [e' ->]. now exists e'.
Qed.

Section FileSystemFacts.
Variable glob : string -> list string.
Variable listdir : string -> res (list string).
Variable isdir : string -> bool.
Variable py_int : string -> res Z.

(** X25. [_list_frames]: when the glob returns the image files of the
    frames [fids] of a drive [dir/seq], the frame names returned are the
    names [dir/seq_fid] in sorted order, one per file, the count is the
    number of files, the indices are the frame ids read as integers, and
    the image path [get_image] builds from every returned name is one of
    the files listed. *)
Theorem list_frames_names_every_image (self : CityScapesReader) (dir seq : string)
  (fids : list string) :
  dir <> "" -> endswith_sep dir = false -> has_char "/" seq = false ->
  let drive_path := dir +:+ String "/" seq in
  let image_of := fun name => _make_file_path self left_img_dir name "png" true in
  glob (image_of (drive_path +:+ "_*"))
    = map (fun fid => image_of (drive_path +:+ String "_" fid)) fids ->
  Forall (fun fid => has_char "/" fid = false /\ has_char "_" fid = false /\
                     exists z, py_int fid = OK z) fids ->
  exists names indices,
    _list_frames glob py_int self drive_path = OK (names, indices, length fids) /\
    Permutation names (map (fun fid => drive_path +:+ String "_" fid) fids) /\
    sorted names /\
    Forall2 (fun name z => exists fid, name = drive_path +:+ String "_" fid /\
                                       py_int fid = OK z) names indices /\
    Forall (fun name => In (image_of name) (glob (image_of (drive_path +:+ "_*")))) names.
Proof.
  intros Hne Hend Hseq drive_path image_of Hglob Hfids.
  unfold _list_frames. fold drive_path. fold (image_of (drive_path +:+ "_*")).
  rewrite Hglob, map_map.
  assert (map (fun fid => frame_name_of drive_path (image_of (drive_path +:+ String "_" fid))) fids
          = map (fun fid => drive_path +:+ String "_" fid) fids) as ->.
  { apply map_ext_in. intros fid Hin.
    rewrite List.Forall_forall in Hfids. destruct (Hfids fid Hin) as [Hs _].
    now apply frame_name_of_image_file. }
  set (names := sort_strings (map (fun fid => drive_path +:+ String "_" fid) fids)).
  assert (Permutation names (map (fun fid => drive_path +:+ String "_" fid) fids)) as Hperm
    by apply sort_strings_perm.
  assert (Forall (fun name => exists fid, In fid fids /\ name = drive_path +:+ String "_" fid /\
                                          has_char "_" fid = false /\
                                          exists z, py_int fid = OK z) names) as Hnames.
  { rewrite Hperm. apply List.Forall_forall. intros name Hin.
    apply in_map_iff in Hin as [fid [<- Hin]].
    rewrite List.Forall_forall in Hfids. destruct (Hfids fid Hin) as [_ [Hu Hz]].
    exists fid. now repeat split. }
  destruct (map_res_ok
              (fun file => let* last := getitem_neg (str_split "_" file) 1 in py_int last)
              names) as [indices [Hidx HF2]].
  { eapply Forall_impl; [exact Hnames|]. intros name [fid [_ [-> [Hu [z Hz]]]]].
    exists z. now rewrite last_component. }
  exists names, indices. rewrite Hidx.
  assert (length names = length fids) as ->
    by (rewrite (Permutation_length Hperm); apply length_map).
  split; [reflexivity|]. split; [exact Hperm|]. split; [apply sort_strings_sorted|].
  split.
  - clear Hidx Hperm. induction HF2 as [|name z names' idx' Hz _ IH]; [constructor|].
    apply Forall_cons_1 in Hnames as [[fid [_ [-> [Hu _]]]] Hrest].
    constructor; [|now apply IH].
    exists fid. split; [reflexivity|]. now rewrite last_component in Hz.
  - eapply Forall_impl; [exact Hnames|]. intros name [fid [Hin [-> _]]].
    apply in_map_iff. now exists fid.
Qed.

Lemma str_split_last_plain (sep : ascii) (a x : string) :
  has_char sep x = false ->
  str_split sep (a +:+ x)
  = removelast (str_split sep a) ++ [List.last (str_split sep a) "" +:+ x].
Proof.
  intros Hx. induction a as [|c a IH].
  - rewrite append_nil_l. now rewrite str_split_no_sep.
  - rewrite model_wrappers_extra.append_cons. cbn [str_split]. rewrite IH.
    pose proof (str_split_nonempty sep a) as Hne.
    destruct (Ascii.eqb c sep); destruct (str_split sep a) as [|h [|t1 t]];
      try contradiction; reflexivity.
Qed.

Lemma op_basename_suffix (a x : string) :
  has_char "/" x = false -> op_basename (a +:+ x) = op_basename a +:+ x.
Proof.
  intros Hx. unfold op_basename. rewrite (str_split_last_plain _ a x Hx).
  now rewrite last_app_nonempty by discriminate.
Qed.

(** X26. [get_filename]: for a frame name that ends in an underscore and a
    frame id, with neither slash nor underscore in the id, the result is
    the frame id, whatever precedes it. *)
Theorem get_filename_is_frame_id (self : CityScapesReader) (i : nat) (prefix fid : string) :
  frame_names self !! i = Some (prefix +:+ String "_" fid) ->
  has_char "/" fid = false -> has_char "_" fid = false ->
  get_filename self i = OK fid.
Proof.
  intros Hi Hs Hu. unfold get_filename, getitem. rewrite Hi. cbn [bind].
  rewrite op_basename_suffix by (cbn [has_char]; now rewrite Hs).
  now apply last_component.
Qed.

Lemma getitem_neg_third {A : Type} (l : list A) (a b c : A) :
  getitem_neg (l ++ [a; b; c]) 3 = OK a.
Proof.
  unfold getitem_neg. rewrite length_app. cbn [length].
  destruct (Nat.leb_spec 3 (length l + 3)); [|lia].
  replace (length l + 3 - 3) with (length l + 0) by lia.
  now rewrite lookup_app_r, Nat.add_0_r, Nat.sub_diag by lia.
Qed.

Lemma third_from_end (p seq fid rest : string) :
  has_char "_" seq = false -> has_char "_" fid = false -> has_char "_" rest = false ->
  getitem_neg
    (str_split "_" (p +:+ String "_" (seq +:+ String "_" (fid +:+ String "_" rest)))) 3
  = OK seq.
Proof.
  intros Hs Hf Hr.
  rewrite !str_split_app, (str_split_no_sep _ seq Hs), (str_split_no_sep _ fid Hf),
    (str_split_no_sep _ rest Hr).
  apply getitem_neg_third.
Qed.

Lemma getitem_neg_short {A : Type} (l : list A) (k : nat) :
  length l < k -> getitem_neg l k = Raise IndexError.
Proof. intros H. unfold getitem_neg. now destruct (Nat.leb_spec k (length l)); [lia|]. Qed.

Lemma getitem_neg_raises {A : Type} (l : list A) (k : nat) (e : exn) :
  getitem_neg l k = Raise e -> e = IndexError /\ (length l < k \/ k = 0).
Proof.
  unfold getitem_neg. destruct (Nat.leb_spec k (length l)) as [H|H].
  - destruct (l !! (length l - k)) eqn:E; [discriminate|].
    intros [= <-]. split; [reflexivity|]. apply lookup_ge_None in E. right. lia.
  - intros [= <-]. split; [reflexivity|now left].
Qed.

Lemma sorted_set_spec (l : list string) :
  NoDup (sorted_set l) /\ sorted (sorted_set l) /\ forall s, In s (sorted_set l) <-> In s l.
Proof.
  unfold sorted_set. split; [|split].
  - rewrite sort_strings_perm. apply NoDup_remove_dups.
  - apply sort_strings_sorted.
  - intros s. rewrite <- !list_elem_of_In, sort_strings_perm. apply elem_of_remove_dups.
Qed.

(** X27. The loop body of [list_drive_paths]: when every file the glob
    lists for a city is named [<prefix>_<seq>_<frame>_<rest>], the city
    yields the paths [split/city/city_<seq>] of its sequence numbers, each
    number once however many frames it has, in sorted order. *)
Theorem city_sequences_once_each (self : CityScapesReader) (split_path city : string)
  (files : list (string * string * string * string)) :
  glob (op_join3 split_path city "*.png")
    = map (fun '(p, seq, fid, rest) =>
             p +:+ String "_" (seq +:+ String "_" (fid +:+ String "_" rest))) files ->
  Forall (fun '(p, seq, fid, rest) =>
            has_char "_" seq = false /\ has_char "_" fid = false /\
            has_char "_" rest = false) files ->
  exists seqs,
    city_sequences glob self split_path city
      = OK (map (fun seq => op_join3 (split self) city (city +:+ "_" +:+ seq)) seqs) /\
    NoDup seqs /\ sorted seqs /\
    forall s, In s seqs <-> exists p fid rest, In (p, s, fid, rest) files.
Proof.
  intros Hglob Hfiles.
  set (seq_of := fun f : string * string * string * string => snd (fst (fst f))).
  exists (sorted_set (map seq_of files)).
  unfold city_sequences. rewrite Hglob.
  rewrite (map_res_map _ _ seq_of).
  - cbn [bind]. repeat split; try apply sorted_set_spec.
    + intros Hin. apply sorted_set_spec, in_map_iff in Hin as [[[[p seq] fid] rest] [<- Hin]].
      now exists p, fid, rest.
    + intros [p [fid [rest Hin]]]. apply sorted_set_spec, in_map_iff.
      now exists (p, s, fid, rest).
  - clear Hglob. induction Hfiles as [|[[[p seq] fid] rest] files' [Hs [Hf Hr]] _ IH];
      [constructor|].
    constructor; [|exact IH]. now apply third_from_end.
Qed.

Lemma cities_loop_raises (self : CityScapesReader) (split_path : string)
  (cities acc : list string) (e : exn) :
  cities_loop glob self split_path cities acc = Raise e ->
  exists city, In city cities /\ city_sequences glob self split_path city = Raise e.
Proof.
  revert acc. induction cities as [|city rest IH]; intros acc; [discriminate|].
  cbn [cities_loop]. destruct (city_sequences glob self split_path city) as [paths|e'] eqn:E.
  - cbn [bind]. intros H. destruct (IH _ H) as [c [Hin Hc]].
    exists c. split; [now right|exact Hc].
  - intros [= ->]. exists city. split; [now left|exact E].
Qed.

Lemma city_sequences_outcome (self : CityScapesReader) (split_path city : string) :
  (exists paths, city_sequences glob self split_path city = OK paths /\
     Forall (fun file => 3 <= length (str_split "_" file))
            (glob (op_join3 split_path city "*.png"))) \/
  (city_sequences glob self split_path city = Raise IndexError /\
     Exists (fun file => length (str_split "_" file) < 3)
            (glob (op_join3 split_path city "*.png"))).
Proof.
  unfold city_sequences.
  destruct (map_res (fun file => getitem_neg (str_split "_" file) 3)
              (glob (op_join3 split_path city "*.png"))) as [seqs|e] eqn:E.
  - left. eexists. split; [reflexivity|].
    apply List.Forall_forall. intros file Hin.
    destruct (Nat.le_gt_cases 3 (length (str_split "_" file))) as [H|H]; [exact H|].
    destruct (map_res_first_raise (fun file => getitem_neg (str_split "_" file) 3) _ file
                IndexError Hin (getitem_neg_short _ 3 H)) as [e' He'].
    congruence.
  - right. destruct (map_res_raises _ _ _ E) as [file [Hin Hf]]. cbv beta in Hf.
    destruct (getitem_neg_raises _ _ _ Hf) as [-> [Hlen|Hk]]; [|discriminate].
    split; [reflexivity|]. apply List.Exists_exists. now exists file.
Qed.

(** X28. The outcomes of [list_drive_paths]: it returns a list exactly
    when the split directory exists, [os.listdir] lists it and every png
    file of every city directory has at least two underscores in its path;
    a missing directory raises WrongInputException naming the path, a
    failure of [os.listdir] is passed on, and a file with fewer underscores
    raises IndexError. *)
Theorem list_drive_paths_outcome (self : CityScapesReader) :
  let split_path := op_join3 (base_path self) (left_img_dir +:+ dir_suffix self) (split self) in
  let cities_of := fun names => List.filter (fun city => isdir (op_join split_path city)) names in
  let well_named := fun city =>
    Forall (fun file => 3 <= length (str_split "_" file))
           (glob (op_join3 split_path city "*.png")) in
  match list_drive_paths glob listdir isdir self with
  | OK _ =>
      isdir split_path = true
      /\ exists names, listdir split_path = OK names /\ Forall well_named (cities_of names)
  | Raise e =>
      (isdir split_path = false
       /\ e = WrongInputException ("[list_sequence_paths] path does NOT exist:" +:+ split_path))
      \/ (isdir split_path = true /\ listdir split_path = Raise e)
      \/ (isdir split_path = true
          /\ e = IndexError
          /\ exists names, listdir split_path = OK names /\ ~ Forall well_named (cities_of names))
  end.
Proof.
  intros split_path cities_of well_named. unfold list_drive_paths.
  fold split_path.
  destruct (isdir split_path) eqn:Hdir; cbn [negb]; [|left; split; reflexivity].
  destruct (listdir split_path) as [names|e] eqn:Hlist; cbn [bind];
    [|right; left; split; reflexivity].
  fold (cities_of names).
  destruct (cities_loop glob self split_path (cities_of names) []) as [total|e] eqn:E.
  - split; [reflexivity|]. exists names. split; [reflexivity|].
    apply List.Forall_forall. intros city Hin.
    destruct (city_sequences_outcome self split_path city) as [[paths [_ H]]|[Hr _]];
      [exact H|].
    exfalso. clear -E Hin Hr. revert E. generalize (@nil string).
    induction (cities_of names) as [|c rest IH]; intros acc; [contradiction|].
    cbn [cities_loop]. destruct Hin as [->|Hin].
    + now rewrite Hr.
    + destruct (city_sequences glob self split_path c); [|discriminate].
      cbn [bind]. now apply IH.
  - destruct (cities_loop_raises _ _ _ _ _ E) as [city [Hin Hc]].
    destruct (city_sequences_outcome self split_path city) as [[paths [H _]]|[Hr Hex]];
      [congruence|].
    rewrite Hr in Hc. injection Hc as <-. right. right.
    split; [reflexivity|]. split; [reflexivity|]. exists names. split; [reflexivity|].
    intros Hall. rewrite List.Forall_forall in Hall. specialize (Hall city Hin).
    unfold well_named in Hall. apply List.Exists_exists in Hex as [file [Hf Hlt]].
    rewrite List.Forall_forall in Hall. specialize (Hall file Hf). lia.
Qed.

End FileSystemFacts.

Lemma list_frames_names_every_image_witness :
  let drive_path := "train/bochum" +:+ String "/" "bochum_000000" in
  let image_of :=
    fun name => _make_file_path city_examples.bochum_reader left_img_dir name "png" true in
  exists names indices,
    _list_frames city_examples.bochum_glob city_examples.int_of_digits
                 city_examples.bochum_reader drive_path
      = OK (names, indices, length ["000313"; "000012"]) /\
    Permutation names (map (fun fid => drive_path +:+ String "_" fid) ["000313"; "000012"]) /\
    sorted names /\
    Forall2 (fun name z => exists fid, name = drive_path +:+ String "_" fid /\
                                       city_examples.int_of_digits fid = OK z)
            names indices /\
    Forall (fun name => In (image_of name)
                           (city_examples.bochum_glob (image_of (drive_path +:+ "_*"))))
           names.
Proof.
  apply (list_frames_names_every_image city_examples.bochum_glob city_examples.int_of_digits
           city_examples.bochum_reader "train/bochum" "bochum_000000" ["000313"; "000012"]).
  - discriminate.
  - reflexivity.
  - reflexivity.
  - reflexivity.
  - repeat constructor; eexists; reflexivity.
Defined.

Lemma get_filename_is_frame_id_witness :
  get_filename city_examples.bochum_reader 1 = OK "000313".
Proof.
  apply (get_filename_is_frame_id city_examples.bochum_reader 1 "train/bochum/bochum_000000"
           "000313");
    reflexivity.
Defined.

Lemma city_sequences_once_each_witness :
  exists seqs,
    city_sequences city_examples.bochum_glob city_examples.bochum_reader
                   "/data/city/leftImg8bit_sequence/train" "bochum"
      = OK (map (fun seq => op_join3 (split city_examples.bochum_reader) "bochum"
                                     ("bochum" +:+ "_" +:+ seq))
                seqs) /\
    NoDup seqs /\ sorted seqs /\
    forall s, In s seqs <->
      exists p fid rest,
        In (p, s, fid, rest)
           [("/data/city/leftImg8bit_sequence/train/bochum/bochum", "000001", "000007",
             "leftImg8bit.png");
            ("/data/city/leftImg8bit_sequence/train/bochum/bochum", "000000", "000313",
             "leftImg8bit.png");
            ("/data/city/leftImg8bit_sequence/train/bochum/bochum", "000000", "000012",
             "leftImg8bit.png")].
Proof.
  apply (city_sequences_once_each city_examples.bochum_glob city_examples.bochum_reader
           "/data/city/leftImg8bit_sequence/train" "bochum").
  - reflexivity.
  - repeat constructor.
Defined.

(** X29. [make_saving_paths] keeps only the last component of the drive
    path: the image directory of the drive [dir/seq] is [dstpath/seq]
    without the city directory, the depth directory is its [depth] child,
    and there is no pose directory. *)
Theorem make_saving_paths_keeps_last_component (dstpath dir seq : string) :
  has_char "/" seq = false ->
  make_saving_paths dstpath (dir +:+ String "/" seq)
  = (op_join dstpath seq, None, Some (op_join (op_join dstpath seq) "depth")).
Proof.
  intros Hseq. unfold make_saving_paths.
  now rewrite op_basename_after_slash, op_basename_plain.
Qed.

Lemma make_saving_paths_keeps_last_component_witness :
  make_saving_paths "/data/srcdata/cityscapes_train"
                    ("train/bochum" +:+ String "/" "bochum_000000")
  = (op_join "/data/srcdata/cityscapes_train" "bochum_000000", None,
     Some (op_join (op_join "/data/srcdata/cityscapes_train" "bochum_000000") "depth")).
Proof.
  apply (make_saving_paths_keeps_last_component "/data/srcdata/cityscapes_train"
           "train/bochum" "bochum_000000").
  reflexivity.
Defined.

End city_reader_extra.
